(** * go-mplex: the session engine of [multiplex.go]

    A shallow embedding of the framing codec, the buffer credits, the
    session constructor, [NewNamedStream], [sendMsg], the receive loop
    [handleIncoming], [Accept], [Close] and the send loop
    [handleOutgoing], followed by the properties checked against it.

    Conventions.
    - [uint64] values are [Z] with the wrap-around written out ([u64]);
      bytes are [Z] in [0, 256); a [[]byte] is a [list Z].
    - A Go call that can panic, park the goroutine for ever, or loop
      returns a [run]: [Ret], [Panic], [Blocked] or [Fuel].
    - The goroutine modelled runs alone. Every [select] takes the case
      the scheduler names next ([sched]); a case that is not ready in the
      current state parks the goroutine ([Blocked]), so the runs that
      return are runs of the program.
    - Go [error] results stay ordinary values ([option error], [None] is
      [nil]), as in the source. *)

From Stdlib Require Import ZArith List Lia Bool.
From stdpp Require Import base tactics option numbers list gmap.
Import ListNotations.

Local Open Scope Z_scope.

(** ** Outcomes of a Go call *)

Inductive run (A : Type) : Type :=
| Ret (a : A)          (* the call returned *)
| Panic                (* run-time panic: index out of range, close of a closed channel, ... *)
| Blocked              (* the goroutine is parked on a channel operation that is not ready *)
| Fuel.                (* the model's loop bound was reached *)
Arguments Ret {A} a.
Arguments Panic {A}.
Arguments Blocked {A}.
Arguments Fuel {A}.

Definition run_bind {A B} (m : run A) (k : A -> run B) : run B :=
  match m with
  | Ret a => k a
  | Panic => Panic
  | Blocked => Blocked
  | Fuel => Fuel
  end.

(** ** Errors of the package and of the libraries it calls *)

Inductive error : Type :=
| ErrShutdown                 (* errors.New("session shut down") *)
| ErrTwoInitiators            (* errors.New("two initiators") *)
| ErrInvalidState             (* errors.New("received an unexpected message from the peer") *)
| errTimeout                  (* timeout{} *)
| ErrStreamClosed             (* used by sendMsg, declared with the stream *)
| ErrStreamReset              (* used by cleanup, declared with the stream *)
| ErrMessageTooLarge          (* fmt.Errorf("message size too large") *)
| ErrMultiplexClosed          (* errors.New("multiplex closed") *)
| io_EOF
| io_ErrUnexpectedEOF
| varint_ErrOverflow
| varint_ErrNotMinimal
| context_Canceled
| context_DeadlineExceeded
| ErrExternal (code : nat).   (* an error of the transport or of the memory manager *)

#[global] Instance error_eq_dec : EqDecision error.
Proof. solve_decision. Defined.

(** ** Machine integers *)

Definition u64 (z : Z) : Z := z mod 2 ^ 64.
(* Go's [int] on the 64-bit targets: two's complement wrap-around. *)
Definition int64 (z : Z) : Z := (z + 2 ^ 63) mod 2 ^ 64 - 2 ^ 63.
(* byte(x) for an unsigned x *)
Definition byte (z : Z) : Z := Z.land z 255.

(* +1 for initiator *)
Definition newStreamTag : Z := 0.
Definition messageTag : Z := 2.
Definition closeTag : Z := 4.
Definition resetTag : Z := 6.

(** ** Varint codec *)

Module Varint.

(* encoding/binary.PutUvarint:
     i := 0
     for x >= 0x80 { buf[i] = byte(x) | 0x80; x >>= 7; i++ }
     buf[i] = byte(x); return i + 1
   An index past the end of [buf] panics. *)
Fixpoint PutUvarint_loop (fuel : nat) (buf : list Z) (i : nat) (x : Z)
  : run (list Z * nat) :=
  match fuel with
  | O => Fuel
  | S fuel' =>
      if 0x80 <=? x then
        if decide (i < length buf)%nat
        then PutUvarint_loop fuel' (<[i := Z.lor (byte x) 0x80]> buf) (S i) (Z.shiftr x 7)
        else Panic
      else
        if decide (i < length buf)%nat
        then Ret (<[i := byte x]> buf, S i)
        else Panic
  end.

Definition PutUvarint (buf : list Z) (x : Z) : run (list Z * nat) :=
  PutUvarint_loop 10 buf 0 x.

(* The bytes PutUvarint produces, as a list. *)
Fixpoint uvarint_bytes (fuel : nat) (x : Z) : list Z :=
  match fuel with
  | O => []
  | S fuel' =>
      if 0x80 <=? x
      then Z.lor (byte x) 0x80 :: uvarint_bytes fuel' (Z.shiftr x 7)
      else [byte x]
  end.

Definition ToUvarint (x : Z) : list Z := uvarint_bytes 10 x.

(* An io.ByteReader over the bytes still to come; [rd_err] is what the
   underlying transport answers once they are used up (io.EOF on an
   orderly close). *)
Record reader := { rd_bytes : list Z; rd_err : error }.

Definition ReadByte (r : reader) : (Z + error) * reader :=
  match rd_bytes r with
  | b :: bs => (inl b, {| rd_bytes := bs; rd_err := rd_err r |})
  | [] => (inr (rd_err r), r)
  end.

Definition MaxLenUvarint63 : Z := 9.

(* github.com/multiformats/go-varint ReadUvarint:
     for s = 0; ; s += 7 {
       b, err := r.ReadByte()
       if err != nil {
         if err == io.EOF && s != 0 { err = io.ErrUnexpectedEOF }
         return 0, err }
       if (s == 56 && b >= 0x80) || s >= (7*MaxLenUvarint63) { return 0, ErrOverflow }
       if b < 0x80 {
         if b == 0 && s > 0 { return 0, ErrNotMinimal }
         return x | uint64(b)<<s, nil }
       x |= uint64(b&0x7f) << s } *)
Fixpoint ReadUvarint_loop (fuel : nat) (s x : Z) (r : reader)
  : run (Z * option error * reader) :=
  match fuel with
  | O => Fuel
  | S fuel' =>
      match ReadByte r with
      | (inr err, r') =>
          let err := if decide (err = io_EOF) then
                       if decide (s = 0) then err else io_ErrUnexpectedEOF
                     else err in
          Ret (0, Some err, r')
      | (inl b, r') =>
          if ((s =? 56) && (0x80 <=? b)) || (7 * MaxLenUvarint63 <=? s)
          then Ret (0, Some varint_ErrOverflow, r')
          else if b <? 0x80 then
            if (b =? 0) && (0 <? s)
            then Ret (0, Some varint_ErrNotMinimal, r')
            else Ret (Z.lor x (u64 (Z.shiftl b s)), None, r')
          else ReadUvarint_loop fuel' (s + 7) (Z.lor x (u64 (Z.shiftl (Z.land b 0x7f) s))) r'
      end
  end.

Definition ReadUvarint (r : reader) : run (Z * option error * reader) :=
  ReadUvarint_loop 10 0 0 r.

End Varint.

(** ** Channels *)

(* A buffered Go channel: the queued values, the capacity given to [make]
   and whether [close] was called. *)
Record chan (A : Type) : Type :=
  mkChan { ch_queue : list A; ch_cap : nat; ch_closed : bool }.
Arguments mkChan {A} _ _ _.
Arguments ch_queue {A} _.
Arguments ch_cap {A} _.
Arguments ch_closed {A} _.

Definition make_chan {A} (cap : nat) : chan A := mkChan [] cap false.

(* c <- a : panics on a closed channel, parks while the buffer is full *)
Definition chan_send {A} (c : chan A) (a : A) : run (chan A) :=
  if ch_closed c then Panic
  else if decide (length (ch_queue c) < ch_cap c)%nat
       then Ret (mkChan (ch_queue c ++ [a]) (ch_cap c) false)
       else Blocked.

(* v, ok := <-c : the head of the queue; on a drained closed channel the
   zero value and ok = false; parks on an empty open channel *)
Definition chan_recv {A} (c : chan A) : run (option A * chan A) :=
  match ch_queue c with
  | a :: q => Ret (Some a, mkChan q (ch_cap c) (ch_closed c))
  | [] => if ch_closed c then Ret (None, c) else Blocked
  end.

(* close(c) : panics when c is already closed *)
Definition chan_close {A} (c : chan A) : run (chan A) :=
  if ch_closed c then Panic else Ret (mkChan (ch_queue c) (ch_cap c) true).

(* A [<-chan struct{}] used as a one-shot signal: nil, or open/closed. *)
Inductive sigchan : Type := SigNil | Sig (closed : bool).

Definition sig_ready (s : sigchan) : bool :=
  match s with SigNil => false | Sig c => c end.

(* The cases of a [select]; which of the ready ones fires is the
   scheduler's choice. *)
Inductive select_case : Type :=
| CaseSend        (* the channel send of the select *)
| CaseTimeout     (* <-timeout, <-recvTimeout.C *)
| CaseCancel      (* <-cancel, <-msch.readCancel *)
| CaseShutdown.   (* <-mp.shutdown *)

(** ** Data model *)

Record streamID : Type := mkStreamID { sid_id : Z; sid_initiator : bool }.

#[global] Instance streamID_eq_dec : EqDecision streamID.
Proof. solve_decision. Defined.

#[global] Program Instance streamID_countable : Countable streamID :=
  inj_countable' (fun s => (sid_id s, sid_initiator s))
                 (fun p => mkStreamID (fst p) (snd p)) _.
Next Obligation. by intros []. Qed.

(* Modelled from the spec: the pipe deadline made by makePipeDeadline is
   not in this file; "absolute times; a zero value disables". *)
Definition pipeDeadline : Type := option Z.
Definition makePipeDeadline : pipeDeadline := None.

(* Modelled from the spec: the declaration of Stream is not in this
   file. The fields are those newStream initialises (the back-reference
   [mp] is the one session of the world), with the errors the cancel
   signals carry: "once raised they remain raised and carry a terminal
   error". *)
Record Stream : Type := mkStream {
  st_id : streamID;
  st_name : list Z;
  dataIn : chan (list Z);
  rDeadline : pipeDeadline;
  wDeadline : pipeDeadline;
  writeCancel : bool;              (* closed? *)
  readCancel : bool;               (* closed? *)
  writeCancelErr : option error;
  readCancelErr : option error
}.

(* net.Conn: what was written to it and whether Close was called. *)
Record Conn : Type := mkConn { conn_out : list Z; conn_closed : bool }.

(* context.Context: Err() is nil until the context is done. *)
Record Context : Type := mkContext { ctx_err : option error }.
Definition ctx_Done (ctx : Context) : sigchan :=
  Sig (bool_decide (ctx_err ctx <> None)).

(* The MemoryManager allows management of memory allocations. *)
Class MemoryManager (M : Type) : Type := {
  (* ReserveMemory reserves memory / buffer. *)
  ReserveMemory : M -> Z -> Z -> option error * M;
  (* ReleaseMemory explicitly releases memory previously reserved with ReserveMemory *)
  ReleaseMemory : M -> Z -> M
}.

Inductive nullMemoryManager : Type := mkNullMemoryManager.

#[global] Instance nullMemoryManager_mm : MemoryManager nullMemoryManager := {
  ReserveMemory m size prio := (None, m);
  ReleaseMemory m size := m
}.

(* A manager with a fixed budget of bytes, for concrete runs. *)
Record budgetManager : Type := mkBudget { budget_left : Z }.

#[global] Instance budgetManager_mm : MemoryManager budgetManager := {
  ReserveMemory m size prio :=
    if size <=? budget_left m
    then (None, mkBudget (budget_left m - size))
    else (Some (ErrExternal 1), m);
  ReleaseMemory m size := mkBudget (budget_left m + size)
}.

(* What the session does that is visible outside it, in program order. *)
Inductive event : Type :=
| EvReserveMemory (size prio : Z) (res : option error)
| EvReleaseMemory (size : Z)
| EvRead (bytes : list Z)              (* bytes consumed from mp.buf *)
| EvGetBufferInbound
| EvPutBufferInbound
| EvGetBufferOutbound
| EvPutBufferOutbound
| EvTimerReset                         (* recvTimeout.Reset(ReceiveTimeout) *)
| EvTimerStop                          (* recvTimeout.Stop(), draining C *)
| EvRecvTimeout                        (* <-recvTimeout.C fired *)
| EvLog
| EvCancelRead (ch : streamID)
| EvCancelWrite (ch : streamID)
| EvStreamReset (ch : streamID)        (* msch.Reset() *)
| EvConClose
| EvGo (handleIncoming : bool).        (* go mp.handleIncoming / handleOutgoing *)

#[global] Instance event_eq_dec : EqDecision event.
Proof. solve_decision. Defined.

Inductive control : Type := Continue | Return.

Section Session.

Context {M : Type} `{MemoryManager M}.

(* Multiplex is a mplex session. The memory manager is an interface
   value: [None] stands for the &nullMemoryManager{} the constructor
   substitutes for nil. *)
Record Multiplex : Type := mkMultiplex {
  con : Conn;
  buf : Varint.reader;
  nextID : Z;
  initiator : bool;
  memoryManager : option M;
  closed : bool;
  shutdown : bool;
  shutdownErr : option error;
  writeCh : chan (list Z);
  nstreams : chan nat;
  channels : option (gmap streamID nat);      (* None: the nil map *)
  bufIn : chan unit;
  bufOut : chan unit;
  bufMax : Z;
  reservedMemory : Z
}.

(* The program state: the package variables, the session, the Stream
   objects it points to (a *Stream is an index), the scheduler's coming
   choices and the events so far. *)
Record World : Type := mkWorld {
  MaxMessageSize : Z;
  MaxBuffers : Z;
  mp : Multiplex;
  streams : list Stream;
  sched : list select_case;
  trace : list event
}.

Definition with_mp (f : Multiplex -> Multiplex) (w : World) : World :=
  mkWorld (MaxMessageSize w) (MaxBuffers w) (f (mp w)) (streams w) (sched w) (trace w).
Definition with_streams (f : list Stream -> list Stream) (w : World) : World :=
  mkWorld (MaxMessageSize w) (MaxBuffers w) (mp w) (f (streams w)) (sched w) (trace w).
Definition with_sched (s : list select_case) (w : World) : World :=
  mkWorld (MaxMessageSize w) (MaxBuffers w) (mp w) (streams w) s (trace w).
Definition with_trace (f : list event -> list event) (w : World) : World :=
  mkWorld (MaxMessageSize w) (MaxBuffers w) (mp w) (streams w) (sched w) (f (trace w)).

Definition set_con (x : Conn) (m : Multiplex) : Multiplex :=
  mkMultiplex x (buf m) (nextID m) (initiator m) (memoryManager m) (closed m)
    (shutdown m) (shutdownErr m) (writeCh m) (nstreams m) (channels m) (bufIn m)
    (bufOut m) (bufMax m) (reservedMemory m).
Definition set_buf (x : Varint.reader) (m : Multiplex) : Multiplex :=
  mkMultiplex (con m) x (nextID m) (initiator m) (memoryManager m) (closed m)
    (shutdown m) (shutdownErr m) (writeCh m) (nstreams m) (channels m) (bufIn m)
    (bufOut m) (bufMax m) (reservedMemory m).
Definition set_nextID (x : Z) (m : Multiplex) : Multiplex :=
  mkMultiplex (con m) (buf m) x (initiator m) (memoryManager m) (closed m)
    (shutdown m) (shutdownErr m) (writeCh m) (nstreams m) (channels m) (bufIn m)
    (bufOut m) (bufMax m) (reservedMemory m).
Definition set_memoryManager (x : option M) (m : Multiplex) : Multiplex :=
  mkMultiplex (con m) (buf m) (nextID m) (initiator m) x (closed m)
    (shutdown m) (shutdownErr m) (writeCh m) (nstreams m) (channels m) (bufIn m)
    (bufOut m) (bufMax m) (reservedMemory m).
Definition set_closed (x : bool) (m : Multiplex) : Multiplex :=
  mkMultiplex (con m) (buf m) (nextID m) (initiator m) (memoryManager m) x
    (shutdown m) (shutdownErr m) (writeCh m) (nstreams m) (channels m) (bufIn m)
    (bufOut m) (bufMax m) (reservedMemory m).
Definition set_shutdown (x : bool) (m : Multiplex) : Multiplex :=
  mkMultiplex (con m) (buf m) (nextID m) (initiator m) (memoryManager m) (closed m)
    x (shutdownErr m) (writeCh m) (nstreams m) (channels m) (bufIn m)
    (bufOut m) (bufMax m) (reservedMemory m).
Definition set_shutdownErr (x : option error) (m : Multiplex) : Multiplex :=
  mkMultiplex (con m) (buf m) (nextID m) (initiator m) (memoryManager m) (closed m)
    (shutdown m) x (writeCh m) (nstreams m) (channels m) (bufIn m)
    (bufOut m) (bufMax m) (reservedMemory m).
Definition set_writeCh (x : chan (list Z)) (m : Multiplex) : Multiplex :=
  mkMultiplex (con m) (buf m) (nextID m) (initiator m) (memoryManager m) (closed m)
    (shutdown m) (shutdownErr m) x (nstreams m) (channels m) (bufIn m)
    (bufOut m) (bufMax m) (reservedMemory m).
Definition set_nstreams (x : chan nat) (m : Multiplex) : Multiplex :=
  mkMultiplex (con m) (buf m) (nextID m) (initiator m) (memoryManager m) (closed m)
    (shutdown m) (shutdownErr m) (writeCh m) x (channels m) (bufIn m)
    (bufOut m) (bufMax m) (reservedMemory m).
Definition set_channels (x : option (gmap streamID nat)) (m : Multiplex) : Multiplex :=
  mkMultiplex (con m) (buf m) (nextID m) (initiator m) (memoryManager m) (closed m)
    (shutdown m) (shutdownErr m) (writeCh m) (nstreams m) x (bufIn m)
    (bufOut m) (bufMax m) (reservedMemory m).
Definition set_bufIn (x : chan unit) (m : Multiplex) : Multiplex :=
  mkMultiplex (con m) (buf m) (nextID m) (initiator m) (memoryManager m) (closed m)
    (shutdown m) (shutdownErr m) (writeCh m) (nstreams m) (channels m) x
    (bufOut m) (bufMax m) (reservedMemory m).
Definition set_bufOut (x : chan unit) (m : Multiplex) : Multiplex :=
  mkMultiplex (con m) (buf m) (nextID m) (initiator m) (memoryManager m) (closed m)
    (shutdown m) (shutdownErr m) (writeCh m) (nstreams m) (channels m) (bufIn m)
    x (bufMax m) (reservedMemory m).
Definition set_bufMax (x : Z) (m : Multiplex) : Multiplex :=
  mkMultiplex (con m) (buf m) (nextID m) (initiator m) (memoryManager m) (closed m)
    (shutdown m) (shutdownErr m) (writeCh m) (nstreams m) (channels m) (bufIn m)
    (bufOut m) x (reservedMemory m).
Definition set_reservedMemory (x : Z) (m : Multiplex) : Multiplex :=
  mkMultiplex (con m) (buf m) (nextID m) (initiator m) (memoryManager m) (closed m)
    (shutdown m) (shutdownErr m) (writeCh m) (nstreams m) (channels m) (bufIn m)
    (bufOut m) (bufMax m) x.

(** *** The monad of session code: state passing over [World] *)

Definition go (A : Type) : Type := World -> run (A * World).

Definition ret {A} (a : A) : go A := fun w => Ret (a, w).
Definition bind {A B} (m : go A) (k : A -> go B) : go B :=
  fun w => match m w with
           | Ret (a, w') => k a w'
           | Panic => Panic
           | Blocked => Blocked
           | Fuel => Fuel
           end.
Definition get : go World := fun w => Ret (w, w).
Definition modify (f : World -> World) : go unit := fun w => Ret (tt, f w).
Definition lift {A} (r : run A) : go A :=
  fun w => match r with
           | Ret a => Ret (a, w)
           | Panic => Panic
           | Blocked => Blocked
           | Fuel => Fuel
           end.
Definition emit (e : event) : go unit := modify (with_trace (fun t => t ++ [e])).
Definition modify_mp (f : Multiplex -> Multiplex) : go unit := modify (with_mp f).

End Session.

Arguments Multiplex : clear implicits.
Arguments World : clear implicits.
Arguments go : clear implicits.

Notation "'let!' x ':=' m 'in' k" := (bind m (fun x => k))
  (at level 10, x pattern, m at level 100, k at level 200).
Notation "m ';;;' k" := (bind m (fun _ => k))
  (at level 100, k at level 200, right associativity).

(** ** Helpers for slices, the buffer pool and the reader *)

(* f applied to the slice buf[n:], which shares buf's array; the
   expression buf[n:] panics when n > len(buf) *)
Definition on_tail (n : nat) (buf : list Z)
    (f : list Z -> run (list Z * nat)) : run (list Z * nat) :=
  if decide (n <= length buf)%nat then
    run_bind (f (drop n buf)) (fun '(t, k) => Ret (take n buf ++ t, k))
  else Panic.

(* the builtin copy(dst, src): min(len(dst), len(src)) elements *)
Definition copy (dst src : list Z) : list Z * nat :=
  let k := Nat.min (length dst) (length src) in
  (take k src ++ drop k dst, k).

(* go-buffer-pool Get: a slice of exactly the requested length, contents
   unspecified (zeros here); a negative length panics in make *)
Definition pool_Get (length : Z) : run (list Z) :=
  if length <? 0 then Panic else Ret (repeat 0 (Z.to_nat length)).

(* io.ReadFull(r, buf): fills buf or reports why it could not. Returns
   the count, the error, the buffer and the reader. *)
Definition io_ReadFull (r : Varint.reader) (b : list Z)
  : nat * option error * list Z * Varint.reader :=
  let want := length b in
  let got := take want (Varint.rd_bytes r) in
  let r' := {| Varint.rd_bytes := drop want (Varint.rd_bytes r);
               Varint.rd_err := Varint.rd_err r |} in
  if decide (length got = want) then (want, None, got, r')
  else
    let err := if decide (length got = 0%nat) then Varint.rd_err r
               else if decide (Varint.rd_err r = io_EOF) then io_ErrUnexpectedEOF
               else Varint.rd_err r in
    (length got, Some err, got ++ drop (length got) b, r').

(* fmt.Sprint of a uint64: its decimal digits *)
Fixpoint decimal_loop (fuel : nat) (n : Z) (acc : list Z) : list Z :=
  match fuel with
  | O => acc
  | S fuel' =>
      let acc' := (48 + n mod 10) :: acc in
      if n <? 10 then acc' else decimal_loop fuel' (n / 10) acc'
  end.
Definition fmt_Sprint (n : Z) : list Z := decimal_loop 20 n [].

Definition set_dataIn (c : chan (list Z)) (s : Stream) : Stream :=
  mkStream (st_id s) (st_name s) c (rDeadline s) (wDeadline s)
    (writeCancel s) (readCancel s) (writeCancelErr s) (readCancelErr s).
Definition fire_readCancel (e : error) (s : Stream) : Stream :=
  mkStream (st_id s) (st_name s) (dataIn s) (rDeadline s) (wDeadline s)
    (writeCancel s) true (writeCancelErr s) (Some e).
Definition fire_writeCancel (e : error) (s : Stream) : Stream :=
  mkStream (st_id s) (st_name s) (dataIn s) (rDeadline s) (wDeadline s)
    true (readCancel s) (Some e) (readCancelErr s).

(* The header of a frame, as NewNamedStream builds it for newStreamTag:
   (sid << 3) | tag, in uint64. *)
Definition header_of (sid tag : Z) : Z := Z.lor (u64 (Z.shiftl sid 3)) tag.

Definition prio_of (bufs : Z) : Z :=
  if bufs =? 0 then 255 else if bufs =? 1 then 192 else 128.

(** ** The session's operations *)

Section Operations.

Context {M : Type} `{MemoryManager M}.

Local Abbreviation go := (go M).
Local Abbreviation World := (World M).

(* Calls through the interface value. *)
Definition mm_ReserveMemory (m : option M) (size prio : Z) : option error * option M :=
  match m with
  | None => (fst (ReserveMemory mkNullMemoryManager size prio), None)
  | Some s => let '(e, s') := ReserveMemory s size prio in (e, Some s')
  end.
Definition mm_ReleaseMemory (m : option M) (size : Z) : option M :=
  match m with
  | None => None
  | Some s => Some (ReleaseMemory s size)
  end.

(* the scheduler's choice for the select being entered *)
Definition next_case : go select_case :=
  fun w => match sched w with
           | c :: cs => Ret (c, with_sched cs w)
           | [] => Blocked
           end.

Definition blocked {A} : go A := lift (M:=M) Blocked.
Definition panic {A} : go A := lift (M:=M) Panic.
(* a receive from a signal channel fires once the channel is closed *)
Definition await (ready : bool) : go unit := if ready then ret tt else blocked.

(* *Stream dereference and update *)
Definition stream_get (r : nat) : go Stream :=
  fun w => match streams w !! r with
           | Some s => Ret (s, w)
           | None => Panic
           end.
Definition stream_update (r : nat) (f : Stream -> Stream) : go unit :=
  let! s := stream_get r in
  modify (with_streams (fun l => <[r := f s]> l)).

(* msch, ok := mp.channels[ch] (a nil map reads as empty) *)
Definition channels_lookup (ch : streamID) : go (option nat) :=
  let! w := get in
  ret (match channels (mp w) with
       | Some m => m !! ch
       | None => None
       end).
(* mp.channels[ch] = msch (panics on the nil map) *)
Definition channels_store (ch : streamID) (r : nat) : go unit :=
  let! w := get in
  match channels (mp w) with
  | Some m => modify_mp (set_channels (Some (<[ch := r]> m)))
  | None => panic
  end.
(* delete(mp.channels, ch) (a no-op on the nil map) *)
Definition channels_delete (ch : streamID) : go unit :=
  modify_mp (fun m => set_channels (delete ch <$> channels m) m).

Definition getBuffer (length : Z) : go (list Z) := lift (pool_Get length).

Definition getBufferInbound (length : Z) : go (list Z * option error) :=
  let! c := next_case in
  match c with
  | CaseSend =>
      let! w := get in
      let! c' := lift (chan_send (bufIn (mp w)) tt) in
      modify_mp (set_bufIn c') ;;;
      emit EvGetBufferInbound ;;;
      let! b := getBuffer length in
      ret (b, None)
  | CaseShutdown =>
      let! w := get in
      await (shutdown (mp w)) ;;;
      ret ([], Some ErrShutdown)
  | _ => blocked
  end.

Definition getBufferOutbound (length : Z) (timeout cancel : sigchan)
  : go (list Z * option error) :=
  let! c := next_case in
  match c with
  | CaseSend =>
      let! w := get in
      let! c' := lift (chan_send (bufOut (mp w)) tt) in
      modify_mp (set_bufOut c') ;;;
      emit EvGetBufferOutbound ;;;
      let! b := getBuffer length in
      ret (b, None)
  | CaseTimeout => await (sig_ready timeout) ;;; ret ([], Some errTimeout)
  | CaseCancel => await (sig_ready cancel) ;;; ret ([], Some ErrStreamClosed)
  | CaseShutdown =>
      let! w := get in
      await (shutdown (mp w)) ;;;
      ret ([], Some ErrShutdown)
  end.

(* putBuffer: <-putBuf; pool.Put(slice) *)
Definition putBufferInbound (b : list Z) : go unit :=
  let! w := get in
  let! (_, c') := lift (chan_recv (bufIn (mp w))) in
  modify_mp (set_bufIn c') ;;;
  emit EvPutBufferInbound.

Definition putBufferOutbound (b : list Z) : go unit :=
  let! w := get in
  let! (_, c') := lift (chan_recv (bufOut (mp w))) in
  modify_mp (set_bufOut c') ;;;
  emit EvPutBufferOutbound.

(* varint.ReadUvarint(mp.buf) *)
Definition buf_ReadUvarint : go (Z * option error) :=
  let! w := get in
  let r := buf (mp w) in
  let! (x, err, r') := lift (Varint.ReadUvarint r) in
  modify_mp (set_buf r') ;;;
  emit (EvRead (take (length (Varint.rd_bytes r) - length (Varint.rd_bytes r'))
                     (Varint.rd_bytes r))) ;;;
  ret (x, err).

Definition readNextHeader : go (Z * Z * option error) :=
  let! (h, err) := buf_ReadUvarint in
  match err with
  | Some e => ret (0, 0, Some e)
  | None =>
      (* get channel ID *)
      let ch := Z.shiftr h 3 in
      let rem := Z.land h 7 in
      ret (ch, rem, None)
  end.

Definition readNext : go (list Z * option error) :=
  (* get length *)
  let! (l, err) := buf_ReadUvarint in
  match err with
  | Some e => ret ([], Some e)
  | None =>
      let! w := get in
      if u64 (MaxMessageSize w) <? l then ret ([], Some ErrMessageTooLarge)
      else if l =? 0 then ret ([], None)
      else
        let! (b, err) := getBufferInbound (int64 l) in
        match err with
        | Some e => ret ([], Some e)
        | None =>
            let! w := get in
            let '(n, err, b, r') := io_ReadFull (buf (mp w)) b in
            modify_mp (set_buf r') ;;;
            emit (EvRead (take n b)) ;;;
            match err with
            | Some e => ret ([], Some e)
            | None => ret (take n b, None)
            end
        end
  end.

Definition newStream (id : streamID) (name : list Z) : go nat :=
  let! w := get in
  let s := mkStream id name (make_chan (Z.to_nat (bufMax (mp w))))
             makePipeDeadline makePipeDeadline false false None None in
  modify (with_streams (fun l => l ++ [s])) ;;;
  ret (length (streams w)).

(* Modelled from the spec: Stream.cancelRead is not in this file. "Cancel
   the stream's reads ... with ErrStreamReset"; the signal is one-shot and
   carries its error. *)
Definition Stream_cancelRead (r : nat) (err : error) : go unit :=
  let! s := stream_get r in
  emit (EvCancelRead (st_id s)) ;;;
  if readCancel s then ret tt else stream_update r (fire_readCancel err).

(* Modelled from the spec: Stream.cancelWrite is not in this file; as
   cancelRead, for the write side. *)
Definition Stream_cancelWrite (r : nat) (err : error) : go unit :=
  let! s := stream_get r in
  emit (EvCancelWrite (st_id s)) ;;;
  if writeCancel s then ret tt else stream_update r (fire_writeCancel err).

(* Modelled from the spec: Stream.Reset is not in this file. "idempotent;
   sends a Reset frame best-effort with a bounded timeout, cancels pending
   reads and writes with ErrStreamReset, removes the stream from the
   session map, closes its data channel". The best-effort frame is part
   of the EvStreamReset event. *)
Definition Stream_Reset (r : nat) : go unit :=
  let! s := stream_get r in
  emit (EvStreamReset (st_id s)) ;;;
  Stream_cancelRead r ErrStreamReset ;;;
  Stream_cancelWrite r ErrStreamReset ;;;
  channels_delete (st_id s) ;;;
  let! s := stream_get r in
  if ch_closed (dataIn s) then ret tt
  else
    let! c := lift (chan_close (dataIn s)) in
    stream_update r (set_dataIn c).

Fixpoint reserve_loop (n : nat) (bufs : Z) (err : option error) (w : World)
  : Z * option error * World :=
  match n with
  | O => (bufs, err, w)
  | S n' =>
      let prio := prio_of bufs in
      let size := int64 (2 * MaxMessageSize w) in
      let '(err, mm) := mm_ReserveMemory (memoryManager (mp w)) size prio in
      let w := with_trace (fun t => t ++ [EvReserveMemory size prio err])
                 (with_mp (set_memoryManager mm) w) in
      match err with
      | Some _ => (bufs, err, w)     (* break *)
      | None =>
          let w := with_mp (fun m => set_reservedMemory
                                       (int64 (reservedMemory m + size)) m) w in
          reserve_loop n' (bufs + 1) err w
      end
  end.

(* NewMultiplex creates a new multiplexer session. The package variables
   and the scheduler come with the call; the result is the session's
   world (nil on failure), the error, and the events of the call. *)
Definition NewMultiplex (maxMessageSize maxBuffers : Z) (sch : list select_case)
    (c : Conn) (incoming : Varint.reader) (isInitiator : bool)
    (mm : option M) : option World * option error * list event :=
  let m := mkMultiplex c incoming 0 isInitiator mm false false None
             (make_chan 16) (make_chan 16) (Some ∅)
             (make_chan 0) (make_chan 0) 0 0 in
  let w := mkWorld maxMessageSize maxBuffers m [] sch [] in
  (* up-front reserve memory for max buffers *)
  let '(bufs, err, w) := reserve_loop (Z.to_nat maxBuffers) 0 None w in
  if bufs =? 0 then (None, err, trace w)
  else
    let w := with_mp (fun m => set_bufOut (make_chan (Z.to_nat bufs))
                                 (set_bufIn (make_chan (Z.to_nat bufs))
                                    (set_bufMax bufs m))) w in
    let w := with_trace (fun t => t ++ [EvGo true; EvGo false]) w in
    (Some w, None, trace w).

Definition closeNoWait : go unit :=
  let! w := get in
  if shutdown (mp w) then ret tt
  else
    let size := reservedMemory (mp w) in
    modify_mp (fun m => set_memoryManager (mm_ReleaseMemory (memoryManager m) size) m) ;;;
    emit (EvReleaseMemory size) ;;;
    modify_mp (fun m => set_con (mkConn (conn_out (con m)) true) m) ;;;
    emit EvConClose ;;;
    modify_mp (set_shutdown true).

(* The three writes of sendMsg into the buffer it was given:
     n := 0
     n += binary.PutUvarint(buf[n:], header)
     n += binary.PutUvarint(buf[n:], uint64(len(data)))
     n += copy(buf[n:], data)
   The result is the buffer and n. *)
Definition sendMsg_fill (b : list Z) (header : Z) (data : list Z)
  : run (list Z * nat) :=
  let n := 0%nat in
  run_bind (on_tail n b (fun s => Varint.PutUvarint s header)) (fun '(b, k) =>
  let n := (n + k)%nat in
  run_bind (on_tail n b (fun s =>
              Varint.PutUvarint s (u64 (Z.of_nat (length data))))) (fun '(b, k) =>
  let n := (n + k)%nat in
  run_bind (on_tail n b (fun s => Ret (copy s data))) (fun '(b, k) =>
  let n := (n + k)%nat in
  Ret (b, n)))).

Definition sendMsg (timeout cancel : sigchan) (header : Z) (data : list Z)
  : go (option error) :=
  let! (b, err) := getBufferOutbound (Z.of_nat (length data) + 20) timeout cancel in
  match err with
  | Some e => ret (Some e)
  | None =>
      let! (b, n) := lift (sendMsg_fill b header data) in
      let! c := next_case in
      let! w := get in
      match c with
      | CaseSend =>
          let! c' := lift (chan_send (writeCh (mp w)) (take n b)) in
          modify_mp (set_writeCh c') ;;;
          ret None
      | CaseShutdown =>
          await (shutdown (mp w)) ;;;
          putBufferOutbound b ;;;
          ret (Some ErrShutdown)
      | CaseTimeout =>
          await (sig_ready timeout) ;;;
          putBufferOutbound b ;;;
          ret (Some errTimeout)
      | CaseCancel =>
          await (sig_ready cancel) ;;;
          putBufferOutbound b ;;;
          ret (Some ErrStreamClosed)
      end
  end.

Definition nextChanID : go Z :=
  let! w := get in
  let out := nextID (mp w) in
  modify_mp (set_nextID (u64 (out + 1))) ;;;
  ret out.

(* NewNamedStream creates a new named stream. *)
Definition NewNamedStream (ctx : Context) (name : list Z)
  : go (option nat * option error) :=
  let! w := get in
  (* We could call IsClosed but this is faster (given that we already have
     the lock). *)
  match channels (mp w) with
  | None => ret (None, Some ErrShutdown)
  | Some _ =>
      let! sid := nextChanID in
      let header := header_of sid newStreamTag in
      let name := if decide (name = []) then fmt_Sprint sid else name in
      let! s := newStream (mkStreamID sid true) name in
      let! st := stream_get s in
      channels_store (st_id st) s ;;;
      let! err := sendMsg (ctx_Done ctx) SigNil header name in
      match err with
      | Some e =>
          if decide (e = errTimeout) then ret (None, ctx_err ctx)
          else ret (None, Some e)
      | None => ret (Some s, None)
      end
  end.

(* for _, msch := range channels { cancelRead; cancelWrite } *)
Fixpoint cancel_all (l : list (streamID * nat)) : go unit :=
  match l with
  | [] => ret tt
  | (_, msch) :: l' =>
      Stream_cancelRead msch ErrStreamReset ;;;
      Stream_cancelWrite msch ErrStreamReset ;;;
      cancel_all l'
  end.

Definition cleanup : go unit :=
  closeNoWait ;;;
  (* Take the channels. *)
  let! w := get in
  let chans := channels (mp w) in
  modify_mp (set_channels None) ;;;
  (* Cancel any reads/writes *)
  cancel_all (match chans with Some m => map_to_list m | None => [] end) ;;;
  (* And... shutdown! *)
  let! w := get in
  match shutdownErr (mp w) with
  | Some _ => ret tt
  | None => modify_mp (set_shutdownErr (Some ErrShutdown))
  end ;;;
  let! w := get in
  if closed (mp w) then panic else modify_mp (set_closed true).

(* The switch on the rounded tag in handleIncoming: [ch] is the key the
   frame addresses, [b] its payload, [msch] the result of the map lookup
   (None when ok is false). *)
Definition handleIncoming_dispatch (ch : streamID) (tag : Z) (b : list Z)
    (msch : option nat) : go control :=
  if tag =? newStreamTag then
    match msch with
    | Some _ =>
        emit EvLog ;;;
        modify_mp (set_shutdownErr (Some ErrInvalidState)) ;;;
        ret Return
    | None =>
        let name := b in
        putBufferInbound b ;;;
        let! s := newStream ch name in
        channels_store ch s ;;;
        let! c := next_case in
        let! w := get in
        match c with
        | CaseSend =>
            let! c' := lift (chan_send (nstreams (mp w)) s) in
            modify_mp (set_nstreams c') ;;;
            ret Continue
        | CaseShutdown => await (shutdown (mp w)) ;;; ret Return
        | _ => blocked
        end
    end
  else if tag =? resetTag then
    match msch with
    | None =>
        (* This is *ok*. We forget the stream on reset. *)
        ret Continue
    | Some s =>
        (* Cancel any ongoing reads/writes. *)
        Stream_cancelRead s ErrStreamReset ;;;
        Stream_cancelWrite s ErrStreamReset ;;;
        ret Continue
    end
  else if tag =? closeTag then
    match msch with
    | None =>
        (* may have canceled our reads already. *)
        ret Continue
    | Some s =>
        (* unregister and throw away future data. *)
        channels_delete ch ;;;
        (* close data channel, there will be no more data. *)
        let! st := stream_get s in
        let! c := lift (chan_close (dataIn st)) in
        stream_update s (set_dataIn c) ;;;
        ret Continue
    end
  else if tag =? messageTag then
    match msch with
    | None =>
        (* We're not accepting data on this stream, for some reason. *)
        putBufferInbound b ;;;
        ret Continue
    | Some s =>
        emit EvTimerReset ;;;
        let! c := next_case in
        let! w := get in
        let! st := stream_get s in
        match c with
        | CaseSend =>
            let! c' := lift (chan_send (dataIn st) b) in
            stream_update s (set_dataIn c') ;;;
            emit EvTimerStop ;;;
            ret Continue
        | CaseCancel =>
            await (readCancel st) ;;;
            (* the user has canceled reading. walk away. *)
            putBufferInbound b ;;;
            emit EvTimerStop ;;;
            ret Continue
        | CaseTimeout =>
            emit EvRecvTimeout ;;;
            putBufferInbound b ;;;
            emit EvLog ;;;
            (* Do not do this asynchronously. Otherwise, we could drop
               a message, then receive a message, then reset. *)
            Stream_Reset s ;;;
            ret Continue
        | CaseShutdown =>
            await (shutdown (mp w)) ;;;
            putBufferInbound b ;;;
            ret Return
        end
    end
  else
    (emit EvLog ;;;
     match msch with
     | Some s => Stream_Reset s
     | None => ret tt
     end ;;;
     ret Continue).

(* One turn of the for loop of handleIncoming. *)
Definition handleIncoming_body : go control :=
  let! (chID, tag, err) := readNextHeader in
  match err with
  | Some e => modify_mp (set_shutdownErr (Some e)) ;;; ret Return
  | None =>
      let remoteIsInitiator := Z.land tag 1 =? 0 in
      let ch := mkStreamID chID (* true if *I'm* the initiator. *)
                  (negb remoteIsInitiator) in
      (* Rounds up the tag: 0 -> 0, 1 -> 2, 2 -> 2, 3 -> 4, etc... *)
      let tag := u64 (tag + Z.land tag 1) in
      let! (b, err) := readNext in
      match err with
      | Some e => modify_mp (set_shutdownErr (Some e)) ;;; ret Return
      | None =>
          let! msch := channels_lookup ch in
          handleIncoming_dispatch ch tag b msch
      end
  end.

Fixpoint handleIncoming_loop (fuel : nat) : go unit :=
  match fuel with
  | O => lift (M:=M) Fuel
  | S fuel' =>
      let! c := handleIncoming_body in
      match c with
      | Continue => handleIncoming_loop fuel'
      | Return => ret tt
      end
  end.

(* handleIncoming: the loop, then the deferred cleanup. *)
Definition handleIncoming (fuel : nat) : go unit :=
  handleIncoming_loop fuel ;;;
  cleanup.

End Operations.

(** ** Vocabulary of the properties *)

Section Vocabulary.

Context {M : Type} `{MemoryManager M}.

(* The world once mp.buf has advanced to r': the reader is replaced and
   the bytes taken are on the trace. *)
Definition consumed (r' : Varint.reader) (w : World M) : World M :=
  with_trace (fun t => t ++ [EvRead (take (length (Varint.rd_bytes (buf (mp w)))
                                             - length (Varint.rd_bytes r'))
                                          (Varint.rd_bytes (buf (mp w))))])
    (with_mp (set_buf r') w).

(* What the stream operations do to the Stream object. *)
Definition cancelRead_st (e : error) (st : Stream) : Stream :=
  if readCancel st then st else fire_readCancel e st.
Definition cancelWrite_st (e : error) (st : Stream) : Stream :=
  if writeCancel st then st else fire_writeCancel e st.
Definition close_dataIn (st : Stream) : Stream :=
  set_dataIn (mkChan (ch_queue (dataIn st)) (ch_cap (dataIn st)) true) st.

(* The receive loop has not finished, and every stream the map names
   exists. *)
Definition session_ok (w : World M) : Prop :=
  closed (mp w) = false /\
  forall m ch r, channels (mp w) = Some m -> m !! ch = Some r ->
                 is_Some (streams w !! r).

(* The error the session reports once cleanup ran. *)
Definition shutdown_cause (w : World M) : error :=
  match shutdownErr (mp w) with
  | Some e => e
  | None => ErrShutdown
  end.

(* The priorities of the spec: 255 for the first slot, 192 for the
   second, 128 for the others. *)
Definition slot_priority (i : nat) : Z := nth i [255; 192] 128.

(* The manager after granting slots from, from+1, ..., from+k-1 in this
   order, each of [size] bytes; None if it refuses one of them. *)
Fixpoint grants (size : Z) (from k : nat) (mm : option M) : option (option M) :=
  match k with
  | O => Some mm
  | S k' =>
      match mm_ReserveMemory mm size (slot_priority from) with
      | (None, mm') => grants size (S from) k' mm'
      | (Some _, _) => None
      end
  end.

(* The world in which NewNamedStream calls sendMsg: the id is taken, the
   stream allocated and registered. *)
Definition registered (name : list Z) (w : World M) : World M :=
  let sid := nextID (mp w) in
  let name := if decide (name = []) then fmt_Sprint sid else name in
  let s := mkStream (mkStreamID sid true) name (make_chan (Z.to_nat (bufMax (mp w))))
             makePipeDeadline makePipeDeadline false false None None in
  with_mp (fun m => set_channels
                      (match channels m with
                       | Some c => Some (<[mkStreamID sid true := length (streams w)]> c)
                       | None => None
                       end) m)
    (with_streams (fun l => l ++ [s])
       (with_mp (set_nextID (u64 (sid + 1))) w)).

Definition registered_name (name : list Z) (w : World M) : list Z :=
  if decide (name = []) then fmt_Sprint (nextID (mp w)) else name.

End Vocabulary.

(** ** Concrete sessions and the statements under test *)

(* The session NewMultiplex returns for the default MaxMessageSize and
   MaxBuffers and no memory manager, with [incoming] on the wire. *)
Definition session0 (incoming : list Z) (sch : list select_case)
  : World nullMemoryManager :=
  mkWorld (2 ^ 20) 4
    (mkMultiplex (mkConn [] false)
       {| Varint.rd_bytes := incoming; Varint.rd_err := io_EOF |}
       0 false None false false None
       (make_chan 16) (make_chan 16) (Some ∅)
       (make_chan 4) (make_chan 4) 4 (4 * 2 ^ 21))
    [] sch
    [EvReserveMemory (2 ^ 21) 255 None; EvReserveMemory (2 ^ 21) 192 None;
     EvReserveMemory (2 ^ 21) 128 None; EvReserveMemory (2 ^ 21) 128 None;
     EvGo true; EvGo false].

Section Statements.

Context {M : Type} `{MemoryManager M}.

(* Header round trip at one stream id and tag: the varint of
   (sid << 3) | tag, written by PutUvarint and put in front of what
   mp.buf holds, is read back by readNextHeader as (sid, tag), and the
   reader is where it was. *)
Definition header_roundtrip (w : World M) (sid tag : Z) : Prop :=
  exists b n w',
    Varint.PutUvarint (repeat 0 10) (header_of sid tag) = Ret (b, n) /\
    readNextHeader
      (with_mp (fun m => set_buf
                  {| Varint.rd_bytes := take n b ++ Varint.rd_bytes (buf m);
                     Varint.rd_err := Varint.rd_err (buf m) |} m) w)
      = Ret ((sid, tag, None), w') /\
    buf (mp w') = buf (mp w).

End Statements.

(* The world after one turn of the receive loop (the world itself if the
   turn does not return). *)
Definition after_body {M : Type} `{MemoryManager M} (w : World M) : World M :=
  match handleIncoming_body w with
  | Ret (_, w') => w'
  | _ => w
  end.

(* session0 after the peer opened stream 0 with the name "s". *)
Definition session_live (incoming : list Z) (sch : list select_case)
  : World nullMemoryManager :=
  after_body (session0 ([0; 1; 115] ++ incoming) (CaseSend :: CaseSend :: sch)).

(* The package variable MaxMessageSize set to x. *)
Definition with_MaxMessageSize {M : Type} (x : Z) (w : World M) : World M :=
  mkWorld x (MaxBuffers w) (mp w) (streams w) (sched w) (trace w).

(* session_ok, as a test on a concrete world *)
Definition session_okb {M : Type} (w : World M) : bool :=
  negb (closed (mp w)) &&
  match channels (mp w) with
  | Some m => forallb (fun p => bool_decide (snd p < length (streams w))%nat)
                      (map_to_list m)
  | None => true
  end.

Section StatedClaims.

Context {M : Type} `{MemoryManager M}.

(* NewNamedStream as the spec words it: whenever the send of the
   NewStream frame fails with e, the caller gets e and the stream is out
   of the map again. *)
Definition NewNamedStream_unregisters (w : World M) (ctx : Context) (name : list Z)
  : Prop :=
  forall e w2,
    sendMsg (ctx_Done ctx) SigNil (header_of (nextID (mp w)) newStreamTag)
      (registered_name name w) (registered name w) = Ret (Some e, w2) ->
    exists w',
      NewNamedStream ctx name w = Ret ((None, Some e), w')
      /\ forall m', channels (mp w') = Some m' ->
                    m' !! mkStreamID (nextID (mp w)) true = None.

(* The Close row as the spec words it, for the turn of the loop that
   starts in w and addresses the stream s under the key ch: the stream
   leaves the map, its data channel is closed, an inbound slot is
   released, and the cancel signals and deadlines stay as they are. *)
Definition Close_releases_slot (w : World M) (ch : streamID) (s : nat) : Prop :=
  exists w' st st',
    handleIncoming_body w = Ret (Continue, w')
    /\ streams w !! s = Some st
    /\ streams w' !! s = Some st'
    /\ (forall m', channels (mp w') = Some m' -> m' !! ch = None)
    /\ ch_closed (dataIn st') = true
    /\ In EvPutBufferInbound (drop (length (trace w)) (trace w'))
    /\ readCancel st' = readCancel st
    /\ writeCancel st' = writeCancel st
    /\ rDeadline st' = rDeadline st
    /\ wDeadline st' = wDeadline st.

End StatedClaims.

(* session_live after a one-byte Message for stream 0 was queued: one
   inbound slot is held. *)
Definition session_busy (incoming : list Z) (sch : list select_case)
  : World nullMemoryManager :=
  after_body (session_live ([2; 1; 65] ++ incoming) (CaseSend :: CaseSend :: sch)).

(** ** The rest of the session: Accept, Close, the send loop *)

Section MoreOperations.

Context {M : Type} `{MemoryManager M}.

Local Abbreviation go := (go M).

(* isShutdown: select { case <-mp.shutdown: true; default: false } *)
Definition isShutdown : go bool :=
  let! w := get in
  ret (shutdown (mp w)).

(* IsClosed returns true if the session is closed. *)
Definition IsClosed : go bool :=
  let! w := get in
  ret (closed (mp w)).

(* Accept accepts the next stream from the connection. Of the select,
   [CaseSend] is the receive from m.nstreams and [CaseShutdown] the
   receive from m.closed. *)
Definition Accept : go (option nat * option error) :=
  let! c := next_case in
  let! w := get in
  match c with
  | CaseSend =>
      let! (o, c') := lift (chan_recv (nstreams (mp w))) in
      modify_mp (set_nstreams c') ;;;
      match o with
      | None => ret (None, Some ErrMultiplexClosed)       (* !ok *)
      | Some s => ret (Some s, None)
      end
  | CaseShutdown =>
      await (closed (mp w)) ;;;
      ret (None, shutdownErr (mp w))
  | _ => blocked
  end.

(* Close closes the session: closeNoWait, then wait for the receive loop
   to finish. *)
Definition Close : go (option error) :=
  closeNoWait ;;;
  let! w := get in
  await (closed (mp w)) ;;;
  ret None.

(* NewStream creates a new stream. *)
Definition NewStream (ctx : Context) : go (option nat * option error) :=
  NewNamedStream ctx [].

(* mp.con.Write(data): [wr] is the transport's answer to this call; a
   write it accepts adds data to what the connection carries. *)
Definition con_Write (wr : option error) (data : list Z) : go (option error) :=
  match wr with
  | None =>
      modify_mp (fun m => set_con (mkConn (conn_out (con m) ++ data)
                                          (conn_closed (con m))) m) ;;;
      ret None
  | Some e => ret (Some e)
  end.

Definition doWriteMsg (wr : option error) (data : list Z) : go (option error) :=
  let! sd := isShutdown in
  if sd then ret (Some ErrShutdown)
  else
    let! err := con_Write wr data in
    match err with
    | Some _ => closeNoWait ;;; ret err
    | None => ret err
    end.

(* One turn of the for loop of handleOutgoing; [wr] answers the Write of
   this turn, if it makes one. Of the select, [CaseSend] is the receive
   from mp.writeCh. *)
Definition handleOutgoing_body (wr : option error) : go control :=
  let! c := next_case in
  let! w := get in
  match c with
  | CaseShutdown => await (shutdown (mp w)) ;;; ret Return
  | CaseSend =>
      let! (o, c') := lift (chan_recv (writeCh (mp w))) in
      modify_mp (set_writeCh c') ;;;
      let data := match o with Some d => d | None => [] end in
      let! err := doWriteMsg wr data in
      putBufferOutbound data ;;;
      match err with
      | Some _ =>
          (* the connection is closed by this time *)
          emit EvLog ;;;
          ret Return
      | None => ret Continue
      end
  | _ => blocked
  end.

(* handleOutgoing, with one answer of the transport per turn. *)
Fixpoint handleOutgoing (wrs : list (option error)) : go unit :=
  match wrs with
  | [] => lift (M:=M) Fuel
  | wr :: wrs' =>
      let! c := handleOutgoing_body wr in
      match c with
      | Continue => handleOutgoing wrs'
      | Return => ret tt
      end
  end.

End MoreOperations.

(** ** More vocabulary *)

(* A frame on the wire: header, length, payload, as sendMsg lays it out. *)
Definition wire_frame (header : Z) (data : list Z) : list Z :=
  Varint.ToUvarint header ++ Varint.ToUvarint (u64 (Z.of_nat (length data))) ++ data.

(* What the receive loop and the stream operations leave alone: the
   connection, the outbound side, the id counter, the shutdown and closed
   signals, the memory account and the package variables. *)
Definition same_outside {M : Type} (w w' : World M) : Prop :=
  con (mp w') = con (mp w)
  /\ writeCh (mp w') = writeCh (mp w)
  /\ bufOut (mp w') = bufOut (mp w)
  /\ nextID (mp w') = nextID (mp w)
  /\ shutdown (mp w') = shutdown (mp w)
  /\ closed (mp w') = closed (mp w)
  /\ memoryManager (mp w') = memoryManager (mp w)
  /\ reservedMemory (mp w') = reservedMemory (mp w)
  /\ bufMax (mp w') = bufMax (mp w)
  /\ MaxMessageSize w' = MaxMessageSize w
  /\ MaxBuffers w' = MaxBuffers w.

(* m never runs out of fuel, and where it returns, R relates the world
   it started in to the world it leaves. *)
Definition keeps {M A : Type} (R : World M -> World M -> Prop) (m : go M A) : Prop :=
  forall w, match m w with
            | Ret (_, w') => R w w'
            | Fuel => False
            | _ => True
            end.

(* The receive side: nothing outside it changes and the reader only
   moves forward. *)
Definition recv_rel {M : Type} (w w' : World M) : Prop :=
  same_outside w w'
  /\ (length (Varint.rd_bytes (buf (mp w'))) <= length (Varint.rd_bytes (buf (mp w))))%nat.

(* No constraint between the two worlds: for code of which only the
   outcome matters. *)
Definition anything {M : Type} (w w' : World M) : Prop := True.

(* st' is st with, possibly, more of its cancel signals raised. *)
Definition cancelled_from (st st' : Stream) : Prop :=
  st_id st' = st_id st /\ st_name st' = st_name st /\ dataIn st' = dataIn st
  /\ rDeadline st' = rDeadline st /\ wDeadline st' = wDeadline st
  /\ (readCancel st = true -> readCancel st' = true)
  /\ (writeCancel st = true -> writeCancel st' = true).

(* What cancelRead and cancelWrite may change: the cancel signals of the
   streams, and the trace. *)
Definition cancel_rel {M : Type} (w w' : World M) : Prop :=
  mp w' = mp w /\ sched w' = sched w
  /\ Forall2 cancelled_from (streams w) (streams w').

(* A session the receive loop can run on: MaxMessageSize is a length,
   the slot channel and the accept queue are open, the map is not nil,
   and every entry of the map names a stream that exists, carries the
   entry's key as its id and has its data channel open. *)
Definition well_formed {M : Type} (w : World M) : Prop :=
  0 <= MaxMessageSize w < 2 ^ 63
  /\ ch_closed (bufIn (mp w)) = false
  /\ ch_closed (nstreams (mp w)) = false
  /\ exists m, channels (mp w) = Some m
       /\ forall ch r, m !! ch = Some r ->
            exists st, streams w !! r = Some st /\ st_id st = ch
                       /\ ch_closed (dataIn st) = false.

(* The two worlds agree on all that well_formed looks at. *)
Definition same_core {M : Type} (w w' : World M) : Prop :=
  MaxMessageSize w' = MaxMessageSize w
  /\ channels (mp w') = channels (mp w)
  /\ streams w' = streams w
  /\ ch_closed (bufIn (mp w')) = ch_closed (bufIn (mp w))
  /\ ch_closed (nstreams (mp w')) = ch_closed (nstreams (mp w)).

(* From a world in P, m neither panics nor runs out of fuel, and where
   it returns a in w', Q a w' holds; it may park. *)
Definition safe {M A : Type} (P : World M -> Prop) (m : go M A)
    (Q : A -> World M -> Prop) : Prop :=
  forall w, P w -> match m w with
                   | Ret (a, w') => Q a w'
                   | Blocked => True
                   | Panic | Fuel => False
                   end.


(** * Properties *)

#[local] Arguments Z.shiftr : simpl never.
#[local] Arguments Z.shiftl : simpl never.
#[local] Arguments Z.land : simpl never.
#[local] Arguments Z.lor : simpl never.
#[local] Arguments Z.pow : simpl never.
#[local] Arguments Z.mul : simpl never.
#[local] Arguments Z.of_nat : simpl never.

(** ** Bit-level facts *)

Section Bits.

Lemma testbit_127 n : 0 <= n -> Z.testbit 127 n = (n <? 7).
Proof.
  intros Hn. change 127 with (Z.ones 7).
  rewrite Z.testbit_ones_nonneg by lia.
  reflexivity.
Qed.

Lemma testbit_255 n : 0 <= n -> Z.testbit 255 n = (n <? 8).
Proof.
  intros Hn. change 255 with (Z.ones 8).
  rewrite Z.testbit_ones_nonneg by lia.
  reflexivity.
Qed.

Lemma testbit_128 n : 0 <= n -> Z.testbit 128 n = (n =? 7).
Proof.
  intros Hn. change 128 with (2 ^ 7).
  rewrite Z.pow2_bits_eqb by lia. apply Z.eqb_sym.
Qed.

Lemma byte_small x : 0 <= x < 256 -> byte x = x.
Proof.
  intros Hx. unfold byte. change 255 with (Z.ones 8).
  rewrite Z.land_ones by lia. apply Z.mod_small. lia.
Qed.

Lemma byte_range x : 0 <= byte x < 256.
Proof.
  unfold byte. change 255 with (Z.ones 8).
  rewrite Z.land_ones by lia. apply Z.mod_pos_bound. lia.
Qed.

(* the continuation byte keeps the low seven bits of x *)
Lemma cont_byte_low7 x : Z.land (Z.lor (byte x) 128) 127 = Z.land x 127.
Proof.
  unfold byte. apply Z.bits_inj'. intros n Hn.
  rewrite !Z.land_spec, Z.lor_spec, Z.land_spec.
  rewrite testbit_127, testbit_255, testbit_128 by lia.
  destruct (Z.ltb_spec n 7), (Z.ltb_spec n 8), (Z.eqb_spec n 7);
    try lia; rewrite ?andb_true_r, ?andb_false_r, ?orb_false_r; reflexivity.
Qed.

Lemma cont_byte_range x : 128 <= Z.lor (byte x) 128 < 256.
Proof.
  pose proof (byte_range x) as Hb.
  assert (Hlo : 0 <= Z.lor (byte x) 128) by (apply Z.lor_nonneg; lia).
  assert (Hbit : Z.testbit (Z.lor (byte x) 128) 7 = true).
  { rewrite Z.lor_spec, testbit_128 by lia. apply orb_true_r. }
  assert (Hpos : 0 < Z.lor (byte x) 128).
  { destruct (Z.eq_dec (Z.lor (byte x) 128) 0) as [Hz|]; [|lia].
    rewrite Hz, Z.bits_0 in Hbit. discriminate. }
  split.
  - destruct (Z.lt_ge_cases (Z.lor (byte x) 128) 128) as [Hlt|]; [|lia].
    exfalso.
    rewrite Z.bits_above_log2 in Hbit; [discriminate|lia|].
    apply (Z.log2_lt_pow2 _ 7); [lia|exact Hlt].
  - change 256 with (2 ^ 8). apply Z.log2_lt_pow2; [lia|].
    rewrite Z.log2_lor by lia.
    apply Z.max_lub_lt; [|reflexivity].
    destruct (Z.eq_dec (byte x) 0) as [->|]; [reflexivity|].
    apply Z.log2_lt_pow2; [lia|]. change (2 ^ 8) with 256. lia.
Qed.

(* x is its low seven bits below the rest *)
Lemma shiftl_split7 x s :
  0 <= s ->
  Z.lor (Z.shiftl (Z.land x 127) s) (Z.shiftl (Z.shiftr x 7) (s + 7)) = Z.shiftl x s.
Proof.
  intros Hs. apply Z.bits_inj'. intros n Hn.
  rewrite Z.lor_spec, !Z.shiftl_spec by lia.
  destruct (Z.lt_ge_cases n s) as [Hlt|Hge].
  - rewrite !Z.testbit_neg_r by lia. reflexivity.
  - rewrite Z.land_spec, testbit_127 by lia.
    destruct (Z.ltb_spec (n - s) 7).
    + rewrite (Z.testbit_neg_r _ (n - (s + 7))) by lia.
      rewrite andb_true_r, orb_false_r. reflexivity.
    + rewrite Z.shiftr_spec by lia.
      rewrite andb_false_r. simpl. f_equal. lia.
Qed.

Lemma shiftl_lt_pow2 b s k : 0 <= s -> 0 <= b < 2 ^ k -> 0 <= k -> 0 <= Z.shiftl b s < 2 ^ (s + k).
Proof.
  intros Hs Hb Hk. rewrite Z.shiftl_mul_pow2 by lia.
  rewrite Z.pow_add_r by lia.
  assert (0 < 2 ^ s) by (apply Z.pow_pos_nonneg; lia).
  nia.
Qed.

Lemma u64_small x : 0 <= x < 2 ^ 64 -> u64 x = x.
Proof. intros Hx. unfold u64. apply Z.mod_small. exact Hx. Qed.

Lemma shiftr7_lt x k : 0 <= x < 2 ^ (k + 7) -> 0 <= k -> 0 <= Z.shiftr x 7 < 2 ^ k.
Proof.
  intros Hx Hk. rewrite Z.shiftr_div_pow2 by lia.
  rewrite Z.pow_add_r in Hx by lia.
  split; [apply Z.div_pos; lia|].
  apply Z.div_lt_upper_bound; lia.
Qed.

End Bits.

(** ** The varint codec *)

Section VarintFacts.

Import Varint.

Lemma length_uvarint_bytes fuel x : (length (uvarint_bytes fuel x) <= fuel)%nat.
Proof.
  revert x. induction fuel as [|fuel IH]; intros x; simpl; [lia|].
  destruct (128 <=? x); simpl; [specialize (IH (Z.shiftr x 7))|]; lia.
Qed.

Lemma length_ToUvarint x : (1 <= length (ToUvarint x) <= 10)%nat.
Proof.
  split; [|apply length_uvarint_bytes].
  unfold ToUvarint. cbn [uvarint_bytes]. destruct (128 <=? x); cbn [length]; lia.
Qed.

Lemma fuel_left fuel x :
  128 <= x < 2 ^ (7 * Z.of_nat (S fuel)) -> fuel <> 0%nat.
Proof.
  intros [Hlo Hhi] ->. change (2 ^ (7 * Z.of_nat 1)) with 128 in Hhi. lia.
Qed.

Lemma shiftr7_fuel fuel x :
  0 <= x < 2 ^ (7 * Z.of_nat (S fuel)) -> 0 <= Z.shiftr x 7 < 2 ^ (7 * Z.of_nat fuel).
Proof.
  intros Hx. apply shiftr7_lt; [|lia].
  replace (7 * Z.of_nat fuel + 7) with (7 * Z.of_nat (S fuel)) by lia. exact Hx.
Qed.

(* PutUvarint writes uvarint_bytes at i and leaves the rest of buf alone. *)
Lemma PutUvarint_loop_bytes fuel : forall (b : list Z) (i : nat) (x : Z),
  0 <= x < 2 ^ (7 * Z.of_nat fuel) -> fuel <> 0%nat ->
  (i + length (uvarint_bytes fuel x) <= length b)%nat ->
  PutUvarint_loop fuel b i x =
    Ret (take i b ++ uvarint_bytes fuel x
           ++ drop (i + length (uvarint_bytes fuel x)) b,
         (i + length (uvarint_bytes fuel x))%nat).
Proof.
  induction fuel as [|fuel IH]; intros b i x Hx Hfuel Hlen; [congruence|].
  simpl in *. destruct (Z.leb_spec 128 x) as [Hge|Hlt]; simpl in *.
  - destruct (decide (i < length b)%nat) as [Hi|Hi]; [|lia].
    rewrite IH.
    + assert (Hl : <[i:=Z.lor (byte x) 128]> b !! i = Some (Z.lor (byte x) 128))
        by (apply list_lookup_insert_eq; lia).
      rewrite (take_S_r _ _ _ Hl), take_insert_ge, drop_insert_lt by lia.
      rewrite <- app_assoc. simpl.
      repeat f_equal; lia.
    + apply shiftr7_fuel. lia.
    + apply (fuel_left fuel x). lia.
    + rewrite length_insert. lia.
  - destruct (decide (i < length b)%nat) as [Hi|Hi]; [|lia].
    rewrite insert_take_drop by lia.
    repeat f_equal; lia.
Qed.

Lemma PutUvarint_bytes (b : list Z) (x : Z) :
  0 <= x < 2 ^ 64 -> (10 <= length b)%nat ->
  PutUvarint b x =
    Ret (ToUvarint x ++ drop (length (ToUvarint x)) b, length (ToUvarint x)).
Proof.
  intros Hx Hlen. unfold PutUvarint.
  pose proof (length_ToUvarint x) as Hl. unfold ToUvarint in *.
  rewrite PutUvarint_loop_bytes.
  - rewrite take_0, !Nat.add_0_l. reflexivity.
  - change (7 * Z.of_nat 10) with 70.
    assert (2 ^ 64 <= 2 ^ 70) by (apply Z.pow_le_mono_r; lia). lia.
  - discriminate.
  - rewrite Nat.add_0_l. lia.
Qed.

(* ReadUvarint undoes uvarint_bytes below 2^63. *)
Lemma ReadUvarint_loop_bytes fuel : forall (s acc x : Z) (rest : list Z) (e : error),
  0 <= s -> 0 <= x < 2 ^ (63 - s) -> x < 2 ^ (7 * Z.of_nat fuel) ->
  fuel <> 0%nat -> (0 < s -> 0 < x) ->
  ReadUvarint_loop fuel s acc
      {| rd_bytes := uvarint_bytes fuel x ++ rest; rd_err := e |} =
    Ret (Z.lor acc (Z.shiftl x s), None, {| rd_bytes := rest; rd_err := e |}).
Proof.
  induction fuel as [|fuel IH]; intros s acc x rest e Hs Hx Hf Hfuel Hmin;
    [congruence|].
  assert (Hs63 : s < 63).
  { destruct (Z.lt_ge_cases s 63); [assumption|].
    assert (2 ^ (63 - s) <= 2 ^ 0) by (apply Z.pow_le_mono_r; lia).
    change (2 ^ 0) with 1 in *. lia. }
  simpl. destruct (Z.leb_spec 128 x) as [Hge|Hlt]; simpl.
  - unfold ReadByte. simpl.
    pose proof (cont_byte_range x) as Hb.
    assert (Hs56 : s < 56).
    { destruct (Z.lt_ge_cases s 56); [assumption|].
      assert (2 ^ (63 - s) <= 2 ^ 7) by (apply Z.pow_le_mono_r; lia).
      change (2 ^ 7) with 128 in *. lia. }
    replace (s =? 56) with false by (symmetry; apply Z.eqb_neq; lia).
    replace (7 * MaxLenUvarint63 <=? s) with false
      by (symmetry; apply Z.leb_gt; unfold MaxLenUvarint63; lia).
    replace (Z.lor (byte x) 128 <? 128) with false by (symmetry; apply Z.ltb_ge; lia).
    simpl. rewrite IH.
    + rewrite cont_byte_low7.
      rewrite u64_small.
      * rewrite <- Z.lor_assoc, shiftl_split7 by lia. reflexivity.
      * assert (Hm : 0 <= Z.land x 127 < 2 ^ 7).
        { change 127 with (Z.ones 7). rewrite Z.land_ones by lia.
          apply Z.mod_pos_bound. lia. }
        pose proof (shiftl_lt_pow2 _ s 7 Hs Hm ltac:(lia)) as Hsh.
        assert (2 ^ (s + 7) <= 2 ^ 64) by (apply Z.pow_le_mono_r; lia). lia.
    + lia.
    + apply shiftr7_lt; [|lia]. replace (63 - (s + 7) + 7) with (63 - s) by lia. lia.
    + apply shiftr7_fuel. lia.
    + apply (fuel_left fuel x). lia.
    + intros _. rewrite Z.shiftr_div_pow2 by lia. change (2 ^ 7) with 128.
      apply Z.div_str_pos. lia.
  - unfold ReadByte. simpl.
    rewrite byte_small by lia.
    replace (128 <=? x) with false by (symmetry; apply Z.leb_gt; lia).
    replace (7 * MaxLenUvarint63 <=? s) with false
      by (symmetry; apply Z.leb_gt; unfold MaxLenUvarint63; lia).
    rewrite andb_false_r. simpl.
    replace (x <? 128) with true by (symmetry; apply Z.ltb_lt; lia).
    replace ((x =? 0) && (0 <? s)) with false.
    + rewrite u64_small; [reflexivity|].
      pose proof (shiftl_lt_pow2 x s (63 - s) Hs Hx ltac:(lia)) as Hsh.
      replace (s + (63 - s)) with 63 in Hsh by lia.
      assert (2 ^ 63 <= 2 ^ 64) by (apply Z.pow_le_mono_r; lia). lia.
    + symmetry. apply andb_false_iff.
      destruct (Z.lt_ge_cases 0 s) as [Hpos|Hz].
      * left. apply Z.eqb_neq. specialize (Hmin Hpos). lia.
      * right. apply Z.ltb_ge. lia.
Qed.

Lemma ReadUvarint_ToUvarint (x : Z) (rest : list Z) (e : error) :
  0 <= x < 2 ^ 63 ->
  ReadUvarint {| rd_bytes := ToUvarint x ++ rest; rd_err := e |} =
    Ret (x, None, {| rd_bytes := rest; rd_err := e |}).
Proof.
  intros Hx. unfold ReadUvarint, ToUvarint.
  rewrite ReadUvarint_loop_bytes; try lia.
  rewrite Z.shiftl_0_r, Z.lor_0_l. reflexivity.
Qed.

End VarintFacts.

(** ** Frame headers *)

Section Headers.

Import Varint.

Lemma lor_lt_pow2 a b k :
  0 <= a < 2 ^ k -> 0 <= b < 2 ^ k -> 0 <= Z.lor a b < 2 ^ k.
Proof.
  intros Ha Hb.
  assert (Hnn : 0 <= Z.lor a b) by (apply Z.lor_nonneg; lia).
  split; [exact Hnn|].
  destruct (Z.le_gt_cases k 0) as [Hk|Hk].
  - assert (2 ^ k <= 2 ^ 0) by (apply Z.pow_le_mono_r; lia).
    change (2 ^ 0) with 1 in *.
    assert (a = 0) as -> by lia. assert (b = 0) as -> by lia.
    change (Z.lor 0 0) with 0. lia.
  - destruct (Z.eq_dec (Z.lor a b) 0) as [->|Hne]; [lia|].
    apply Z.log2_lt_pow2; [lia|].
    rewrite Z.log2_lor by lia.
    apply Z.max_lub_lt.
    + destruct (Z.eq_dec a 0) as [->|]; [exact Hk|apply Z.log2_lt_pow2; lia].
    + destruct (Z.eq_dec b 0) as [->|]; [exact Hk|apply Z.log2_lt_pow2; lia].
Qed.

Lemma land7_range h : 0 <= Z.land h 7 <= 7.
Proof.
  change 7 with (Z.ones 3) at 1 2. rewrite Z.land_ones by lia.
  pose proof (Z.mod_pos_bound h (2 ^ 3) ltac:(lia)). change (2 ^ 3) with 8 in *. lia.
Qed.

Lemma header_of_range sid tag k :
  0 <= sid < 2 ^ k -> 0 <= k <= 61 -> 0 <= tag <= 7 ->
  0 <= header_of sid tag < 2 ^ (3 + k).
Proof.
  intros Hsid Hk Htag. unfold header_of.
  pose proof (shiftl_lt_pow2 sid 3 k ltac:(lia) Hsid ltac:(lia)) as Hsh.
  assert (2 ^ (3 + k) <= 2 ^ 64) by (apply Z.pow_le_mono_r; lia).
  rewrite u64_small by lia.
  apply lor_lt_pow2; [exact Hsh|].
  assert (2 ^ 3 <= 2 ^ (3 + k)) by (apply Z.pow_le_mono_r; lia).
  change (2 ^ 3) with 8 in *. lia.
Qed.

(* ch = h >> 3 and rem = h & 7 take a header apart again, as long as the
   shift of the stream id does not wrap. *)
Lemma header_of_split sid tag :
  0 <= sid < 2 ^ 61 -> 0 <= tag <= 7 ->
  Z.shiftr (header_of sid tag) 3 = sid /\ Z.land (header_of sid tag) 7 = tag.
Proof.
  intros Hsid Htag. unfold header_of.
  pose proof (shiftl_lt_pow2 sid 3 61 ltac:(lia) Hsid ltac:(lia)) as Hsh.
  change (2 ^ (3 + 61)) with (2 ^ 64) in Hsh.
  rewrite u64_small by lia. split.
  - rewrite Z.shiftr_lor, Z.shiftr_shiftl_l by lia.
    change (3 - 3) with 0. rewrite Z.shiftl_0_r.
    rewrite (Z.shiftr_div_pow2 tag) by lia. change (2 ^ 3) with 8.
    rewrite Z.div_small by lia. apply Z.lor_0_r.
  - rewrite Z.land_lor_distr_l.
    change 7 with (Z.ones 3) at 1 2. rewrite !Z.land_ones by lia.
    rewrite Z.shiftl_mul_pow2 by lia. rewrite Z.mod_mul by lia.
    rewrite Z.mod_small by (change (2 ^ 3) with 8; lia). reflexivity.
Qed.

(* The rounding of the tag in handleIncoming, tag by tag. *)
Lemma round_tag_table tag :
  0 <= tag <= 7 ->
  u64 (tag + Z.land tag 1) = nth (Z.to_nat tag) [0; 2; 2; 4; 4; 6; 6; 8] 0
  /\ (Z.land tag 1 =? 0) = Z.even tag.
Proof.
  intros Htag.
  assert (Hc : tag = 0 \/ tag = 1 \/ tag = 2 \/ tag = 3 \/ tag = 4 \/ tag = 5
               \/ tag = 6 \/ tag = 7) by lia.
  repeat (destruct Hc as [->|Hc]; [split; reflexivity|]). subst. split; reflexivity.
Qed.

End Headers.

(** ** sendMsg: the frame fits the buffer *)

Section SendBuffer.

Import Varint.

Lemma on_tail_PutUvarint (pre b : list Z) (x : Z) :
  0 <= x < 2 ^ 64 -> (10 <= length b)%nat ->
  on_tail (length pre) (pre ++ b) (fun s => PutUvarint s x) =
    Ret (pre ++ ToUvarint x ++ drop (length (ToUvarint x)) b, length (ToUvarint x)).
Proof.
  intros Hx Hlen. unfold on_tail.
  destruct (decide (length pre <= length (pre ++ b))%nat) as [_|Hn];
    [|rewrite length_app in Hn; lia].
  rewrite drop_app_length, take_app_length, PutUvarint_bytes by assumption.
  reflexivity.
Qed.

Lemma on_tail_copy (pre b data : list Z) :
  (length data <= length b)%nat ->
  on_tail (length pre) (pre ++ b) (fun s => Ret (copy s data)) =
    Ret (pre ++ data ++ drop (length data) b, length data).
Proof.
  intros Hlen. unfold on_tail.
  destruct (decide (length pre <= length (pre ++ b))%nat) as [_|Hn];
    [|rewrite length_app in Hn; lia].
  rewrite drop_app_length, take_app_length. unfold copy. cbn [run_bind].
  rewrite Nat.min_r by lia. rewrite firstn_all. reflexivity.
Qed.

Lemma u64_range x : 0 <= u64 x < 2 ^ 64.
Proof. unfold u64. apply Z.mod_pos_bound. lia. Qed.

Lemma sendMsg_fill_frame (b : list Z) (header : Z) (data : list Z) :
  0 <= header < 2 ^ 64 -> (length data + 20 <= length b)%nat ->
  let frame := ToUvarint header ++ ToUvarint (u64 (Z.of_nat (length data))) ++ data in
  sendMsg_fill b header data = Ret (frame ++ drop (length frame) b, length frame).
Proof.
  intros Hh Hlen frame. unfold sendMsg_fill.
  pose proof (length_ToUvarint header) as Hl1.
  pose proof (length_ToUvarint (u64 (Z.of_nat (length data)))) as Hl2.
  pose proof (u64_range (Z.of_nat (length data))) as Hu.
  change 0%nat with (length (@nil Z)) at 1.
  change b with ([] ++ b) at 1.
  rewrite on_tail_PutUvarint by (assumption || lia). cbn [run_bind app length Nat.add].
  rewrite on_tail_PutUvarint by (rewrite ?length_drop; assumption || lia).
  cbn [run_bind].
  rewrite app_assoc.
  replace (length (ToUvarint header) + length (ToUvarint (u64 (Z.of_nat (length data)))))%nat
    with (length (ToUvarint header ++ ToUvarint (u64 (Z.of_nat (length data)))))
    by (rewrite length_app; reflexivity).
  rewrite on_tail_copy by (rewrite !length_drop; lia).
  cbn [run_bind]. subst frame.
  rewrite !drop_drop, <- !app_assoc, !length_app, Nat.add_assoc.
  reflexivity.
Qed.

End SendBuffer.

(** ** Running session code *)

Section Running.

Context {M : Type} `{MemoryManager M}.

Implicit Types (w : World M).

Lemma bind_Ret {A B} (m : go M A) (k : A -> go M B) w a w' :
  m w = Ret (a, w') -> bind m k w = k a w'.
Proof. intros Hm. unfold bind. rewrite Hm. reflexivity. Qed.

Lemma buf_ReadUvarint_ret w x err r' :
  Varint.ReadUvarint (buf (mp w)) = Ret (x, err, r') ->
  buf_ReadUvarint w = Ret ((x, err), consumed r' w).
Proof.
  intros Hr. unfold buf_ReadUvarint, bind, get, lift. rewrite Hr. reflexivity.
Qed.

Lemma readNextHeader_ret w h r' :
  Varint.ReadUvarint (buf (mp w)) = Ret (h, None, r') ->
  readNextHeader w = Ret ((Z.shiftr h 3, Z.land h 7, None), consumed r' w).
Proof.
  intros Hr. unfold readNextHeader.
  rewrite (bind_Ret _ _ _ _ _ (buf_ReadUvarint_ret _ _ _ _ Hr)). reflexivity.
Qed.

(* a header that readNextHeader returns has its tag in 0..7 *)
Lemma readNextHeader_tag w chID tag w1 :
  readNextHeader w = Ret ((chID, tag, None), w1) -> 0 <= tag <= 7.
Proof.
  unfold readNextHeader, bind, buf_ReadUvarint, bind, get, lift.
  destruct (Varint.ReadUvarint (buf (mp w))) as [[[h err] r']| | |]; try discriminate.
  cbn. destruct err; cbn; intros Heq; inversion Heq; subst.
  apply land7_range.
Qed.

Lemma consumed_app w pre rest e :
  buf (mp w) = {| Varint.rd_bytes := pre ++ rest; Varint.rd_err := e |} ->
  consumed {| Varint.rd_bytes := rest; Varint.rd_err := e |} w =
    with_trace (fun t => t ++ [EvRead pre])
      (with_mp (set_buf {| Varint.rd_bytes := rest; Varint.rd_err := e |}) w).
Proof.
  intros Hb. unfold consumed. rewrite Hb. cbn [Varint.rd_bytes].
  rewrite length_app, Nat.add_sub, take_app_length. reflexivity.
Qed.

End Running.

Example session0_is_NewMultiplex incoming sch :
  NewMultiplex (2 ^ 20) 4 sch (mkConn [] false)
    {| Varint.rd_bytes := incoming; Varint.rd_err := io_EOF |} false None
  = (Some (session0 incoming sch), None, trace (session0 incoming sch)).
Proof. reflexivity. Qed.

Section Codec.

Context {M : Type} `{MemoryManager M}.

Implicit Types (w : World M).

(** C4 (amended): for every stream id below 2^60 and every tag in 0..7,
    the header (stream_id << 3) | tag written as a varint by PutUvarint is
    read back by readNextHeader as the same pair (stream_id, tag). *)
Theorem header_roundtrip_below_2_60 w sid tag :
  0 <= sid < 2 ^ 60 -> 0 <= tag <= 7 -> header_roundtrip w sid tag.
Proof.
  intros Hsid Htag. unfold header_roundtrip.
  pose proof (header_of_range sid tag 60 Hsid ltac:(lia) Htag) as Hh.
  change (2 ^ (3 + 60)) with (2 ^ 63) in Hh.
  assert (Hh64 : 0 <= header_of sid tag < 2 ^ 64).
  { assert (2 ^ 63 <= 2 ^ 64) by (apply Z.pow_le_mono_r; lia). lia. }
  pose proof (length_ToUvarint (header_of sid tag)) as Hl.
  eexists _, _, _. split.
  { apply PutUvarint_bytes; [exact Hh64|reflexivity]. }
  rewrite take_app_length.
  destruct (header_of_split sid tag) as [Hch Hrem]; [|exact Htag|].
  { assert (2 ^ 60 <= 2 ^ 61) by (apply Z.pow_le_mono_r; lia). lia. }
  split.
  - rewrite (readNextHeader_ret _ (header_of sid tag) (buf (mp w))).
    + rewrite Hch, Hrem. reflexivity.
    + cbn. destruct (buf (mp w)) as [bytes e]. cbn.
      apply ReadUvarint_ToUvarint. exact Hh.
  - reflexivity.
Qed.

End Codec.

Lemma header_roundtrip_below_2_60_witness :
  header_roundtrip (session0 [1; 2; 3] []) 5 2.
Proof. apply header_roundtrip_below_2_60; lia. Defined.

(** C4 as stated fails: at stream id 2^61 the shift wraps in uint64, the
    header is 0 and reads back as stream 0. *)
Lemma header_roundtrip_fails_at_2_61 :
  ~ header_roundtrip (session0 [] []) (2 ^ 61) 0.
Proof.
  intros (b & n & w' & Hput & Hread & _).
  vm_compute in Hput. inversion Hput; subst b n; clear Hput.
  vm_compute in Hread. discriminate Hread.
Qed.

(* The bound 2^60 is sharp: at 2^60 the varint has ten bytes and
   ReadUvarint answers ErrOverflow. *)
Lemma header_roundtrip_fails_at_2_60 :
  ~ header_roundtrip (session0 [] []) (2 ^ 60) 0.
Proof.
  intros (b & n & w' & Hput & Hread & _).
  vm_compute in Hput. inversion Hput; subst b n; clear Hput.
  vm_compute in Hread. discriminate Hread.
Qed.

Section ReceiveLoopHeader.

Context {M : Type} `{MemoryManager M}.

Implicit Types (w : World M).

(* From the header to the switch: the key and the rounded tag. *)
Lemma handleIncoming_body_dispatch w chID tag w1 b w2 :
  readNextHeader w = Ret ((chID, tag, None), w1) ->
  readNext w1 = Ret ((b, None), w2) ->
  let remoteIsInitiator := Z.land tag 1 =? 0 in
  let ch := mkStreamID chID (negb remoteIsInitiator) in
  handleIncoming_body w =
    handleIncoming_dispatch ch (tag + Z.land tag 1) b
      (match channels (mp w2) with Some m => m !! ch | None => None end) w2
  /\ tag + Z.land tag 1 = nth (Z.to_nat tag) [0; 2; 2; 4; 4; 6; 6; 8] 0
  /\ 0 <= tag <= 7.
Proof.
  intros Hh Hn remoteIsInitiator ch.
  pose proof (readNextHeader_tag _ _ _ _ Hh) as Htag.
  destruct (round_tag_table tag Htag) as [Hround _].
  assert (Hsmall : u64 (tag + Z.land tag 1) = tag + Z.land tag 1).
  { apply u64_small. pose proof (land7_range tag).
    assert (0 <= Z.land tag 1 <= 1).
    { change 1 with (Z.ones 1) at 1 2. rewrite Z.land_ones by lia.
      pose proof (Z.mod_pos_bound tag (2 ^ 1) ltac:(lia)).
      change (2 ^ 1) with 2 in *. lia. }
    lia. }
  split; [|split; [congruence|exact Htag]].
  unfold handleIncoming_body.
  rewrite (bind_Ret _ _ _ _ _ Hh). cbn beta iota zeta.
  rewrite (bind_Ret _ _ _ _ _ Hn). cbn beta iota zeta.
  rewrite Hsmall. reflexivity.
Qed.

(** C7: for every decoded header the receive loop takes remoteIsInitiator
    to be (tag & 1) == 0, looks the stream up under
    (chID, !remoteIsInitiator) and switches on tag + (tag & 1), which sends
    the tags 0..7 to 0, 2, 2, 4, 4, 6, 6, 8. *)
Theorem handleIncoming_key_and_tag w chID tag w1 b w2 :
  readNextHeader w = Ret ((chID, tag, None), w1) ->
  readNext w1 = Ret ((b, None), w2) ->
  let remoteIsInitiator := Z.land tag 1 =? 0 in
  let ch := mkStreamID chID (negb remoteIsInitiator) in
  handleIncoming_body w =
    handleIncoming_dispatch ch (tag + Z.land tag 1) b
      (match channels (mp w2) with Some m => m !! ch | None => None end) w2
  /\ remoteIsInitiator = Z.even tag
  /\ tag + Z.land tag 1 = nth (Z.to_nat tag) [0; 2; 2; 4; 4; 6; 6; 8] 0
  /\ 0 <= tag <= 7.
Proof.
  intros Hh Hn remoteIsInitiator ch.
  destruct (handleIncoming_body_dispatch w chID tag w1 b w2 Hh Hn) as (Hb & Ht & Hr).
  destruct (round_tag_table tag Hr) as [_ Heven].
  repeat split; try assumption; lia.
Qed.

End ReceiveLoopHeader.

Lemma handleIncoming_key_and_tag_witness :
  exists w',
    handleIncoming_body (session0 [3; 0] []) =
      handleIncoming_dispatch (mkStreamID 0 true) 4 [] None w'
    /\ 3 + Z.land 3 1 = 4.
Proof.
  eexists.
  destruct (handleIncoming_key_and_tag (session0 [3; 0] []) 0 3 _ [] _
              eq_refl eq_refl) as (Hb & _ & Ht & _).
  split; [exact Hb|exact Ht].
Defined.

(** ** Stream operations and cleanup *)

Section StreamOps.

Context {M : Type} `{MemoryManager M}.

Implicit Types (w : World M) (st : Stream).

Lemma stream_get_ret w r st :
  streams w !! r = Some st -> stream_get r w = Ret (st, w).
Proof. intros Hs. unfold stream_get. rewrite Hs. reflexivity. Qed.

Lemma stream_update_ret w r st f :
  streams w !! r = Some st ->
  stream_update r f w = Ret (tt, with_streams (fun l => <[r := f st]> l) w).
Proof.
  intros Hs. unfold stream_update.
  rewrite (bind_Ret _ _ _ _ _ (stream_get_ret _ _ _ Hs)). reflexivity.
Qed.

Lemma with_streams_id w r st :
  streams w !! r = Some st -> with_streams (fun l => <[r := st]> l) w = w.
Proof.
  intros Hs. destruct w as [a b c l d e]. unfold with_streams. cbn in *.
  rewrite list_insert_id by exact Hs. reflexivity.
Qed.

Lemma Stream_cancelRead_ret w r st e :
  streams w !! r = Some st ->
  Stream_cancelRead r e w =
    Ret (tt, with_streams (fun l => <[r := cancelRead_st e st]> l)
               (with_trace (fun t => t ++ [EvCancelRead (st_id st)]) w)).
Proof.
  intros Hs. unfold Stream_cancelRead.
  rewrite (bind_Ret _ _ _ _ _ (stream_get_ret _ _ _ Hs)).
  unfold emit, modify, bind. unfold cancelRead_st.
  destruct (readCancel st).
  - unfold ret. rewrite with_streams_id by exact Hs. reflexivity.
  - rewrite (stream_update_ret _ r st) by exact Hs. reflexivity.
Qed.

Lemma Stream_cancelWrite_ret w r st e :
  streams w !! r = Some st ->
  Stream_cancelWrite r e w =
    Ret (tt, with_streams (fun l => <[r := cancelWrite_st e st]> l)
               (with_trace (fun t => t ++ [EvCancelWrite (st_id st)]) w)).
Proof.
  intros Hs. unfold Stream_cancelWrite.
  rewrite (bind_Ret _ _ _ _ _ (stream_get_ret _ _ _ Hs)).
  unfold emit, modify, bind. unfold cancelWrite_st.
  destruct (writeCancel st).
  - unfold ret. rewrite with_streams_id by exact Hs. reflexivity.
  - rewrite (stream_update_ret _ r st) by exact Hs. reflexivity.
Qed.





End StreamOps.

Section Cleanup.

Context {M : Type} `{MemoryManager M}.

Implicit Types (w : World M).

Lemma closeNoWait_ret w :
  exists w1, closeNoWait w = Ret (tt, w1)
    /\ shutdown (mp w1) = true
    /\ closed (mp w1) = closed (mp w)
    /\ channels (mp w1) = channels (mp w)
    /\ shutdownErr (mp w1) = shutdownErr (mp w)
    /\ streams w1 = streams w.
Proof.
  unfold closeNoWait, bind, get.
  destruct (shutdown (mp w)) eqn:Hsd.
  - exists w. repeat split; auto.
  - eexists. split; [reflexivity|]. repeat split.
Qed.

Lemma cancel_all_ret (l : list (streamID * nat)) : forall w,
  (forall ch r, In (ch, r) l -> (r < length (streams w))%nat) ->
  exists w', cancel_all l w = Ret (tt, w')
    /\ mp w' = mp w
    /\ length (streams w') = length (streams w).
Proof.
  induction l as [|[ch r] l IH]; intros w Hval.
  - exists w. repeat split.
  - destruct (lookup_lt_is_Some_2 (streams w) r) as [st Hs];
      [apply (Hval ch); left; reflexivity|].
    cbn [cancel_all].
    rewrite (bind_Ret _ _ _ _ _ (Stream_cancelRead_ret w r st ErrStreamReset Hs)).
    set (w1 := with_streams _ _).
    assert (Hlen1 : length (streams w1) = length (streams w))
      by (subst w1; cbn; apply length_insert).
    assert (Hs1 : streams w1 !! r = Some (cancelRead_st ErrStreamReset st)).
    { subst w1. cbn. apply list_lookup_insert_eq. eapply lookup_lt_Some. exact Hs. }
    rewrite (bind_Ret _ _ _ _ _ (Stream_cancelWrite_ret w1 r _ ErrStreamReset Hs1)).
    set (w2 := with_streams _ _).
    assert (Hlen2 : length (streams w2) = length (streams w))
      by (subst w2; cbn; rewrite length_insert; exact Hlen1).
    destruct (IH w2) as (w' & Hrun & Hmp & Hlen).
    { intros ch' r' Hin. rewrite Hlen2. apply (Hval ch'). right. exact Hin. }
    exists w'. split; [exact Hrun|]. split; [rewrite Hmp; reflexivity|].
    rewrite Hlen. exact Hlen2.
Qed.

(* cleanup returns: the session is shut down and closed, the map is
   taken, and the cause recorded by the loop, if any, is kept. *)
Lemma cleanup_ret w :
  session_ok w ->
  exists w', cleanup w = Ret (tt, w')
    /\ closed (mp w') = true
    /\ shutdown (mp w') = true
    /\ channels (mp w') = None
    /\ shutdownErr (mp w') = Some (shutdown_cause w).
Proof.
  intros [Hclosed Hval]. unfold cleanup.
  destruct (closeNoWait_ret w) as (w1 & Hrun1 & Hsd & Hcl & Hch & Herr & Hst).
  rewrite (bind_Ret _ _ _ _ _ Hrun1).
  unfold get at 1. unfold bind at 1.
  unfold modify_mp at 1. unfold modify, bind at 1.
  set (w2 := with_mp (set_channels None) w1).
  destruct (cancel_all_ret
              (match channels (mp w1) with Some m => map_to_list m | None => [] end) w2)
    as (w3 & Hrun3 & Hmp3 & Hlen3).
  { intros ch r Hin. rewrite Hch in Hin.
    destruct (channels (mp w)) as [m|] eqn:Hm; [|destruct Hin].
    apply list_elem_of_In, elem_of_map_to_list in Hin.
    change (streams w2) with (streams w1). rewrite Hst.
    apply lookup_lt_is_Some. eapply Hval; [reflexivity|exact Hin]. }
  rewrite (bind_Ret _ _ _ _ _ Hrun3).
  unfold get at 1. unfold bind at 1.
  assert (Hcl3 : closed (mp w3) = false) by (rewrite Hmp3; cbn; congruence).
  assert (Herr3 : shutdownErr (mp w3) = shutdownErr (mp w)) by (rewrite Hmp3; exact Herr).
  unfold shutdown_cause.
  destruct (shutdownErr (mp w)) as [e|] eqn:He; rewrite Herr3.
  - unfold ret at 1. unfold bind at 1. unfold get at 1. unfold bind at 1.
    rewrite Hcl3. eexists. split; [reflexivity|].
    cbn. rewrite Hmp3. cbn. rewrite Hsd. repeat split. exact Herr.
  - unfold modify_mp at 1. unfold modify, bind at 1. unfold get at 1. unfold bind at 1.
    cbn [mp with_mp closed set_shutdownErr]. rewrite Hcl3.
    eexists. split; [reflexivity|].
    cbn. rewrite Hmp3. cbn. rewrite Hsd. repeat split.
Qed.

Lemma handleIncoming_loop_Return fuel w w' :
  handleIncoming_body w = Ret (Return, w') ->
  handleIncoming_loop (S fuel) w = Ret (tt, w').
Proof.
  intros Hb. cbn [handleIncoming_loop]. rewrite (bind_Ret _ _ _ _ _ Hb). reflexivity.
Qed.


Lemma handleIncoming_Return fuel w w' :
  handleIncoming_body w = Ret (Return, w') ->
  handleIncoming (S fuel) w = cleanup w'.
Proof.
  intros Hb. unfold handleIncoming.
  rewrite (bind_Ret _ _ _ _ _ (handleIncoming_loop_Return fuel _ _ Hb)). reflexivity.
Qed.

End Cleanup.

Lemma session_okb_ok {M : Type} (w : World M) :
  session_okb w = true -> session_ok w.
Proof.
  unfold session_okb, session_ok. intros Hb.
  apply andb_true_iff in Hb as [Hc Hf]. split.
  - destruct (closed (mp w)); [discriminate|reflexivity].
  - intros m ch r Hm Hl. rewrite Hm in Hf.
    rewrite forallb_forall in Hf.
    apply lookup_lt_is_Some.
    assert (Hin : In (ch, r) (map_to_list m))
      by (apply list_elem_of_In, elem_of_map_to_list; exact Hl).
    specialize (Hf (ch, r) Hin). cbn in Hf.
    apply bool_decide_eq_true in Hf. exact Hf.
Qed.

Lemma int64_small x : 0 <= x < 2 ^ 63 -> int64 x = x.
Proof.
  intros Hx. unfold int64.
  rewrite Z.mod_small; [lia|].
  change (2 ^ 64) with (2 ^ 63 + 2 ^ 63). lia.
Qed.

(** ** Reading a frame *)

Section ReadFrame.

Context {M : Type} `{MemoryManager M}.

Implicit Types (w : World M).

Lemma getBufferInbound_ret w sch' len :
  sched w = CaseSend :: sch' ->
  ch_closed (bufIn (mp w)) = false ->
  (length (ch_queue (bufIn (mp w))) < ch_cap (bufIn (mp w)))%nat ->
  0 <= len ->
  getBufferInbound len w =
    Ret ((repeat 0 (Z.to_nat len), None),
         with_trace (fun t => t ++ [EvGetBufferInbound])
           (with_mp (set_bufIn (mkChan (ch_queue (bufIn (mp w)) ++ [tt])
                                       (ch_cap (bufIn (mp w))) false))
              (with_sched sch' w))).
Proof.
  intros Hs Hc Hroom Hlen.
  unfold getBufferInbound, next_case, bind at 1. rewrite Hs.
  unfold get at 1. unfold bind at 1. cbn [mp with_sched].
  unfold chan_send. rewrite Hc.
  destruct (decide _) as [_|Hn]; [|lia].
  unfold lift at 1. unfold bind at 1.
  unfold modify_mp, emit, modify, bind at 1. unfold bind at 1.
  unfold getBuffer, pool_Get.
  replace (len <? 0) with false by (symmetry; apply Z.ltb_ge; lia).
  reflexivity.
Qed.

(* A frame longer than MaxMessageSize: readNext reports it, whatever
   follows on the wire. *)
Lemma readNext_too_large w l r' :
  Varint.ReadUvarint (buf (mp w)) = Ret (l, None, r') ->
  u64 (MaxMessageSize w) < l ->
  readNext w = Ret (([], Some ErrMessageTooLarge), consumed r' w).
Proof.
  intros Hr Hl. unfold readNext.
  rewrite (bind_Ret _ _ _ _ _ (buf_ReadUvarint_ret _ _ _ _ Hr)).
  cbn beta iota. unfold get at 1. unfold bind at 1.
  change (MaxMessageSize (consumed r' w)) with (MaxMessageSize w).
  replace (u64 (MaxMessageSize w) <? l) with true by (symmetry; apply Z.ltb_lt; lia).
  reflexivity.
Qed.

(* A zero length: readNext returns nil without taking a slot. *)
Lemma readNext_empty w r' :
  Varint.ReadUvarint (buf (mp w)) = Ret (0, None, r') ->
  readNext w = Ret (([], None), consumed r' w).
Proof.
  intros Hr. unfold readNext.
  rewrite (bind_Ret _ _ _ _ _ (buf_ReadUvarint_ret _ _ _ _ Hr)).
  cbn beta iota. unfold get at 1. unfold bind at 1.
  replace (u64 (MaxMessageSize (consumed r' w)) <? 0) with false.
  - reflexivity.
  - symmetry. apply Z.ltb_ge. apply u64_range.
Qed.

(* A frame within the limit whose payload is on the wire: readNext takes
   a slot and returns the payload. *)
Lemma readNext_payload w l r' sch' payload rest :
  Varint.ReadUvarint (buf (mp w)) = Ret (l, None, r') ->
  0 < l <= u64 (MaxMessageSize w) -> l < 2 ^ 63 ->
  sched w = CaseSend :: sch' ->
  ch_closed (bufIn (mp w)) = false ->
  (length (ch_queue (bufIn (mp w))) < ch_cap (bufIn (mp w)))%nat ->
  Varint.rd_bytes r' = payload ++ rest ->
  Z.of_nat (length payload) = l ->
  readNext w =
    Ret ((payload, None),
         with_trace (fun t => t ++ [EvRead payload])
           (with_mp (set_buf {| Varint.rd_bytes := rest;
                                Varint.rd_err := Varint.rd_err r' |})
              (with_trace (fun t => t ++ [EvGetBufferInbound])
                 (with_mp (set_bufIn (mkChan (ch_queue (bufIn (mp w)) ++ [tt])
                                             (ch_cap (bufIn (mp w))) false))
                    (with_sched sch' (consumed r' w)))))).
Proof.
  intros Hr Hl Hl63 Hs Hc Hroom Hbytes Hlen. unfold readNext.
  rewrite (bind_Ret _ _ _ _ _ (buf_ReadUvarint_ret _ _ _ _ Hr)).
  cbn beta iota. unfold get at 1. unfold bind at 1.
  change (MaxMessageSize (consumed r' w)) with (MaxMessageSize w).
  replace (u64 (MaxMessageSize w) <? l) with false by (symmetry; apply Z.ltb_ge; lia).
  replace (l =? 0) with false by (symmetry; apply Z.eqb_neq; lia).
  rewrite (bind_Ret _ _ _ _ _
             (getBufferInbound_ret (consumed r' w) sch' (int64 l) Hs Hc Hroom
                ltac:(rewrite int64_small; lia))).
  cbn beta iota. unfold get at 1. unfold bind at 1.
  rewrite int64_small by lia.
  cbn [mp with_trace with_mp with_sched consumed buf set_bufIn set_buf].
  unfold io_ReadFull. rewrite Hbytes, repeat_length, <- Hlen, Nat2Z.id.
  rewrite take_app_length, drop_app_length.
  destruct (decide (length payload = length payload)) as [_|Hn]; [|congruence].
  unfold modify_mp, emit, modify, bind, ret.
  rewrite firstn_all. reflexivity.
Qed.

End ReadFrame.

Section ReceiveLoopErrors.

Context {M : Type} `{MemoryManager M}.

Implicit Types (w : World M).

(* An error of readNext ends the loop with that error as the cause. *)
Lemma handleIncoming_body_readNext_error w chID tag w1 e w2 :
  readNextHeader w = Ret ((chID, tag, None), w1) ->
  readNext w1 = Ret (([], Some e), w2) ->
  handleIncoming_body w = Ret (Return, with_mp (set_shutdownErr (Some e)) w2).
Proof.
  intros Hh Hn. unfold handleIncoming_body.
  rewrite (bind_Ret _ _ _ _ _ Hh). cbn beta iota zeta.
  rewrite (bind_Ret _ _ _ _ _ Hn). reflexivity.
Qed.

(* Once the loop returned with a cause, handleIncoming ends with the
   session closed and that cause kept. *)
Lemma handleIncoming_fatal fuel w w1 e :
  handleIncoming_body w = Ret (Return, w1) ->
  shutdownErr (mp w1) = Some e ->
  session_ok w1 ->
  exists w', handleIncoming (S fuel) w = Ret (tt, w')
    /\ shutdownErr (mp w') = Some e
    /\ closed (mp w') = true
    /\ shutdown (mp w') = true
    /\ channels (mp w') = None.
Proof.
  intros Hb He Hok.
  rewrite (handleIncoming_Return fuel _ _ Hb).
  destruct (cleanup_ret w1 Hok) as (w' & Hrun & Hcl & Hsd & Hch & Herr).
  exists w'. unfold shutdown_cause in Herr. rewrite He in Herr. auto.
Qed.

(** C2: a frame whose declared length equals MaxMessageSize is accepted:
    readNext returns its payload; a frame whose declared length is
    greater makes readNext return an error, which the receive loop
    records as the shutdown cause before it exits, and the session is
    closed. *)
Theorem frame_length_limit w chID tag w1 l r' :
  readNextHeader w = Ret ((chID, tag, None), w1) ->
  Varint.ReadUvarint (buf (mp w1)) = Ret (l, None, r') ->
  0 < MaxMessageSize w1 < 2 ^ 63 ->
  (l = MaxMessageSize w1 ->
   forall sch' payload rest,
     sched w1 = CaseSend :: sch' ->
     ch_closed (bufIn (mp w1)) = false ->
     (length (ch_queue (bufIn (mp w1))) < ch_cap (bufIn (mp w1)))%nat ->
     Varint.rd_bytes r' = payload ++ rest ->
     Z.of_nat (length payload) = l ->
     exists w2,
       readNext w1 = Ret ((payload, None), w2)
       /\ shutdownErr (mp w2) = shutdownErr (mp w1)
       /\ handleIncoming_body w =
            handleIncoming_dispatch (mkStreamID chID (negb (Z.land tag 1 =? 0)))
              (tag + Z.land tag 1) payload
              (match channels (mp w2) with
               | Some m => m !! mkStreamID chID (negb (Z.land tag 1 =? 0))
               | None => None
               end) w2)
  /\
  (MaxMessageSize w1 < l ->
   session_ok w1 ->
   readNext w1 = Ret (([], Some ErrMessageTooLarge), consumed r' w1)
   /\ handleIncoming_body w =
        Ret (Return, with_mp (set_shutdownErr (Some ErrMessageTooLarge)) (consumed r' w1))
   /\ forall fuel, exists w',
        handleIncoming (S fuel) w = Ret (tt, w')
        /\ shutdownErr (mp w') = Some ErrMessageTooLarge
        /\ closed (mp w') = true
        /\ shutdown (mp w') = true).
Proof.
  intros Hh Hr Hmms.
  assert (Hu : u64 (MaxMessageSize w1) = MaxMessageSize w1).
  { apply u64_small. assert (2 ^ 63 <= 2 ^ 64) by (apply Z.pow_le_mono_r; lia). lia. }
  split.
  - intros Hl sch' payload rest Hs Hc Hroom Hbytes Hlen.
    pose proof (readNext_payload w1 l r' sch' payload rest Hr
                  ltac:(rewrite Hu; lia) ltac:(lia) Hs Hc Hroom Hbytes Hlen) as Hread.
    eexists. split; [exact Hread|]. split; [reflexivity|].
    destruct (handleIncoming_body_dispatch w chID tag w1 payload _ Hh Hread)
      as (Hbody & _ & _).
    exact Hbody.
  - intros Hl Hok.
    assert (Hn : readNext w1 = Ret (([], Some ErrMessageTooLarge), consumed r' w1))
      by (apply (readNext_too_large w1 l r' Hr); rewrite Hu; exact Hl).
    assert (Hb : handleIncoming_body w =
                   Ret (Return, with_mp (set_shutdownErr (Some ErrMessageTooLarge))
                                  (consumed r' w1)))
      by (apply (handleIncoming_body_readNext_error w chID tag w1 _ _ Hh Hn)).
    split; [exact Hn|]. split; [exact Hb|].
    intros fuel.
    destruct (handleIncoming_fatal fuel w _ ErrMessageTooLarge Hb eq_refl)
      as (w' & Hrun & He & Hcl & Hsd & _); [exact Hok|].
    exists w'. auto.
Qed.

(** C8: a NewStream frame for a stream id that is already in the session
    map makes the receive loop set the shutdown cause to ErrInvalidState
    and return, with no stream created or replaced; the deferred cleanup
    then closes the session with that cause. *)
Theorem newStream_for_live_stream w chID w1 b w2 m s :
  readNextHeader w = Ret ((chID, newStreamTag, None), w1) ->
  readNext w1 = Ret ((b, None), w2) ->
  channels (mp w2) = Some m ->
  m !! mkStreamID chID false = Some s ->
  session_ok w2 ->
  let w3 := with_mp (set_shutdownErr (Some ErrInvalidState))
              (with_trace (fun t => t ++ [EvLog]) w2) in
  handleIncoming_body w = Ret (Return, w3)
  /\ channels (mp w3) = Some m
  /\ streams w3 = streams w2
  /\ forall fuel, exists w',
       handleIncoming (S fuel) w = Ret (tt, w')
       /\ shutdownErr (mp w') = Some ErrInvalidState
       /\ closed (mp w') = true
       /\ shutdown (mp w') = true
       /\ channels (mp w') = None.
Proof.
  intros Hh Hn Hm Hlook Hok w3.
  assert (Hb : handleIncoming_body w = Ret (Return, w3)).
  { destruct (handleIncoming_body_dispatch w chID newStreamTag w1 b w2 Hh Hn)
      as (Hbody & _ & _).
    rewrite Hbody, Hm. change (negb (Z.land newStreamTag 1 =? 0)) with false.
    rewrite Hlook. reflexivity. }
  split; [exact Hb|]. split; [exact Hm|]. split; [reflexivity|].
  intros fuel.
  apply (handleIncoming_fatal fuel w w3 ErrInvalidState Hb eq_refl).
  exact Hok.
Qed.

End ReceiveLoopErrors.

(* [t = v] for the value v of a closed term t *)
Ltac eval_as t H :=
  let v := eval vm_compute in t in
  assert (H : t = v) by (vm_compute; reflexivity).

Lemma frame_length_limit_witness :
  (exists w2,
     readNext (consumed {| Varint.rd_bytes := [4; 1; 2; 3; 4; 9]; Varint.rd_err := io_EOF |}
                 (with_MaxMessageSize 4 (session0 [2; 4; 1; 2; 3; 4; 9] [CaseSend])))
     = Ret (([1; 2; 3; 4], None), w2))
  /\
  (exists w',
     handleIncoming 1 (with_MaxMessageSize 4 (session0 [2; 5; 1; 2; 3; 4; 9] [CaseSend]))
     = Ret (tt, w')
     /\ shutdownErr (mp w') = Some ErrMessageTooLarge
     /\ closed (mp w') = true).
Proof.
  split.
  - destruct (frame_length_limit
                (with_MaxMessageSize 4 (session0 [2; 4; 1; 2; 3; 4; 9] [CaseSend]))
                0 2 _ 4 _ eq_refl eq_refl ltac:(cbn; lia)) as [Hacc _].
    destruct (Hacc eq_refl [] [1; 2; 3; 4] [9] eq_refl eq_refl ltac:(cbn; lia)
                eq_refl eq_refl) as (w2 & Hr & _).
    exists w2. exact Hr.
  - destruct (frame_length_limit
                (with_MaxMessageSize 4 (session0 [2; 5; 1; 2; 3; 4; 9] [CaseSend]))
                0 2 _ 5 _ eq_refl eq_refl ltac:(cbn; lia)) as [_ Hrej].
    destruct (Hrej ltac:(cbn; lia) ltac:(apply session_okb_ok; vm_compute; reflexivity))
      as (_ & _ & Hfin).
    destruct (Hfin 0%nat) as (w' & Hrun & He & Hcl & _).
    exists w'. auto.
Defined.

Lemma newStream_for_live_stream_witness :
  exists w',
    handleIncoming 1 (session_live [0; 1; 115] [CaseSend]) = Ret (tt, w')
    /\ shutdownErr (mp w') = Some ErrInvalidState
    /\ closed (mp w') = true.
Proof.
  eval_as (readNextHeader (session_live [0; 1; 115] [CaseSend])) H1.
  match type of H1 with _ = Ret (_, ?w1) => eval_as (readNext w1) H2 end.
  destruct (newStream_for_live_stream _ _ _ _ _
              {[ mkStreamID 0 false := 0%nat ]} 0%nat H1 H2)
    as (_ & _ & _ & Hfin).
  - vm_compute. reflexivity.
  - vm_compute. reflexivity.
  - apply session_okb_ok. vm_compute. reflexivity.
  - destruct (Hfin 0%nat) as (w' & Hrun & He & Hcl & _).
    exists w'. auto.
Defined.

(** ** sendMsg *)

Section SendMsg.

Context {M : Type} `{MemoryManager M}.

Implicit Types (w : World M).

(* a buffer handed out by getBufferOutbound has the length asked for *)
Lemma getBufferOutbound_length w len timeout cancel b w1 :
  getBufferOutbound len timeout cancel w = Ret ((b, None), w1) ->
  0 <= len -> length b = Z.to_nat len.
Proof.
  unfold getBufferOutbound, next_case, bind at 1.
  destruct (sched w) as [|c cs]; [discriminate|].
  destruct c; cbn beta iota.
  - unfold get at 1. unfold bind at 1.
    unfold lift at 1. unfold bind at 1.
    destruct (chan_send _ _) as [c'| | |]; try discriminate.
    unfold modify_mp, emit, modify, bind at 1. unfold bind at 1.
    unfold getBuffer, pool_Get, lift, bind, ret.
    destruct (len <? 0); [discriminate|].
    intros Heq Hlen. inversion Heq; subst. apply repeat_length.
  - unfold await, bind. destruct (sig_ready timeout); cbn; discriminate.
  - unfold await, bind. destruct (sig_ready cancel); cbn; discriminate.
  - unfold get, bind, await. cbn. destruct (shutdown (mp w)); cbn; discriminate.
Qed.


End SendMsg.


(** ** NewMultiplex: the reservations *)

Section Reservations.

Context {M : Type} `{MemoryManager M}.

Implicit Types (w : World M).

Lemma prio_of_slot (i : nat) : prio_of (Z.of_nat i) = slot_priority i.
Proof.
  destruct i as [|[|i]]; [reflexivity..|].
  unfold prio_of, slot_priority.
  replace (Z.of_nat (S (S i)) =? 0) with false by (symmetry; apply Z.eqb_neq; lia).
  replace (Z.of_nat (S (S i)) =? 1) with false by (symmetry; apply Z.eqb_neq; lia).
  destruct i; reflexivity.
Qed.

(* The reservation events of slots j, ..., j+k-1, all granted. *)
Local Abbreviation granted size j k :=
  (map (fun i => EvReserveMemory size (slot_priority i) None) (seq j k)).

(* The loop while the manager grants: k slots from j on, then either a
   refusal (k < n) or the end of the loop (k = n). *)
Lemma reserve_loop_grants (k : nat) : forall (n j : nat) w err size mmk
    (refusal : option error),
  int64 (2 * MaxMessageSize w) = size -> 0 <= size ->
  0 <= reservedMemory (mp w) ->
  reservedMemory (mp w) + Z.of_nat k * size < 2 ^ 63 ->
  grants size j k (memoryManager (mp w)) = Some mmk ->
  match refusal with
  | Some e => (k < n)%nat /\ fst (mm_ReserveMemory mmk size (slot_priority (j + k))) = Some e
  | None => k = n
  end ->
  exists w',
    reserve_loop n (Z.of_nat j) err w =
      (Z.of_nat (j + k),
       match refusal with Some e => Some e | None => if k is O then err else None end,
       w')
    /\ trace w' = trace w ++ granted size j k
                    ++ match refusal with
                       | Some e => [EvReserveMemory size (slot_priority (j + k)) (Some e)]
                       | None => []
                       end
    /\ reservedMemory (mp w') = reservedMemory (mp w) + Z.of_nat k * size
    /\ MaxMessageSize w' = MaxMessageSize w
    /\ MaxBuffers w' = MaxBuffers w
    /\ streams w' = streams w /\ sched w' = sched w
    /\ set_reservedMemory 0 (set_memoryManager None (mp w'))
       = set_reservedMemory 0 (set_memoryManager None (mp w)).
Proof.
  induction k as [|k IH]; intros n j w err size mmk refusal Hsize Hs0 Hr0 Hr Hg Href.
  - cbn [grants] in Hg. inversion Hg; subst mmk; clear Hg.
    rewrite Nat.add_0_r in *. destruct refusal as [e|].
    + destruct Href as [Hlt Hfail]. destruct n as [|n]; [lia|].
      cbn [reserve_loop]. rewrite Hsize, prio_of_slot.
      destruct (mm_ReserveMemory (memoryManager (mp w)) size (slot_priority j))
        as [e' mm'] eqn:Hcall.
      cbn [fst] in Hfail. subst e'.
      eexists. split; [reflexivity|].
      cbn. rewrite Z.add_0_r. repeat split.
    + subst n. cbn [reserve_loop]. exists w. split; [reflexivity|].
      cbn. rewrite app_nil_r, Z.add_0_r. repeat split.
  - cbn [grants] in Hg.
    destruct (mm_ReserveMemory (memoryManager (mp w)) size (slot_priority j))
      as [[e'|] mm1] eqn:Hcall; [discriminate|].
    destruct n as [|n]; [destruct refusal as [e|]; [destruct Href; lia|discriminate]|].
    cbn [reserve_loop]. rewrite Hsize, prio_of_slot, Hcall.
    set (w1 := with_mp _ (with_trace _ _)).
    assert (Hres1 : reservedMemory (mp w1) = reservedMemory (mp w) + size).
    { subst w1. cbn. apply int64_small. nia. }
    destruct (IH n (S j) w1 None size mmk refusal) as (w' & Hrun & Htr & Hres & Hmms & Hmb & Hst & Hsc & Hmp).
    + exact Hsize.
    + exact Hs0.
    + rewrite Hres1. lia.
    + rewrite Hres1. nia.
    + exact Hg.
    + destruct refusal as [e|].
      * destruct Href as [Hlt Hfail]. split; [lia|].
        replace (S j + k)%nat with (j + S k)%nat by lia. exact Hfail.
      * lia.
    + exists w'.
      replace (Z.of_nat j + 1) with (Z.of_nat (S j)) by lia.
      rewrite Hrun. split.
      { replace (S j + k)%nat with (j + S k)%nat by lia.
        destruct refusal; [reflexivity|]. destruct k; reflexivity. }
      split.
      { rewrite Htr. subst w1. cbn [trace with_mp with_trace seq map].
        rewrite <- !app_assoc. cbn [app].
        replace (S j + k)%nat with (j + S k)%nat by lia. reflexivity. }
      split; [rewrite Hres, Hres1; nia|].
      split; [exact Hmms|]. split; [exact Hmb|].
      split; [exact Hst|]. split; [exact Hsc|].
      rewrite Hmp. reflexivity.
Qed.

(** C3: NewMultiplex asks the memory manager for 2*MaxMessageSize bytes
    slot by slot, in order, with priority 255 for the first slot, 192
    for the second and 128 for the others, at most MaxBuffers times; when
    slots 0..k-1 are granted and slot k is refused (or k = MaxBuffers),
    the session gets k slots per direction; and when the first
    reservation is refused the constructor returns that error and no
    session. *)
Theorem NewMultiplex_reservations mms maxb sch c inc ini (mm : option M)
    (k : nat) mmk (refusal : option error) :
  0 <= mms -> Z.of_nat k * (2 * mms) < 2 ^ 63 -> 2 * mms < 2 ^ 63 ->
  grants (2 * mms) 0 k mm = Some mmk ->
  match refusal with
  | Some e => (k < Z.to_nat maxb)%nat
              /\ fst (mm_ReserveMemory mmk (2 * mms) (slot_priority k)) = Some e
  | None => k = Z.to_nat maxb
  end ->
  exists res,
    NewMultiplex mms maxb sch c inc ini mm =
      (res,
       if k is O then refusal else None,
       map (fun i => EvReserveMemory (2 * mms) (slot_priority i) None) (seq 0 k)
         ++ match refusal with
            | Some e => [EvReserveMemory (2 * mms) (slot_priority k) (Some e)]
            | None => []
            end
         ++ (if k is O then [] else [EvGo true; EvGo false]))
    /\ match k with
       | O => res = None
       | S _ => exists w, res = Some w
                  /\ bufMax (mp w) = Z.of_nat k
                  /\ ch_cap (bufIn (mp w)) = k
                  /\ ch_cap (bufOut (mp w)) = k
                  /\ reservedMemory (mp w) = Z.of_nat k * (2 * mms)
       end.
Proof.
  intros Hmms Hbound Hsz Hg Href. unfold NewMultiplex.
  set (w0 := mkWorld mms maxb _ [] sch []).
  destruct (reserve_loop_grants k (Z.to_nat maxb) 0 w0 None (2 * mms) mmk refusal)
    as (w' & Hrun & Htr & Hres & _ & _ & _ & _ & _).
  - subst w0. cbn. apply int64_small. lia.
  - lia.
  - subst w0. cbn. lia.
  - subst w0. cbn. lia.
  - exact Hg.
  - exact Href.
  - change (Z.of_nat 0) with 0 in Hrun. rewrite Hrun. cbn [Nat.add].
    destruct k as [|k].
    + change (Z.of_nat 0 =? 0) with true. cbn iota.
      eexists. split; [|reflexivity].
      rewrite Htr. cbn. rewrite app_nil_r. destruct refusal; reflexivity.
    + replace (Z.of_nat (S k) =? 0) with false by (symmetry; apply Z.eqb_neq; lia).
      eexists. split.
      * cbn [trace with_trace with_mp]. rewrite Htr. cbn [trace w0 app].
        rewrite <- !app_assoc.
        destruct refusal; reflexivity.
      * eexists. split; [reflexivity|]. cbn.
        rewrite Nat2Z.id. repeat split. rewrite Hres. subst w0. cbn. lia.
Qed.

End Reservations.

Lemma NewMultiplex_reservations_witness :
  exists res,
    NewMultiplex (2 ^ 20) 4 [] (mkConn [] false)
      {| Varint.rd_bytes := []; Varint.rd_err := io_EOF |} true
      (Some (mkBudget (5 * 2 ^ 20)))
    = (res, None,
       [EvReserveMemory (2 * 2 ^ 20) 255 None;
        EvReserveMemory (2 * 2 ^ 20) 192 None;
        EvReserveMemory (2 * 2 ^ 20) 128 (Some (ErrExternal 1));
        EvGo true; EvGo false])
    /\ exists w, res = Some w /\ bufMax (mp w) = 2.
Proof.
  destruct (NewMultiplex_reservations (2 ^ 20) 4 [] (mkConn [] false)
              {| Varint.rd_bytes := []; Varint.rd_err := io_EOF |} true
              (Some (mkBudget (5 * 2 ^ 20))) 2 (Some (mkBudget (2 ^ 20)))
              (Some (ErrExternal 1))
              ltac:(lia) ltac:(lia) ltac:(lia) eq_refl
              ltac:(split; [vm_compute; lia|reflexivity]))
    as (res & Hrun & w & Hres & Hmax & _).
  exists res. split; [exact Hrun|]. exists w. auto.
Defined.

(** ** The dispatch of the receive loop *)

Section Dispatch.

Context {M : Type} `{MemoryManager M}.

Implicit Types (w : World M) (st : Stream).

Lemma putBufferInbound_ret w b q :
  ch_queue (bufIn (mp w)) = tt :: q ->
  putBufferInbound b w =
    Ret (tt, with_trace (fun t => t ++ [EvPutBufferInbound])
               (with_mp (set_bufIn (mkChan q (ch_cap (bufIn (mp w)))
                                           (ch_closed (bufIn (mp w))))) w)).
Proof.
  intros Hq. unfold putBufferInbound, get, bind at 1.
  unfold chan_recv. rewrite Hq. reflexivity.
Qed.

(* Close for a stream in the map. *)
Lemma dispatch_close w ch b s st :
  streams w !! s = Some st ->
  ch_closed (dataIn st) = false ->
  handleIncoming_dispatch ch closeTag b (Some s) w =
    Ret (Continue,
         with_streams (fun l => <[s := close_dataIn st]> l)
           (with_mp (fun m => set_channels (delete ch <$> channels m) m) w)).
Proof.
  intros Hs Hc. unfold handleIncoming_dispatch. cbn [Z.eqb closeTag newStreamTag resetTag Pos.eqb].
  unfold channels_delete, modify_mp, modify, bind at 1.
  set (w1 := with_mp _ w).
  assert (Hs1 : streams w1 !! s = Some st) by exact Hs.
  rewrite (bind_Ret _ _ _ _ _ (stream_get_ret _ _ _ Hs1)).
  unfold chan_close. rewrite Hc. unfold lift at 1. unfold bind at 1.
  rewrite (bind_Ret _ _ _ _ _ (stream_update_ret _ _ _ _ Hs1)). reflexivity.
Qed.

(* A Message whose hand-off is taken by the stream's queue. *)
Lemma dispatch_message_delivered w ch b s st sch' :
  streams w !! s = Some st ->
  sched w = CaseSend :: sch' ->
  ch_closed (dataIn st) = false ->
  (length (ch_queue (dataIn st)) < ch_cap (dataIn st))%nat ->
  handleIncoming_dispatch ch messageTag b (Some s) w =
    Ret (Continue,
         with_trace (fun t => t ++ [EvTimerStop])
           (with_streams (fun l => <[s := set_dataIn (mkChan (ch_queue (dataIn st) ++ [b])
                                                         (ch_cap (dataIn st)) false) st]> l)
              (with_sched sch'
                 (with_trace (fun t => t ++ [EvTimerReset]) w)))).
Proof.
  intros Hs Hsch Hc Hroom. unfold handleIncoming_dispatch.
  cbn [Z.eqb messageTag closeTag newStreamTag resetTag Pos.eqb].
  unfold emit at 1. unfold modify, bind at 1.
  unfold next_case, bind at 1. cbn [sched with_trace]. rewrite Hsch.
  unfold get at 1. unfold bind at 1.
  set (w1 := with_sched _ _).
  assert (Hs1 : streams w1 !! s = Some st) by exact Hs.
  rewrite (bind_Ret _ _ _ _ _ (stream_get_ret _ _ _ Hs1)).
  unfold chan_send. rewrite Hc.
  destruct (decide _) as [_|Hn]; [|lia].
  unfold lift at 1. unfold bind at 1.
  rewrite (bind_Ret _ _ _ _ _ (stream_update_ret _ _ _ _ Hs1)). reflexivity.
Qed.


End Dispatch.

Section ReceiveLoopFrames.

Context {M : Type} `{MemoryManager M}.

Implicit Types (w : World M) (st : Stream).

(* What a successful readNextHeader did. *)
Lemma readNextHeader_inv w chID tag w1 :
  readNextHeader w = Ret ((chID, tag, None), w1) ->
  exists h r0,
    Varint.ReadUvarint (buf (mp w)) = Ret (h, None, r0)
    /\ w1 = consumed r0 w /\ chID = Z.shiftr h 3 /\ tag = Z.land h 7.
Proof.
  unfold readNextHeader, bind at 1. unfold buf_ReadUvarint, bind at 1.
  unfold get at 1. unfold lift at 1. unfold bind at 1.
  destruct (Varint.ReadUvarint (buf (mp w))) as [[[h err] r0]| | |]; try discriminate.
  unfold modify_mp, emit, modify, bind, ret.
  destruct err; intros Heq; inversion Heq; subst.
  exists h, r0. auto.
Qed.

Lemma round_tag_small tag : 0 <= tag <= 7 -> u64 (tag + Z.land tag 1) = tag + Z.land tag 1.
Proof.
  intros Htag. apply u64_small.
  assert (0 <= Z.land tag 1 <= 1).
  { change 1 with (Z.ones 1) at 1 2. rewrite Z.land_ones by lia.
    pose proof (Z.mod_pos_bound tag (2 ^ 1) ltac:(lia)).
    change (2 ^ 1) with 2 in *. lia. }
  lia.
Qed.

(** C6 (amended): when the receive loop dispatches a Close frame with an
    empty payload for a stream that is in the session map, it removes
    the stream from the map and closes the stream's data channel; no
    inbound slot was taken for the empty payload and none is released;
    the rest of the stream's state (queued data, read-cancel and
    write-cancel signals, deadlines) and every other stream stay as they
    were. *)
Theorem close_frame_effect w chID tag w1 r' m s st :
  readNextHeader w = Ret ((chID, tag, None), w1) ->
  tag + Z.land tag 1 = closeTag ->
  Varint.ReadUvarint (buf (mp w1)) = Ret (0, None, r') ->
  channels (mp w) = Some m ->
  m !! mkStreamID chID (negb (Z.land tag 1 =? 0)) = Some s ->
  streams w !! s = Some st ->
  ch_closed (dataIn st) = false ->
  exists w',
    handleIncoming_body w = Ret (Continue, w')
    /\ channels (mp w') = Some (delete (mkStreamID chID (negb (Z.land tag 1 =? 0))) m)
    /\ streams w' = <[s := close_dataIn st]> (streams w)
    /\ ch_closed (dataIn (close_dataIn st)) = true
    /\ ch_queue (dataIn (close_dataIn st)) = ch_queue (dataIn st)
    /\ readCancel (close_dataIn st) = readCancel st
    /\ writeCancel (close_dataIn st) = writeCancel st
    /\ rDeadline (close_dataIn st) = rDeadline st
    /\ wDeadline (close_dataIn st) = wDeadline st
    /\ bufIn (mp w') = bufIn (mp w)
    /\ ~ In EvPutBufferInbound (drop (length (trace w)) (trace w'))
    /\ ~ In EvGetBufferInbound (drop (length (trace w)) (trace w')).
Proof.
  intros Hh Htag Hr Hm Hlook Hs Hc.
  destruct (readNextHeader_inv _ _ _ _ Hh) as (h & r0 & Hr0 & -> & _ & _).
  pose proof (readNext_empty _ _ Hr) as Hn.
  destruct (handleIncoming_body_dispatch w chID tag _ [] _ Hh Hn) as (Hbody & _ & _).
  rewrite Htag in Hbody.
  change (channels (mp (consumed r' (consumed r0 w)))) with (channels (mp w)) in Hbody.
  rewrite Hm, Hlook in Hbody.
  rewrite (dispatch_close _ _ _ s st) in Hbody by (exact Hs || exact Hc).
  eexists. split; [exact Hbody|].
  cbn [mp with_streams with_mp channels set_channels streams consumed with_trace
       bufIn set_buf trace].
  rewrite Hm. cbn [fmap option_fmap option_map].
  repeat (split; [reflexivity|]).
  rewrite <- !app_assoc, drop_app_length. cbn.
  split; intros [Hf|[Hf|[]]]; discriminate.
Qed.

(** C9: a frame with tag Message and declared length 0 is read without
    error: readNext returns the zero-length payload and takes no inbound
    slot; and when the stream is in the map and its queue takes the
    hand-off, the receive loop appends the zero-length chunk to the
    stream's inbound queue and goes on, so a receive from the data
    channel yields that chunk and not an error. *)
Theorem zero_length_message w chID tag w1 r' m s st sch' :
  readNextHeader w = Ret ((chID, tag, None), w1) ->
  tag + Z.land tag 1 = messageTag ->
  Varint.ReadUvarint (buf (mp w1)) = Ret (0, None, r') ->
  channels (mp w) = Some m ->
  m !! mkStreamID chID (negb (Z.land tag 1 =? 0)) = Some s ->
  streams w !! s = Some st ->
  sched w = CaseSend :: sch' ->
  ch_closed (dataIn st) = false ->
  (length (ch_queue (dataIn st)) < ch_cap (dataIn st))%nat ->
  readNext w1 = Ret (([], None), consumed r' w1)
  /\ bufIn (mp (consumed r' w1)) = bufIn (mp w)
  /\ exists w' st',
       handleIncoming_body w = Ret (Continue, w')
       /\ streams w' = <[s := st']> (streams w)
       /\ ch_queue (dataIn st') = ch_queue (dataIn st) ++ [[]]
       /\ ch_closed (dataIn st') = false
       /\ (ch_queue (dataIn st) = [] ->
           exists c, chan_recv (dataIn st') = Ret (Some [], c))
       /\ shutdownErr (mp w') = shutdownErr (mp w)
       /\ bufIn (mp w') = bufIn (mp w).
Proof.
  intros Hh Htag Hr Hm Hlook Hs Hsch Hc Hroom.
  destruct (readNextHeader_inv _ _ _ _ Hh) as (h & r0 & Hr0 & -> & _ & _).
  pose proof (readNext_empty _ _ Hr) as Hn.
  split; [exact Hn|]. split; [reflexivity|].
  destruct (handleIncoming_body_dispatch w chID tag _ [] _ Hh Hn) as (Hbody & _ & _).
  rewrite Htag in Hbody.
  change (channels (mp (consumed r' (consumed r0 w)))) with (channels (mp w)) in Hbody.
  rewrite Hm, Hlook in Hbody.
  rewrite (dispatch_message_delivered _ _ _ s st sch') in Hbody
    by (exact Hs || exact Hsch || exact Hc || exact Hroom).
  eexists _, _. split; [exact Hbody|].
  split; [reflexivity|]. split; [reflexivity|]. split; [reflexivity|].
  split; [|split; reflexivity].
  intros Hq. unfold chan_recv. cbn. rewrite Hq. cbn. eexists. reflexivity.
Qed.


End ReceiveLoopFrames.

(** ** NewNamedStream *)

Section OpenStream.

Context {M : Type} `{MemoryManager M}.

Implicit Types (w : World M).

Lemma getBufferOutbound_inv w len timeout cancel b err w' :
  getBufferOutbound len timeout cancel w = Ret ((b, err), w') ->
  channels (mp w') = channels (mp w) /\ streams w' = streams w
  /\ (err = Some errTimeout -> sig_ready timeout = true).
Proof.
  unfold getBufferOutbound, next_case, bind at 1.
  destruct (sched w) as [|c cs]; [discriminate|].
  destruct c; cbv beta iota.
  - unfold get at 1. unfold bind at 1. unfold lift at 1. unfold bind at 1.
    destruct (chan_send _ _) as [c'| | |]; try discriminate.
    unfold modify_mp, emit, modify, bind at 1. unfold bind at 1.
    unfold getBuffer, lift, bind, ret.
    destruct (pool_Get len); try discriminate.
    intros Heq. inversion Heq; subst. cbn. repeat split. discriminate.
  - unfold await, blocked, lift, ret, bind.
    destruct (sig_ready timeout); try discriminate.
    intros Heq. inversion Heq; subst. cbn. repeat split.
  - unfold await, blocked, lift, ret, bind.
    destruct (sig_ready cancel); try discriminate.
    intros Heq. inversion Heq; subst. cbn. repeat split. discriminate.
  - unfold get at 1. unfold bind at 1. cbn [mp with_sched].
    unfold await, blocked, lift, ret, bind.
    destruct (shutdown (mp w)); try discriminate.
    intros Heq. inversion Heq; subst. cbn. repeat split. discriminate.
Qed.

Lemma putBufferOutbound_inv w b w' :
  putBufferOutbound b w = Ret (tt, w') ->
  channels (mp w') = channels (mp w) /\ streams w' = streams w.
Proof.
  unfold putBufferOutbound, get, bind at 1. unfold lift, bind at 1.
  destruct (chan_recv _) as [[o c']| | |]; try discriminate.
  unfold modify_mp, emit, modify, bind.
  intros Heq. inversion Heq; subst. cbn. split; reflexivity.
Qed.

(* an error path of sendMsg after the buffer was filled: wait for the
   signal, give the buffer back, return the error *)
Lemma sendMsg_abort_inv w (ready : bool) b (e : error) r w' :
  bind (await ready) (fun _ => bind (putBufferOutbound b) (fun _ => ret (Some e))) w
    = Ret (r, w') ->
  ready = true /\ r = Some e
  /\ channels (mp w') = channels (mp w) /\ streams w' = streams w.
Proof.
  unfold await, blocked, lift, bind at 1.
  destruct ready; [|discriminate]. unfold ret at 1.
  unfold bind at 1.
  destruct (putBufferOutbound b w) as [[[] w1]| | |] eqn:Hput; try discriminate.
  unfold ret. intros Heq. inversion Heq; subst.
  destruct (putBufferOutbound_inv _ _ _ Hput) as [Hc Hs]. auto.
Qed.

(* sendMsg touches the outbound credits and the write queue only, and
   reports errTimeout only when the timeout channel is ready. *)
Lemma sendMsg_frame w timeout cancel header data r w' :
  sendMsg timeout cancel header data w = Ret (r, w') ->
  channels (mp w') = channels (mp w) /\ streams w' = streams w
  /\ (r = Some errTimeout -> sig_ready timeout = true).
Proof.
  unfold sendMsg, bind at 1.
  destruct (getBufferOutbound _ timeout cancel w) as [[[b err] w1]| | |] eqn:Hget;
    try discriminate.
  destruct (getBufferOutbound_inv _ _ _ _ _ _ _ Hget) as (Hc1 & Hs1 & Ht1).
  destruct err as [e|].
  - unfold ret. intros Heq. inversion Heq; subst. auto.
  - unfold lift at 1. unfold bind at 1.
    destruct (sendMsg_fill b header data) as [[b' n]| | |]; try discriminate.
    unfold next_case, bind at 1.
    destruct (sched w1) as [|c cs]; [discriminate|].
    unfold get at 1. unfold bind at 1.
    change (channels (mp w1)) with (channels (mp (with_sched cs w1))) in Hc1.
    change (streams w1) with (streams (with_sched cs w1)) in Hs1.
    destruct c.
    + unfold lift at 1. unfold bind at 1.
      destruct (chan_send _ _) as [c'| | |]; try discriminate.
      unfold modify_mp, modify, bind, ret.
      intros Heq. inversion Heq; subst. cbn in *. repeat split; auto; discriminate.
    + intros Hrun. apply sendMsg_abort_inv in Hrun as (Hready & -> & Hc & Hs).
      rewrite Hc, Hs. auto.
    + intros Hrun. apply sendMsg_abort_inv in Hrun as (Hready & -> & Hc & Hs).
      rewrite Hc, Hs. repeat split; auto; discriminate.
    + intros Hrun. apply sendMsg_abort_inv in Hrun as (Hready & -> & Hc & Hs).
      rewrite Hc, Hs. repeat split; auto; discriminate.
Qed.

(* Up to the send, NewNamedStream registers the stream. *)
Lemma NewNamedStream_unfold w m ctx name :
  channels (mp w) = Some m ->
  NewNamedStream ctx name w =
    bind (sendMsg (ctx_Done ctx) SigNil (header_of (nextID (mp w)) newStreamTag)
            (registered_name name w))
         (fun err =>
            match err with
            | Some e => if decide (e = errTimeout) then ret (None, ctx_err ctx)
                        else ret (None, Some e)
            | None => ret (Some (length (streams w)), None)
            end)
         (registered name w).
Proof.
  intros Hm. unfold NewNamedStream.
  unfold get at 1. unfold bind at 1. rewrite Hm.
  assert (Hid : nextChanID w =
                  Ret (nextID (mp w), with_mp (set_nextID (u64 (nextID (mp w) + 1))) w))
    by reflexivity.
  rewrite (bind_Ret _ _ _ _ _ Hid).
  set (wA := with_mp _ w).
  set (nm := if decide (name = []) then fmt_Sprint (nextID (mp w)) else name).
  set (s := mkStream (mkStreamID (nextID (mp w)) true) nm
              (make_chan (Z.to_nat (bufMax (mp wA))))
              makePipeDeadline makePipeDeadline false false None None).
  assert (Hnew : newStream (mkStreamID (nextID (mp w)) true) nm wA =
                   Ret (length (streams wA), with_streams (fun l => l ++ [s]) wA))
    by reflexivity.
  rewrite (bind_Ret _ _ _ _ _ Hnew).
  set (wB := with_streams _ wA).
  assert (Hget : streams wB !! length (streams wA) = Some s).
  { subst wB. cbn [streams with_streams]. apply list_lookup_middle. reflexivity. }
  rewrite (bind_Ret _ _ _ _ _ (stream_get_ret _ _ _ Hget)).
  assert (Hstore : channels_store (st_id s) (length (streams wA)) wB =
                     Ret (tt, with_mp (set_channels
                                         (Some (<[st_id s := length (streams wA)]> m))) wB)).
  { unfold channels_store, get, bind at 1.
    change (channels (mp wB)) with (channels (mp w)). rewrite Hm. reflexivity. }
  rewrite (bind_Ret _ _ _ _ _ Hstore).
  unfold registered, registered_name. subst wB wA s nm.
  destruct w as [a b0 [c0 c1 c2 c3 c4 c5 c6 c7 c8 c9 c10 c11 c12 c13 c14] d e0 f].
  cbn in Hm. subst c10. reflexivity.
Qed.

(** C1 (amended): for every call to NewNamedStream in which the sendMsg
    of the NewStream frame returns an error, the caller receives no
    stream and an error: ctx.Err() when the error of sendMsg is
    errTimeout, and the error of sendMsg itself otherwise. *)
Theorem NewNamedStream_send_error w m ctx name e w2 :
  channels (mp w) = Some m ->
  sendMsg (ctx_Done ctx) SigNil (header_of (nextID (mp w)) newStreamTag)
    (registered_name name w) (registered name w) = Ret (Some e, w2) ->
  exists e',
    NewNamedStream ctx name w = Ret ((None, Some e'), w2)
    /\ (e <> errTimeout -> e' = e)
    /\ (e = errTimeout -> ctx_err ctx = Some e').
Proof.
  intros Hm Hsend.
  rewrite (NewNamedStream_unfold w m ctx name Hm).
  rewrite (bind_Ret _ _ _ _ _ Hsend).
  destruct (decide (e = errTimeout)) as [->|Hne].
  - destruct (sendMsg_frame _ _ _ _ _ _ _ Hsend) as (_ & _ & Hready).
    specialize (Hready eq_refl). cbn in Hready.
    apply bool_decide_eq_true in Hready.
    destruct (ctx_err ctx) as [e'|] eqn:Hctx; [|congruence].
    exists e'. split; [reflexivity|]. split; [congruence|reflexivity].
  - exists e. split; [reflexivity|]. split; [reflexivity|congruence].
Qed.

(* The stream registered before the send is still in the map when the
   send has failed: the error path does not undo the registration. *)
Lemma NewNamedStream_failure_keeps_stream w m ctx name e w2 :
  channels (mp w) = Some m ->
  sendMsg (ctx_Done ctx) SigNil (header_of (nextID (mp w)) newStreamTag)
    (registered_name name w) (registered name w) = Ret (Some e, w2) ->
  exists res,
    NewNamedStream ctx name w = Ret ((None, res), w2)
    /\ channels (mp w2)
       = Some (<[mkStreamID (nextID (mp w)) true := length (streams w)]> m).
Proof.
  intros Hm Hsend.
  rewrite (NewNamedStream_unfold w m ctx name Hm).
  rewrite (bind_Ret _ _ _ _ _ Hsend).
  destruct (sendMsg_frame _ _ _ _ _ _ _ Hsend) as (Hch & _ & _).
  rewrite Hch. unfold registered. cbn. rewrite Hm.
  destruct (decide (e = errTimeout)); eexists; split; reflexivity.
Qed.

End OpenStream.

Lemma NewNamedStream_send_error_witness :
  exists w2,
    NewNamedStream (mkContext (Some context_DeadlineExceeded)) [115]
      (session0 [] [CaseTimeout])
    = Ret ((None, Some context_DeadlineExceeded), w2).
Proof.
  eval_as (sendMsg (M:=nullMemoryManager)
             (ctx_Done (mkContext (Some context_DeadlineExceeded))) SigNil
             (header_of (nextID (mp (session0 [] [CaseTimeout]))) newStreamTag)
             (registered_name [115] (session0 [] [CaseTimeout]))
             (registered [115] (session0 [] [CaseTimeout]))) Hsend.
  destruct (NewNamedStream_send_error (session0 [] [CaseTimeout]) ∅
              (mkContext (Some context_DeadlineExceeded)) [115] _ _ eq_refl Hsend)
    as (e' & Hrun & _ & Hctx).
  specialize (Hctx eq_refl). cbn in Hctx. inversion Hctx; subst e'.
  eexists. exact Hrun.
Defined.

(** C1 as stated fails: with the context already done, sendMsg fails
    with errTimeout; the caller gets ctx.Err() instead, and the stream is
    still in the map. *)
Lemma NewNamedStream_unregisters_fails :
  ~ NewNamedStream_unregisters (session0 [] [CaseTimeout])
      (mkContext (Some context_Canceled)) [115].
Proof.
  intros Hclaim.
  destruct (Hclaim errTimeout
              ltac:(let v := eval vm_compute in
                      (match sendMsg (M:=nullMemoryManager)
                               (ctx_Done (mkContext (Some context_Canceled))) SigNil
                               (header_of 0 newStreamTag) [115]
                               (registered [115] (session0 [] [CaseTimeout])) with
                       | Ret (_, w) => w
                       | _ => session0 [] []
                       end) in exact v)
              ltac:(vm_compute; reflexivity)) as (w' & Hrun & _).
  vm_compute in Hrun. discriminate Hrun.
Qed.

Lemma close_frame_effect_witness :
  exists w',
    handleIncoming_body (session_busy [4; 0] []) = Ret (Continue, w')
    /\ channels (mp w') = Some (delete (mkStreamID 0 false) {[ mkStreamID 0 false := 0%nat ]})
    /\ bufIn (mp w') = bufIn (mp (session_busy [4; 0] [])).
Proof.
  eval_as (readNextHeader (session_busy [4; 0] [])) H1.
  eval_as (streams (session_busy [4; 0] []) !! 0%nat) Hs.
  match type of H1 with
  | _ = Ret (_, ?w1) =>
      match type of Hs with
      | _ = Some ?st =>
          destruct (close_frame_effect (session_busy [4; 0] []) 0 4 w1
                      {| Varint.rd_bytes := []; Varint.rd_err := io_EOF |}
                      {[ mkStreamID 0 false := 0%nat ]} 0%nat st H1 eq_refl)
            as (w' & Hbody & Hch & _ & _ & _ & _ & _ & _ & _ & Hbuf & _)
      end
  end.
  - vm_compute. reflexivity.
  - vm_compute. reflexivity.
  - vm_compute. reflexivity.
  - exact Hs.
  - reflexivity.
  - exists w'. auto.
Defined.

(** C6 as stated fails: the Close turn releases no inbound slot, also
    when one is held. *)
Lemma Close_releases_slot_fails :
  ~ Close_releases_slot (session_busy [4; 0] []) (mkStreamID 0 false) 0.
Proof.
  intros (w' & st & st' & Hbody & _ & _ & _ & _ & Hin & _).
  vm_compute in Hbody. inversion Hbody; subst w'; clear Hbody.
  vm_compute in Hin. intuition discriminate.
Qed.

(* A Close frame that carries a payload: readNext takes a slot for it
   and the Close case never gives it back (the NewStream and Message
   cases do). *)
Example close_with_payload_keeps_slot :
  length (ch_queue (bufIn (mp (session_live [4; 1; 65] [CaseSend])))) = 0%nat
  /\ length (ch_queue (bufIn (mp (after_body (session_live [4; 1; 65] [CaseSend])))))
     = 1%nat
  /\ channels (mp (after_body (session_live [4; 1; 65] [CaseSend]))) = Some ∅.
Proof. vm_compute. repeat split. Qed.

Lemma zero_length_message_witness :
  exists w' st',
    handleIncoming_body (session_live [2; 0] [CaseSend]) = Ret (Continue, w')
    /\ streams w' !! 0%nat = Some st'
    /\ ch_queue (dataIn st') = [[]].
Proof.
  eval_as (readNextHeader (session_live [2; 0] [CaseSend])) H1.
  eval_as (streams (session_live [2; 0] [CaseSend]) !! 0%nat) Hs.
  match type of H1 with
  | _ = Ret (_, ?w1) =>
      match type of Hs with
      | _ = Some ?st =>
          destruct (zero_length_message (session_live [2; 0] [CaseSend]) 0 2 w1
                      {| Varint.rd_bytes := []; Varint.rd_err := io_EOF |}
                      {[ mkStreamID 0 false := 0%nat ]} 0%nat st [] H1 eq_refl)
            as (_ & _ & w' & st' & Hbody & Hst & Hq & _)
      end
  end.
  - vm_compute. reflexivity.
  - vm_compute. reflexivity.
  - vm_compute. reflexivity.
  - exact Hs.
  - vm_compute. reflexivity.
  - reflexivity.
  - vm_compute. lia.
  - exists w', st'. split; [exact Hbody|]. split; [|exact Hq].
    rewrite Hst. vm_compute. reflexivity.
Defined.


(** * Further properties *)

#[local] Arguments Varint.ToUvarint : simpl never.
#[local] Arguments Varint.uvarint_bytes : simpl never.
#[local] Arguments wire_frame : simpl never.

(** ** What a piece of session code keeps *)

Section Keeps.

Context {M : Type} `{MemoryManager M}.

Implicit Types (w : World M).

Variable R : World M -> World M -> Prop.
Hypothesis R_refl : forall w, R w w.
Hypothesis R_trans : forall w1 w2 w3, R w1 w2 -> R w2 w3 -> R w1 w3.

Lemma keeps_ret {A} (a : A) : keeps R (ret a).
Proof. intros w. apply R_refl. Qed.

Lemma keeps_bind {A B} (m : go M A) (k : A -> go M B) :
  keeps R m -> (forall a, keeps R (k a)) -> keeps R (bind m k).
Proof.
  intros Hm Hk w. unfold bind. specialize (Hm w).
  destruct (m w) as [[a w1]| | |]; try exact I; [|exact Hm].
  specialize (Hk a w1). destruct (k a w1) as [[b w2]| | |]; try exact I; [|exact Hk].
  eapply R_trans; eassumption.
Qed.

Lemma keeps_get : keeps R (get (M:=M)).
Proof. intros w. apply R_refl. Qed.

Lemma keeps_modify (f : World M -> World M) :
  (forall w, R w (f w)) -> keeps R (modify f).
Proof. intros Hf w. apply Hf. Qed.

Lemma keeps_lift {A} (r : run A) : r <> Fuel -> keeps R (lift (M:=M) r).
Proof. intros Hr w. unfold lift. destruct r; try exact I; [apply R_refl|congruence]. Qed.

Lemma keeps_blocked {A} : keeps R (blocked (M:=M) (A:=A)).
Proof. intros w. exact I. Qed.

Lemma keeps_panic {A} : keeps R (panic (M:=M) (A:=A)).
Proof. intros w. exact I. Qed.

Lemma keeps_await (b : bool) : keeps R (await (M:=M) b).
Proof. destruct b; [apply keeps_ret|apply keeps_blocked]. Qed.

Lemma keeps_next_case :
  (forall w cs, R w (with_sched cs w)) -> keeps R (next_case (M:=M)).
Proof.
  intros Hs w. unfold next_case. destruct (sched w); [exact I|apply Hs].
Qed.

Lemma keeps_stream_get r : keeps R (stream_get (M:=M) r).
Proof. intros w. unfold stream_get. destruct (streams w !! r); [apply R_refl|exact I]. Qed.

End Keeps.

(** ** The receive side keeps to itself *)

Section ReceiveKeeps.

Context {M : Type} `{MemoryManager M}.

Implicit Types (w : World M).

Lemma recv_rel_refl w : recv_rel w w.
Proof. unfold recv_rel, same_outside. repeat split; reflexivity. Qed.

Lemma recv_rel_trans w1 w2 w3 : recv_rel w1 w2 -> recv_rel w2 w3 -> recv_rel w1 w3.
Proof.
  unfold recv_rel, same_outside.
  intros (H1 & Hl1) (H2 & Hl2). split; [|lia].
  destruct H1 as (a1 & a2 & a3 & a4 & a5 & a6 & a7 & a8 & a9 & a10 & a11).
  destruct H2 as (b1 & b2 & b3 & b4 & b5 & b6 & b7 & b8 & b9 & b10 & b11).
  repeat split; congruence.
Qed.

Lemma recv_bind {A B} (m : go M A) (k : A -> go M B) :
  keeps recv_rel m -> (forall a, keeps recv_rel (k a)) -> keeps recv_rel (bind m k).
Proof. apply keeps_bind. exact recv_rel_trans. Qed.

Lemma chan_send_not_Fuel {A} (c : chan A) a : chan_send c a <> Fuel.
Proof. unfold chan_send. destruct (ch_closed c); [discriminate|]. destruct (decide _); discriminate. Qed.

Lemma chan_recv_not_Fuel {A} (c : chan A) : chan_recv c <> Fuel.
Proof. unfold chan_recv. destruct (ch_queue c); [|discriminate]. destruct (ch_closed c); discriminate. Qed.

Lemma chan_close_not_Fuel {A} (c : chan A) : chan_close c <> Fuel.
Proof. unfold chan_close. destruct (ch_closed c); discriminate. Qed.

Lemma pool_Get_not_Fuel n : pool_Get n <> Fuel.
Proof. unfold pool_Get. destruct (n <? 0); discriminate. Qed.

Ltac solve_recv :=
  intros; unfold recv_rel, same_outside; cbn; repeat split; reflexivity.

Ltac recv_auto :=
  repeat first
    [ apply recv_bind; [|intros]
    | apply (keeps_ret recv_rel recv_rel_refl)
    | apply (keeps_get recv_rel recv_rel_refl)
    | apply (keeps_blocked recv_rel)
    | apply (keeps_panic recv_rel)
    | apply (keeps_await recv_rel recv_rel_refl)
    | apply (keeps_stream_get recv_rel recv_rel_refl)
    | apply (keeps_next_case recv_rel); solve_recv
    | apply (keeps_lift recv_rel recv_rel_refl);
        first [apply chan_send_not_Fuel | apply chan_recv_not_Fuel
              | apply chan_close_not_Fuel | apply pool_Get_not_Fuel]
    | apply (keeps_modify recv_rel); solve_recv
    | assumption
    | match goal with
      | |- keeps _ (match ?x with _ => _ end) => destruct x
      | |- keeps _ (if ?x then _ else _) => destruct x
      end ].

Lemma recv_putBufferInbound b : keeps recv_rel (putBufferInbound (M:=M) b).
Proof. unfold putBufferInbound. recv_auto. Qed.

Lemma recv_getBufferInbound n : keeps recv_rel (getBufferInbound (M:=M) n).
Proof. unfold getBufferInbound, getBuffer. recv_auto. Qed.

Lemma recv_newStream ch name : keeps recv_rel (newStream (M:=M) ch name).
Proof. unfold newStream. recv_auto. Qed.

Lemma recv_stream_update r f : keeps recv_rel (stream_update (M:=M) r f).
Proof. unfold stream_update. recv_auto. Qed.

Lemma recv_channels_store ch r : keeps recv_rel (channels_store (M:=M) ch r).
Proof. unfold channels_store. recv_auto. Qed.

Lemma recv_channels_delete ch : keeps recv_rel (channels_delete (M:=M) ch).
Proof. unfold channels_delete. recv_auto. Qed.

Lemma recv_channels_lookup ch : keeps recv_rel (channels_lookup (M:=M) ch).
Proof. unfold channels_lookup. recv_auto. Qed.

Lemma recv_cancelRead r e : keeps recv_rel (Stream_cancelRead (M:=M) r e).
Proof. unfold Stream_cancelRead. pose proof recv_stream_update. recv_auto. Qed.

Lemma recv_cancelWrite r e : keeps recv_rel (Stream_cancelWrite (M:=M) r e).
Proof. unfold Stream_cancelWrite. pose proof recv_stream_update. recv_auto. Qed.

Lemma recv_Reset r : keeps recv_rel (Stream_Reset (M:=M) r).
Proof.
  unfold Stream_Reset.
  pose proof recv_stream_update. pose proof recv_cancelRead. pose proof recv_cancelWrite.
  pose proof recv_channels_delete.
  recv_auto.
Qed.

Lemma recv_dispatch ch tag b msch :
  keeps recv_rel (handleIncoming_dispatch (M:=M) ch tag b msch).
Proof.
  unfold handleIncoming_dispatch.
  pose proof recv_stream_update. pose proof recv_cancelRead. pose proof recv_cancelWrite.
  pose proof recv_channels_delete. pose proof recv_channels_store.
  pose proof recv_newStream. pose proof recv_putBufferInbound. pose proof recv_Reset.
  recv_auto.
Qed.

End ReceiveKeeps.

Section ReceiveProgress.

Context {M : Type} `{MemoryManager M}.

Implicit Types (w : World M).

(* ReadUvarint stops within its ten turns, never gives bytes back, and
   has taken at least one when it succeeds. *)
Lemma ReadUvarint_loop_shrinks fuel : forall s x r,
  fuel <> 0%nat -> 70 <= 7 * Z.of_nat fuel + s ->
  match Varint.ReadUvarint_loop fuel s x r with
  | Ret (_, err, r') =>
      (length (Varint.rd_bytes r') <= length (Varint.rd_bytes r))%nat
      /\ (err = None -> (length (Varint.rd_bytes r') < length (Varint.rd_bytes r))%nat)
  | Fuel => False
  | _ => True
  end.
Proof.
  induction fuel as [|fuel IH]; intros s x r Hfuel Hs; [congruence|].
  cbn [Varint.ReadUvarint_loop]. unfold Varint.ReadByte.
  destruct (Varint.rd_bytes r) as [|b bs] eqn:Hbytes.
  - cbn. rewrite Hbytes. split; [reflexivity|discriminate].
  - cbn [fst snd].
    destruct ((s =? 56) && (128 <=? b) || (7 * Varint.MaxLenUvarint63 <=? s)) eqn:Hov.
    + cbn. split; [lia|discriminate].
    + destruct (b <? 128).
      * destruct ((b =? 0) && (0 <? s)); cbn; (split; [lia|]); [discriminate|lia].
      * apply orb_false_iff in Hov as [_ Hlt]. apply Z.leb_gt in Hlt.
        unfold Varint.MaxLenUvarint63 in Hlt.
        specialize (IH (s + 7) (Z.lor x (u64 (Z.shiftl (Z.land b 127) s)))
                      {| Varint.rd_bytes := bs; Varint.rd_err := Varint.rd_err r |}
                      ltac:(lia) ltac:(lia)).
        destruct (Varint.ReadUvarint_loop fuel _ _ _) as [[[v err] r']| | |];
          try exact I; [|exact IH].
        cbn in IH. destruct IH as [Hle Hlt']. cbn. split; [lia|].
        intros He. specialize (Hlt' He). lia.
Qed.

Lemma recv_buf_ReadUvarint : keeps recv_rel (buf_ReadUvarint (M:=M)).
Proof.
  intros w. unfold buf_ReadUvarint, bind at 1. unfold get at 1.
  pose proof (ReadUvarint_loop_shrinks 10 0 0 (buf (mp w)) ltac:(discriminate) ltac:(lia))
    as Hrd.
  fold (Varint.ReadUvarint (buf (mp w))) in Hrd.
  unfold lift at 1. unfold bind at 1.
  destruct (Varint.ReadUvarint (buf (mp w))) as [[[v err] r']| | |]; try exact I;
    [|exact Hrd].
  cbn. destruct Hrd as [Hle _].
  unfold recv_rel, same_outside. cbn. repeat split; try reflexivity. exact Hle.
Qed.

Lemma recv_readNextHeader : keeps recv_rel (readNextHeader (M:=M)).
Proof.
  unfold readNextHeader. apply recv_bind; [apply recv_buf_ReadUvarint|].
  intros [h err]. destruct err; apply (keeps_ret recv_rel recv_rel_refl).
Qed.

Lemma recv_readNext : keeps recv_rel (readNext (M:=M)).
Proof.
  unfold readNext. apply recv_bind; [apply recv_buf_ReadUvarint|].
  intros [l err]. destruct err; [apply (keeps_ret recv_rel recv_rel_refl)|].
  apply recv_bind; [apply (keeps_get recv_rel recv_rel_refl)|]. intros w0.
  destruct (_ <? l); [apply (keeps_ret recv_rel recv_rel_refl)|].
  destruct (l =? 0); [apply (keeps_ret recv_rel recv_rel_refl)|].
  apply recv_bind; [apply recv_getBufferInbound|].
  intros [b err]. destruct err; [apply (keeps_ret recv_rel recv_rel_refl)|].
  intros w. unfold bind at 1. unfold get at 1.
  unfold io_ReadFull.
  destruct (decide _); cbn;
    unfold recv_rel, same_outside; cbn; (repeat split; try reflexivity);
    rewrite length_drop; lia.
Qed.

Lemma recv_body : keeps recv_rel (handleIncoming_body (M:=M)).
Proof.
  unfold handleIncoming_body.
  apply recv_bind; [apply recv_readNextHeader|]. intros [[chID tag] err].
  destruct err.
  { apply recv_bind; [apply (keeps_modify recv_rel); intros; unfold recv_rel, same_outside;
                      cbn; repeat split; reflexivity|].
    intros _. apply (keeps_ret recv_rel recv_rel_refl). }
  cbv zeta.
  apply recv_bind; [apply recv_readNext|]. intros [b err].
  destruct err.
  { apply recv_bind; [apply (keeps_modify recv_rel); intros; unfold recv_rel, same_outside;
                      cbn; repeat split; reflexivity|].
    intros _. apply (keeps_ret recv_rel recv_rel_refl). }
  apply recv_bind; [apply recv_channels_lookup|]. intros msch.
  apply recv_dispatch.
Qed.

(* A turn that continues has read at least the header's first byte. *)
Lemma body_Continue_shrinks w w' :
  handleIncoming_body w = Ret (Continue, w') ->
  (length (Varint.rd_bytes (buf (mp w'))) < length (Varint.rd_bytes (buf (mp w))))%nat.
Proof.
  intros Hb. unfold handleIncoming_body in Hb. unfold bind at 1 in Hb.
  destruct (readNextHeader w) as [[[[chID tag] err] w1]| | |] eqn:Hh; try discriminate.
  destruct err as [e|]; [discriminate Hb|].
  destruct (readNextHeader_inv _ _ _ _ Hh) as (h & r0 & Hr0 & -> & _ & _).
  pose proof (ReadUvarint_loop_shrinks 10 0 0 (buf (mp w)) ltac:(discriminate) ltac:(lia))
    as Hrd.
  fold (Varint.ReadUvarint (buf (mp w))) in Hrd. rewrite Hr0 in Hrd.
  destruct Hrd as [_ Hlt]. specialize (Hlt eq_refl).
  cbv zeta in Hb. unfold bind at 1 in Hb.
  pose proof (recv_readNext (consumed r0 w)) as Hn.
  destruct (readNext (consumed r0 w)) as [[[b err] w2]| | |]; try discriminate.
  destruct err as [e|]; [discriminate Hb|].
  destruct Hn as [_ Hle2]. cbn in Hle2.
  unfold channels_lookup, bind at 1 in Hb. unfold get, bind, ret in Hb.
  match type of Hb with
  | handleIncoming_dispatch ?ch ?t ?b ?m ?w = _ =>
      pose proof (recv_dispatch (M:=M) ch t b m w) as Hd; rewrite Hb in Hd
  end.
  destruct Hd as [_ Hle3]. lia.
Qed.

Lemma handleIncoming_loop_not_Fuel fuel : forall w,
  (length (Varint.rd_bytes (buf (mp w))) < fuel)%nat ->
  handleIncoming_loop fuel w <> Fuel.
Proof.
  induction fuel as [|fuel IH]; intros w Hlen; [lia|].
  cbn [handleIncoming_loop]. unfold bind.
  pose proof (recv_body w) as Hk.
  destruct (handleIncoming_body w) as [[c w1]| | |] eqn:Hb; try discriminate;
    [|destruct Hk].
  destruct c; [|discriminate].
  apply IH. pose proof (body_Continue_shrinks _ _ Hb). lia.
Qed.

End ReceiveProgress.

Section ReceiveLoopWhole.

Context {M : Type} `{MemoryManager M}.

Implicit Types (w : World M).

Lemma anything_refl w : anything w w.
Proof. exact I. Qed.

Lemma anything_trans w1 w2 w3 : anything w1 w2 -> anything w2 w3 -> anything w1 w3.
Proof. intros _ _. exact I. Qed.

Ltac any_auto :=
  repeat first
    [ apply (keeps_bind anything anything_trans); [|intros]
    | apply (keeps_ret anything anything_refl)
    | apply (keeps_get anything anything_refl)
    | apply (keeps_blocked anything)
    | apply (keeps_panic anything)
    | apply (keeps_await anything anything_refl)
    | apply (keeps_stream_get anything anything_refl)
    | apply (keeps_modify anything); intros; exact I
    | assumption
    | match goal with
      | |- keeps _ (match ?x with _ => _ end) => destruct x
      | |- keeps _ (if ?x then _ else _) => destruct x
      end ].

Lemma cancel_all_ends l : keeps anything (cancel_all (M:=M) l).
Proof.
  induction l as [|[ch r] l IH]; cbn [cancel_all]; [apply (keeps_ret anything anything_refl)|].
  unfold Stream_cancelRead, Stream_cancelWrite, stream_update. any_auto.
Qed.

Lemma cleanup_ends : keeps anything (cleanup (M:=M)).
Proof.
  unfold cleanup, closeNoWait. pose proof cancel_all_ends as Hc. any_auto; apply Hc.
Qed.



(** X2: every turn of the receive loop that continues has consumed at
    least one byte of the transport; so with more turns allowed than
    bytes pending, handleIncoming never stops for lack of turns. *)
Theorem handleIncoming_progress fuel w :
  (forall w', handleIncoming_body w = Ret (Continue, w') ->
     (length (Varint.rd_bytes (buf (mp w'))) < length (Varint.rd_bytes (buf (mp w))))%nat)
  /\ ((length (Varint.rd_bytes (buf (mp w))) < fuel)%nat ->
      handleIncoming fuel w <> Fuel).
Proof.
  split; [intros w'; apply body_Continue_shrinks|].
  intros Hlen. unfold handleIncoming, bind.
  pose proof (handleIncoming_loop_not_Fuel fuel w Hlen) as Hl.
  destruct (handleIncoming_loop fuel w) as [[[] w1]| | |]; try discriminate; [|congruence].
  pose proof (cleanup_ends w1) as Hc.
  destruct (cleanup w1) as [[[] w2]| | |]; try discriminate. destruct Hc.
Qed.

End ReceiveLoopWhole.


Lemma handleIncoming_progress_witness :
  Nat.lt (length (Varint.rd_bytes (buf (mp (session_live [2; 1; 65] [CaseSend; CaseSend])))))
    4%nat
  /\ handleIncoming 4 (session_live [2; 1; 65] [CaseSend; CaseSend]) <> Fuel.
Proof.
  split; [vm_compute; lia|].
  apply (handleIncoming_progress 4 (session_live [2; 1; 65] [CaseSend; CaseSend])).
  vm_compute. lia.
Defined.

(** ** sendMsg: credits and the write queue *)

Section SendAccounting.

Context {M : Type} `{MemoryManager M}.

Implicit Types (w : World M).

Lemma snoc_unit (l : list unit) : l ++ [tt] = tt :: l.
Proof. induction l as [|[] l IH]; [reflexivity|]. cbn. rewrite IH. reflexivity. Qed.

Lemma set_bufOut_same (m : Multiplex M) c :
  c = bufOut m -> set_bufOut c m = m.
Proof. intros ->. destruct m. reflexivity. Qed.

(* A slot taken and given back leaves the credit channel as it was. *)
Lemma chan_slot_round_trip (c c1 : chan unit) o c2 :
  chan_send c tt = Ret c1 -> chan_recv c1 = Ret (o, c2) -> c2 = c.
Proof.
  unfold chan_send, chan_recv. destruct c as [q cap cl]. cbn.
  destruct cl; [discriminate|]. destruct (decide _); [|discriminate].
  intros Heq. inversion Heq; subst; clear Heq. cbn.
  rewrite snoc_unit. intros Heq. inversion Heq; subst. reflexivity.
Qed.

Lemma getBufferOutbound_inv2 w len timeout cancel b err w' :
  getBufferOutbound len timeout cancel w = Ret ((b, err), w') ->
  streams w' = streams w
  /\ MaxMessageSize w' = MaxMessageSize w /\ MaxBuffers w' = MaxBuffers w
  /\ match err with
     | None => exists c1, chan_send (bufOut (mp w)) tt = Ret c1
                          /\ mp w' = set_bufOut c1 (mp w)
     | Some e => mp w' = mp w
                 /\ (e = errTimeout /\ sig_ready timeout = true
                     \/ e = ErrStreamClosed /\ sig_ready cancel = true
                     \/ e = ErrShutdown /\ shutdown (mp w) = true)
     end.
Proof.
  unfold getBufferOutbound, next_case, bind at 1.
  destruct (sched w) as [|c cs]; [discriminate|].
  destruct c; cbv beta iota.
  - unfold get at 1. unfold bind at 1. unfold lift at 1. unfold bind at 1.
    cbn [mp with_sched].
    destruct (chan_send (bufOut (mp w)) tt) as [c'| | |] eqn:Hsend; try discriminate.
    unfold modify_mp, emit, modify, bind at 1. unfold bind at 1.
    unfold getBuffer, lift, bind, ret.
    destruct (pool_Get len); try discriminate.
    intros Heq. inversion Heq; subst. cbn. repeat split. exists c'. split; reflexivity.
  - unfold await, blocked, lift, ret, bind.
    destruct (sig_ready timeout) eqn:Hr; try discriminate.
    intros Heq. inversion Heq; subst. cbn. repeat split. left. split; reflexivity.
  - unfold await, blocked, lift, ret, bind.
    destruct (sig_ready cancel) eqn:Hr; try discriminate.
    intros Heq. inversion Heq; subst. cbn. repeat split. right. left. split; reflexivity.
  - unfold get at 1. unfold bind at 1. cbn [mp with_sched].
    unfold await, blocked, lift, ret, bind.
    destruct (shutdown (mp w)) eqn:Hr; try discriminate.
    intros Heq. inversion Heq; subst. cbn. repeat split. right. right. split; reflexivity.
Qed.

Lemma putBufferOutbound_inv2 w b w' :
  putBufferOutbound b w = Ret (tt, w') ->
  streams w' = streams w
  /\ MaxMessageSize w' = MaxMessageSize w /\ MaxBuffers w' = MaxBuffers w
  /\ exists o c2, chan_recv (bufOut (mp w)) = Ret (o, c2) /\ mp w' = set_bufOut c2 (mp w).
Proof.
  unfold putBufferOutbound, get, bind at 1. unfold lift, bind at 1.
  destruct (chan_recv (bufOut (mp w))) as [[o c']| | |] eqn:Hrecv; try discriminate.
  unfold modify_mp, emit, modify, bind.
  intros Heq. inversion Heq; subst. cbn. repeat split. exists o, c'. split; reflexivity.
Qed.

Lemma sendMsg_abort_inv2 w w0 (ready : bool) b (e : error) r w' c1 :
  chan_send (bufOut (mp w0)) tt = Ret c1 ->
  mp w = set_bufOut c1 (mp w0) ->
  bind (await ready) (fun _ => bind (putBufferOutbound b) (fun _ => ret (Some e))) w
    = Ret (r, w') ->
  ready = true /\ r = Some e /\ mp w' = mp w0 /\ streams w' = streams w
  /\ MaxMessageSize w' = MaxMessageSize w /\ MaxBuffers w' = MaxBuffers w.
Proof.
  intros Hsend Hmp.
  unfold await, blocked, lift, bind at 1.
  destruct ready; [|discriminate]. unfold ret at 1.
  unfold bind at 1.
  destruct (putBufferOutbound b w) as [[[] w1]| | |] eqn:Hput; try discriminate.
  unfold ret. intros Heq. inversion Heq; subst.
  destruct (putBufferOutbound_inv2 _ _ _ Hput) as (Hs & Hm1 & Hm2 & o & c2 & Hrecv & Hmp').
  rewrite Hmp in Hrecv. cbn in Hrecv.
  pose proof (chan_slot_round_trip _ _ _ _ Hsend Hrecv) as ->.
  repeat split; auto.
  rewrite Hmp', Hmp. cbn.
  transitivity (set_bufOut (bufOut (mp w0)) (mp w0)); [reflexivity|].
  apply set_bufOut_same. reflexivity.
Qed.

(* sendMsg, by its result. *)
Lemma sendMsg_inv w timeout cancel header data r w' :
  0 <= header < 2 ^ 64 ->
  sendMsg timeout cancel header data w = Ret (r, w') ->
  streams w' = streams w
  /\ MaxMessageSize w' = MaxMessageSize w /\ MaxBuffers w' = MaxBuffers w
  /\ match r with
     | None =>
         ch_closed (bufOut (mp w)) = false /\ ch_closed (writeCh (mp w)) = false
         /\ mp w' =
            set_writeCh (mkChan (ch_queue (writeCh (mp w)) ++ [wire_frame header data])
                                (ch_cap (writeCh (mp w))) false)
              (set_bufOut (mkChan (ch_queue (bufOut (mp w)) ++ [tt])
                                  (ch_cap (bufOut (mp w))) false)
                 (mp w))
     | Some e =>
         mp w' = mp w
         /\ (e = errTimeout /\ sig_ready timeout = true
             \/ e = ErrStreamClosed /\ sig_ready cancel = true
             \/ e = ErrShutdown /\ shutdown (mp w) = true)
     end.
Proof.
  intros Hh. unfold sendMsg, bind at 1.
  destruct (getBufferOutbound _ timeout cancel w) as [[[b err] w1]| | |] eqn:Hget;
    try discriminate.
  destruct (getBufferOutbound_inv2 _ _ _ _ _ _ _ Hget) as (Hs1 & Hm1 & Hm2 & Hres).
  destruct err as [e|].
  - unfold ret. intros Heq. inversion Heq; subst. auto.
  - destruct Hres as (c1 & Hsend & Hmp1).
    pose proof (getBufferOutbound_length _ _ _ _ _ _ Hget ltac:(lia)) as Hlen.
    replace (Z.to_nat (Z.of_nat (length data) + 20)) with (length data + 20)%nat in Hlen by lia.
    pose proof (sendMsg_fill_frame b header data Hh ltac:(lia)) as Hfill.
    cbv zeta in Hfill. rewrite Hfill.
    unfold lift at 1. unfold bind at 1.
    unfold next_case, bind at 1.
    destruct (sched w1) as [|c cs]; [discriminate|].
    unfold get at 1. unfold bind at 1.
    destruct c.
    + unfold lift at 1. unfold bind at 1. cbn [mp with_sched].
      destruct (chan_send (writeCh (mp w1)) _) as [c'| | |] eqn:Hw; try discriminate.
      unfold modify_mp, modify, bind, ret.
      intros Heq. inversion Heq; subst. cbn [streams with_mp with_sched MaxMessageSize MaxBuffers mp].
      repeat split; auto.
      * unfold chan_send in Hsend. destruct (ch_closed (bufOut (mp w))); [discriminate|reflexivity].
      * rewrite Hmp1 in Hw. cbn in Hw. unfold chan_send in Hw.
        destruct (ch_closed (writeCh (mp w))); [discriminate|reflexivity].
      * rewrite Hmp1 in *. cbn in Hw.
        unfold chan_send in Hsend, Hw.
        destruct (ch_closed (bufOut (mp w))); [discriminate|].
        destruct (decide _); [|discriminate].
        destruct (ch_closed (writeCh (mp w))); [discriminate|].
        destruct (decide _); [|discriminate].
        inversion Hsend; subst. inversion Hw; subst.
        rewrite take_app_length. reflexivity.
    + intros Hrun.
      apply (sendMsg_abort_inv2 (with_sched cs w1) w _ _ _ _ _ c1 Hsend Hmp1) in Hrun
        as (Hready & -> & Hmp & Hs & Hm1' & Hm2').
      cbn in Hs, Hm1', Hm2'. repeat split; try congruence. left. auto.
    + intros Hrun.
      apply (sendMsg_abort_inv2 (with_sched cs w1) w _ _ _ _ _ c1 Hsend Hmp1) in Hrun
        as (Hready & -> & Hmp & Hs & Hm1' & Hm2').
      cbn in Hs, Hm1', Hm2'. repeat split; try congruence. right. left. auto.
    + intros Hrun. cbn [mp with_sched] in Hrun.
      apply (sendMsg_abort_inv2 (with_sched cs w1) w _ _ _ _ _ c1 Hsend Hmp1) in Hrun
        as (Hready & -> & Hmp & Hs & Hm1' & Hm2').
      cbn in Hs, Hm1', Hm2'. repeat split; try congruence. right. right.
      split; [reflexivity|]. rewrite Hmp1 in Hready. exact Hready.
Qed.

(** X3: sendMsg either puts exactly one frame, header varint, length
    varint and payload, at the tail of the write queue and holds one
    more outbound slot, or returns an error and leaves the session as it
    was (the slot taken is given back, nothing is queued); the error is
    errTimeout, ErrStreamClosed or ErrShutdown, each only when its
    channel is ready. It never touches the streams. *)
Theorem sendMsg_accounting w timeout cancel header data r w' :
  0 <= header < 2 ^ 64 ->
  sendMsg timeout cancel header data w = Ret (r, w') ->
  streams w' = streams w
  /\ match r with
     | None =>
         mp w' =
           set_writeCh (mkChan (ch_queue (writeCh (mp w)) ++ [wire_frame header data])
                               (ch_cap (writeCh (mp w))) false)
             (set_bufOut (mkChan (ch_queue (bufOut (mp w)) ++ [tt])
                                 (ch_cap (bufOut (mp w))) false)
                (mp w))
     | Some e =>
         mp w' = mp w
         /\ (e = errTimeout /\ sig_ready timeout = true
             \/ e = ErrStreamClosed /\ sig_ready cancel = true
             \/ e = ErrShutdown /\ shutdown (mp w) = true)
     end.
Proof.
  intros Hh Hrun.
  destruct (sendMsg_inv _ _ _ _ _ _ _ Hh Hrun) as (Hs & _ & _ & Hres).
  split; [exact Hs|]. destruct r; [exact Hres|]. apply Hres.
Qed.

End SendAccounting.

Lemma sendMsg_accounting_witness :
  exists w',
    sendMsg (Sig false) SigNil (header_of 0 messageTag) [104; 105]
      (session0 [] [CaseSend; CaseSend]) = Ret (None, w')
    /\ ch_queue (writeCh (mp w')) = [[2; 2; 104; 105]].
Proof.
  eval_as (sendMsg (M:=nullMemoryManager) (Sig false) SigNil (header_of 0 messageTag)
             [104; 105] (session0 [] [CaseSend; CaseSend])) Hrun.
  assert (Hh : 0 <= header_of 0 messageTag < 2 ^ 64)
    by (vm_compute; split; [discriminate|reflexivity]).
  destruct (sendMsg_accounting (session0 [] [CaseSend; CaseSend]) (Sig false) SigNil
              (header_of 0 messageTag) [104; 105] None _ Hh Hrun) as [_ Hmp].
  eexists. split; [exact Hrun|]. rewrite Hmp. vm_compute. reflexivity.
Defined.

(** ** A frame on the wire *)

Section WireFrame.

Context {M : Type} `{MemoryManager M}.

Implicit Types (w : World M).

Lemma frame_header_read w h data rest e :
  buf (mp w) = {| Varint.rd_bytes := wire_frame h data ++ rest; Varint.rd_err := e |} ->
  0 <= h < 2 ^ 63 ->
  readNextHeader w =
    Ret ((Z.shiftr h 3, Z.land h 7, None),
         consumed {| Varint.rd_bytes :=
                       Varint.ToUvarint (u64 (Z.of_nat (length data))) ++ data ++ rest;
                     Varint.rd_err := e |} w).
Proof.
  intros Hbuf Hh. apply readNextHeader_ret. rewrite Hbuf. unfold wire_frame.
  rewrite <- !app_assoc. apply ReadUvarint_ToUvarint. exact Hh.
Qed.

(* The receiver's side of a frame with a payload. *)
Lemma frame_decode_payload w h data rest e sch' :
  buf (mp w) = {| Varint.rd_bytes := wire_frame h data ++ rest; Varint.rd_err := e |} ->
  0 <= h < 2 ^ 63 ->
  0 < Z.of_nat (length data) <= u64 (MaxMessageSize w) ->
  Z.of_nat (length data) < 2 ^ 63 ->
  sched w = CaseSend :: sch' ->
  ch_closed (bufIn (mp w)) = false ->
  (length (ch_queue (bufIn (mp w))) < ch_cap (bufIn (mp w)))%nat ->
  exists w1 w2,
    readNextHeader w = Ret ((Z.shiftr h 3, Z.land h 7, None), w1)
    /\ readNext w1 = Ret ((data, None), w2)
    /\ mp w2 = set_buf {| Varint.rd_bytes := rest; Varint.rd_err := e |}
                 (set_bufIn (mkChan (ch_queue (bufIn (mp w)) ++ [tt])
                                    (ch_cap (bufIn (mp w))) false) (mp w))
    /\ streams w2 = streams w
    /\ sched w2 = sch'
    /\ MaxMessageSize w2 = MaxMessageSize w.
Proof.
  intros Hbuf Hh Hlen Hl63 Hs Hc Hroom.
  pose proof (frame_header_read w h data rest e Hbuf Hh) as Hhead.
  set (r0 := {| Varint.rd_bytes := _ ++ data ++ rest; Varint.rd_err := e |}) in *.
  assert (Hu : u64 (Z.of_nat (length data)) = Z.of_nat (length data)).
  { apply u64_small. assert (2 ^ 63 <= 2 ^ 64) by (apply Z.pow_le_mono_r; lia). lia. }
  assert (Hr : Varint.ReadUvarint (buf (mp (consumed r0 w))) =
               Ret (Z.of_nat (length data), None,
                    {| Varint.rd_bytes := data ++ rest; Varint.rd_err := e |})).
  { cbn [consumed mp with_trace with_mp buf set_buf]. subst r0. rewrite Hu.
    apply ReadUvarint_ToUvarint. lia. }
  pose proof (readNext_payload (consumed r0 w) _ _ sch' data rest Hr
                ltac:(exact Hlen) Hl63 Hs Hc Hroom eq_refl eq_refl) as Hn.
  eexists _, _. split; [exact Hhead|]. split; [exact Hn|].
  repeat split.
Qed.

(* The receiver's side of a frame without payload. *)
Lemma frame_decode_empty w h rest e :
  buf (mp w) = {| Varint.rd_bytes := wire_frame h [] ++ rest; Varint.rd_err := e |} ->
  0 <= h < 2 ^ 63 ->
  exists w1 w2,
    readNextHeader w = Ret ((Z.shiftr h 3, Z.land h 7, None), w1)
    /\ readNext w1 = Ret (([], None), w2)
    /\ mp w2 = set_buf {| Varint.rd_bytes := rest; Varint.rd_err := e |} (mp w)
    /\ streams w2 = streams w
    /\ sched w2 = sched w
    /\ MaxMessageSize w2 = MaxMessageSize w.
Proof.
  intros Hbuf Hh.
  pose proof (frame_header_read w h [] rest e Hbuf Hh) as Hhead.
  set (r0 := {| Varint.rd_bytes := _ ++ [] ++ rest; Varint.rd_err := e |}) in *.
  assert (Hr : Varint.ReadUvarint (buf (mp (consumed r0 w))) =
               Ret (0, None, {| Varint.rd_bytes := rest; Varint.rd_err := e |})).
  { cbn [consumed mp with_trace with_mp buf set_buf]. subst r0.
    change (u64 (Z.of_nat (length (@nil Z)))) with 0. cbn [app].
    apply ReadUvarint_ToUvarint. lia. }
  pose proof (readNext_empty (consumed r0 w) _ Hr) as Hn.
  eexists _, _. split; [exact Hhead|]. split; [exact Hn|].
  repeat split.
Qed.

(** X4: a frame goes over the wire unchanged: what sendMsg writes into
    its buffer for a header below 2^63 and a payload of at most
    MaxMessageSize bytes, put in front of the receiver's reader, is read
    by readNextHeader as (header >> 3, header & 7) and by readNext as the
    same payload, and the reader is left at the byte after the frame. *)
Theorem frame_round_trip w h data b rest e sch' :
  0 <= h < 2 ^ 63 ->
  (length data + 20 <= length b)%nat ->
  Z.of_nat (length data) <= u64 (MaxMessageSize w) ->
  Z.of_nat (length data) < 2 ^ 63 ->
  (data <> [] ->
   sched w = CaseSend :: sch' /\ ch_closed (bufIn (mp w)) = false
   /\ (length (ch_queue (bufIn (mp w))) < ch_cap (bufIn (mp w)))%nat) ->
  exists b' n,
    sendMsg_fill b h data = Ret (b', n)
    /\ (buf (mp w) = {| Varint.rd_bytes := take n b' ++ rest; Varint.rd_err := e |} ->
        exists w1 w2,
          readNextHeader w = Ret ((Z.shiftr h 3, Z.land h 7, None), w1)
          /\ readNext w1 = Ret ((data, None), w2)
          /\ buf (mp w2) = {| Varint.rd_bytes := rest; Varint.rd_err := e |}).
Proof.
  intros Hh Hb Hlen Hl63 Hslot.
  assert (Hh64 : 0 <= h < 2 ^ 64).
  { assert (2 ^ 63 <= 2 ^ 64) by (apply Z.pow_le_mono_r; lia). lia. }
  pose proof (sendMsg_fill_frame b h data Hh64 Hb) as Hfill. cbv zeta in Hfill.
  eexists _, _. split; [exact Hfill|].
  rewrite take_app_length. fold (wire_frame h data). intros Hbuf.
  destruct data as [|d data].
  - destruct (frame_decode_empty w h rest e Hbuf Hh) as (w1 & w2 & H1 & H2 & Hmp & _).
    exists w1, w2. split; [exact H1|]. split; [exact H2|]. rewrite Hmp. reflexivity.
  - destruct (Hslot ltac:(discriminate)) as (Hs & Hc & Hroom).
    destruct (frame_decode_payload w h (d :: data) rest e sch' Hbuf Hh
                ltac:(cbn [length] in *; lia) Hl63 Hs Hc Hroom)
      as (w1 & w2 & H1 & H2 & Hmp & _).
    exists w1, w2. split; [exact H1|]. split; [exact H2|]. rewrite Hmp. reflexivity.
Qed.

End WireFrame.

Lemma frame_round_trip_witness :
  exists w1 w2,
    readNextHeader (session0 [26; 2; 104; 105; 7] [CaseSend])
      = Ret ((3, 2, None), w1)
    /\ readNext w1 = Ret (([104; 105], None), w2)
    /\ buf (mp w2) = {| Varint.rd_bytes := [7]; Varint.rd_err := io_EOF |}.
Proof.
  destruct (frame_round_trip (session0 [26; 2; 104; 105; 7] [CaseSend])
              (header_of 3 messageTag) [104; 105] (repeat 0 22) [7] io_EOF []
              ltac:(vm_compute; split; [discriminate|reflexivity])
              ltac:(vm_compute; lia)
              ltac:(vm_compute; discriminate)
              ltac:(vm_compute; reflexivity)
              ltac:(intros _; vm_compute; repeat split; lia))
    as (b' & n & Hfill & Hdec).
  vm_compute in Hfill. inversion Hfill; subst b' n; clear Hfill.
  destruct (Hdec eq_refl) as (w1 & w2 & H1 & H2 & H3).
  exists w1, w2. split; [exact H1|]. split; [exact H2|exact H3].
Defined.

(** ** Opening streams *)

Section OpenStreamMore.

Context {M : Type} `{MemoryManager M}.

Implicit Types (w : World M).

Lemma header_of_u64 sid tag : 0 <= tag <= 7 -> 0 <= header_of sid tag < 2 ^ 64.
Proof.
  intros Htag. unfold header_of. apply lor_lt_pow2; [apply u64_range|].
  assert (2 ^ 3 <= 2 ^ 64) by (apply Z.pow_le_mono_r; lia).
  change (2 ^ 3) with 8 in *. lia.
Qed.

(* NewNamedStream on a session whose map is not nil, by its result. *)
Lemma NewNamedStream_inv w m ctx name r w' :
  channels (mp w) = Some m ->
  NewNamedStream ctx name w = Ret (r, w') ->
  nextID (mp w') = u64 (nextID (mp w) + 1)
  /\ streams w' =
       streams w ++ [mkStream (mkStreamID (nextID (mp w)) true) (registered_name name w)
                       (make_chan (Z.to_nat (bufMax (mp w))))
                       makePipeDeadline makePipeDeadline false false None None]
  /\ ((r = (Some (length (streams w)), None)
       /\ ch_queue (writeCh (mp w')) =
            ch_queue (writeCh (mp w))
              ++ [wire_frame (header_of (nextID (mp w)) newStreamTag)
                    (registered_name name w)]
       /\ ch_queue (bufOut (mp w')) = ch_queue (bufOut (mp w)) ++ [tt]
       /\ channels (mp w') =
            Some (<[mkStreamID (nextID (mp w)) true := length (streams w)]> m))
      \/ (exists e, r = (None, Some e))
         /\ writeCh (mp w') = writeCh (mp w) /\ bufOut (mp w') = bufOut (mp w)).
Proof.
  intros Hm Hrun.
  rewrite (NewNamedStream_unfold w m ctx name Hm) in Hrun.
  unfold bind in Hrun.
  destruct (sendMsg _ _ _ _ (registered name w)) as [[err w2]| | |] eqn:Hsend;
    try discriminate.
  destruct (sendMsg_inv _ _ _ _ _ _ _ (header_of_u64 _ newStreamTag ltac:(unfold newStreamTag; lia))
              Hsend) as (Hs & _ & _ & Hres).
  destruct err as [e|].
  - destruct Hres as [Hmp Hwhy].
    assert (Hr : exists e', r = (None, Some e') /\ w' = w2).
    { destruct (decide (e = errTimeout)) as [->|Hne].
      - destruct Hwhy as [[_ Hready]|[[Hx _]|[Hx _]]]; try discriminate.
        cbn in Hready. apply bool_decide_eq_true in Hready.
        destruct (ctx_err ctx) as [e'|] eqn:Hctx; [|congruence].
        unfold ret in Hrun. inversion Hrun; subst. eauto.
      - unfold ret in Hrun. inversion Hrun; subst. eauto. }
    destruct Hr as (e' & -> & ->).
    rewrite Hs, Hmp. unfold registered. cbn. repeat split.
    right. split; [eauto|]. split; reflexivity.
  - destruct Hres as (_ & _ & Hmp).
    unfold ret in Hrun. inversion Hrun; subst.
    rewrite Hs, Hmp. unfold registered. cbn. rewrite Hm. repeat split.
    left. repeat split.
Qed.

(** X5: a NewNamedStream call that returns a stream returns the one it
    has just made: its id is (nextID, true), its name the one given, or
    the decimal id when none was given; it is in the map under that id;
    and the NewStream frame for it, header (nextID << 3) | 0 and the
    name as payload, is at the tail of the write queue. *)
Theorem NewNamedStream_opens w m ctx name s w' :
  channels (mp w) = Some m ->
  NewNamedStream ctx name w = Ret ((Some s, None), w') ->
  s = length (streams w)
  /\ streams w' !! s =
       Some (mkStream (mkStreamID (nextID (mp w)) true)
               (if decide (name = []) then fmt_Sprint (nextID (mp w)) else name)
               (make_chan (Z.to_nat (bufMax (mp w))))
               makePipeDeadline makePipeDeadline false false None None)
  /\ channels (mp w') = Some (<[mkStreamID (nextID (mp w)) true := s]> m)
  /\ ch_queue (writeCh (mp w')) =
       ch_queue (writeCh (mp w))
         ++ [wire_frame (header_of (nextID (mp w)) newStreamTag)
               (if decide (name = []) then fmt_Sprint (nextID (mp w)) else name)].
Proof.
  intros Hm Hrun.
  destruct (NewNamedStream_inv w m ctx name _ w' Hm Hrun) as (_ & Hst & Hres).
  destruct Hres as [(Hr & Hq & _ & Hch)|((e & Hr) & _)]; [|discriminate].
  inversion Hr; subst s. split; [reflexivity|].
  split; [rewrite Hst; apply list_lookup_middle; reflexivity|].
  split; [exact Hch|exact Hq].
Qed.

(** X6: every call to NewNamedStream on a session whose map is not nil
    takes the next id, whether the send succeeds or not, and never
    returns neither a stream nor an error; so two calls in a row get the
    ids n and n+1 modulo 2^64. *)
Theorem NewNamedStream_takes_id w m ctx name r w' :
  channels (mp w) = Some m ->
  NewNamedStream ctx name w = Ret (r, w') ->
  nextID (mp w') = u64 (nextID (mp w) + 1)
  /\ r <> (None, None)
  /\ exists st, streams w' !! length (streams w) = Some st
                /\ st_id st = mkStreamID (nextID (mp w)) true.
Proof.
  intros Hm Hrun.
  destruct (NewNamedStream_inv w m ctx name r w' Hm Hrun) as (Hid & Hst & Hres).
  split; [exact Hid|]. split.
  - destruct Hres as [(-> & _)|((e & ->) & _)]; discriminate.
  - eexists. split; [rewrite Hst; apply list_lookup_middle; reflexivity|reflexivity].
Qed.

End OpenStreamMore.

Lemma NewNamedStream_opens_witness :
  exists w',
    NewNamedStream (mkContext None) [] (session0 [] [CaseSend; CaseSend])
      = Ret ((Some 0%nat, None), w')
    /\ ch_queue (writeCh (mp w')) = [[0; 1; 48]].
Proof.
  eval_as (NewNamedStream (M:=nullMemoryManager) (mkContext None) []
             (session0 [] [CaseSend; CaseSend])) Hrun.
  destruct (NewNamedStream_opens (session0 [] [CaseSend; CaseSend]) ∅ (mkContext None) []
              0%nat _ eq_refl Hrun) as (_ & _ & _ & Hq).
  eexists. split; [exact Hrun|]. rewrite Hq. vm_compute. reflexivity.
Defined.

Lemma NewNamedStream_takes_id_witness :
  exists r w',
    NewNamedStream (mkContext (Some context_Canceled)) [115] (session0 [] [CaseTimeout])
      = Ret (r, w')
    /\ nextID (mp w') = 1.
Proof.
  eval_as (NewNamedStream (M:=nullMemoryManager) (mkContext (Some context_Canceled)) [115]
             (session0 [] [CaseTimeout])) Hrun.
  destruct (NewNamedStream_takes_id (session0 [] [CaseTimeout]) ∅
              (mkContext (Some context_Canceled)) [115] _ _ eq_refl Hrun) as (Hid & _).
  eexists _, _. split; [exact Hrun|]. rewrite Hid. vm_compute. reflexivity.
Defined.

(** ** The send loop *)

Section SendLoop.

Context {M : Type} `{MemoryManager M}.

Implicit Types (w : World M).

(* A turn that takes a frame from the queue and writes it. *)
Lemma handleOutgoing_body_writes w sch' data q qo :
  sched w = CaseSend :: sch' ->
  ch_queue (writeCh (mp w)) = data :: q ->
  shutdown (mp w) = false ->
  ch_queue (bufOut (mp w)) = tt :: qo ->
  handleOutgoing_body None w =
    Ret (Continue,
         with_trace (fun t => t ++ [EvPutBufferOutbound])
           (with_mp (fun m =>
                       set_bufOut (mkChan qo (ch_cap (bufOut m)) (ch_closed (bufOut m)))
                         (set_con (mkConn (conn_out (con m) ++ data) (conn_closed (con m)))
                            (set_writeCh (mkChan q (ch_cap (writeCh m))
                                                 (ch_closed (writeCh m))) m)))
              (with_sched sch' w))).
Proof.
  intros Hs Hq Hsd Hqo.
  destruct w as [a b0 m0 d e0 f].
  destruct m0 as [c0 c1 c2 c3 c4 c5 c6 c7 [wq wcap wcl] c9 c10 c11 [bq bcap bcl] c13 c14].
  cbn in Hs, Hq, Hsd, Hqo. subst.
  unfold with_trace, with_mp, with_sched. cbn. rewrite <- ?app_assoc. reflexivity.
Qed.


Lemma handleOutgoing_writes_all frames : forall w q sch' wrs',
  ch_queue (writeCh (mp w)) = frames ++ q ->
  shutdown (mp w) = false ->
  (length frames <= length (ch_queue (bufOut (mp w))))%nat ->
  sched w = repeat CaseSend (length frames) ++ sch' ->
  exists w',
    handleOutgoing (repeat None (length frames) ++ wrs') w = handleOutgoing wrs' w'
    /\ conn_out (con (mp w')) = conn_out (con (mp w)) ++ concat frames
    /\ conn_closed (con (mp w')) = conn_closed (con (mp w))
    /\ ch_queue (writeCh (mp w')) = q
    /\ ch_queue (bufOut (mp w'))
       = drop (length frames) (ch_queue (bufOut (mp w)))
    /\ shutdown (mp w') = false
    /\ sched w' = sch'
    /\ streams w' = streams w
    /\ channels (mp w') = channels (mp w).
Proof.
  induction frames as [|data frames IH]; intros w q sch' wrs' Hq Hsd Hslots Hs.
  - exists w. cbn in *. rewrite app_nil_r. repeat split; auto.
  - cbn [length repeat app] in *.
    destruct (ch_queue (bufOut (mp w))) as [|[] qo] eqn:Hqo; [cbn in Hslots; lia|].
    pose proof (handleOutgoing_body_writes w _ data (frames ++ q) qo Hs Hq Hsd Hqo) as Hb.
    cbn [handleOutgoing]. rewrite (bind_Ret _ _ _ _ _ Hb). cbv beta iota.
    set (w1 := with_trace _ _) in *.
    destruct (IH w1 q sch' wrs') as (w' & Hrun & Hout & Hcl & Hwq & Hbq & Hsd' & Hs' & Hst & Hch).
    + reflexivity.
    + exact Hsd.
    + subst w1. cbn. cbn in Hslots. lia.
    + reflexivity.
    + exists w'. split; [exact Hrun|].
      rewrite Hout, Hcl, Hwq, Hbq, Hsd', Hs', Hst, Hch. subst w1. cbn.
      rewrite <- app_assoc. repeat split.
Qed.

(** X7: the send loop writes the queued frames to the connection in the
    order they were queued, each one whole, and gives back one outbound
    slot per frame: with n frames at the head of the write queue, no
    shutdown and every write accepted, after n turns the connection
    carries their concatenation and n slots are free again. *)
Theorem handleOutgoing_in_order frames w q sch' wrs' :
  ch_queue (writeCh (mp w)) = frames ++ q ->
  shutdown (mp w) = false ->
  (length frames <= length (ch_queue (bufOut (mp w))))%nat ->
  sched w = repeat CaseSend (length frames) ++ sch' ->
  exists w',
    handleOutgoing (repeat None (length frames) ++ wrs') w = handleOutgoing wrs' w'
    /\ conn_out (con (mp w')) = conn_out (con (mp w)) ++ concat frames
    /\ ch_queue (writeCh (mp w')) = q
    /\ length (ch_queue (bufOut (mp w')))
       = (length (ch_queue (bufOut (mp w))) - length frames)%nat.
Proof.
  intros Hq Hsd Hslots Hs.
  destruct (handleOutgoing_writes_all frames w q sch' wrs' Hq Hsd Hslots Hs)
    as (w' & Hrun & Hout & _ & Hwq & Hbq & _).
  exists w'. split; [exact Hrun|]. split; [exact Hout|]. split; [exact Hwq|].
  rewrite Hbq, length_drop. reflexivity.
Qed.


(** X9: once the shutdown signal is raised the send loop writes nothing
    more: whatever it selects and whatever the transport would answer,
    its next turn returns and the bytes the connection carries are the
    same. *)
Theorem handleOutgoing_after_shutdown w wr c w' :
  shutdown (mp w) = true ->
  handleOutgoing_body wr w = Ret (c, w') ->
  c = Return /\ con (mp w') = con (mp w).
Proof.
  intros Hsd.
  unfold handleOutgoing_body, next_case, bind at 1.
  destruct (sched w) as [|cs sch']; [discriminate|].
  unfold get at 1. unfold bind at 1.
  destruct cs; try discriminate.
  - cbn [mp with_sched]. unfold lift at 1. unfold bind at 1.
    destruct (chan_recv (writeCh (mp w))) as [[o c']| | |]; try discriminate.
    unfold modify_mp at 1. unfold modify, bind at 1.
    unfold doWriteMsg, isShutdown, get, bind at 1. unfold bind at 1. unfold ret at 1.
    unfold bind at 1. cbn [mp with_mp with_sched shutdown set_writeCh]. rewrite Hsd.
    unfold ret at 1. unfold bind at 1.
    match goal with
    | |- context [putBufferOutbound ?d ?w0] =>
        destruct (putBufferOutbound d w0) as [[[] w1]| | |] eqn:Hput; try discriminate
    end.
    destruct (putBufferOutbound_inv2 _ _ _ Hput) as (_ & _ & _ & o' & c2 & _ & Hmp).
    unfold emit, modify, bind, ret. intros Heq. inversion Heq; subst.
    split; [reflexivity|]. cbn. rewrite Hmp. reflexivity.
  - cbn [mp with_sched]. rewrite Hsd. unfold await, ret, bind.
    intros Heq. inversion Heq; subst. split; reflexivity.
Qed.

End SendLoop.

Lemma handleOutgoing_in_order_witness :
  exists w',
    handleOutgoing [None; None; None]
      (with_mp (fun m => set_bufOut (mkChan [tt; tt] 4 false)
                           (set_writeCh (mkChan [[2; 1; 65]; [4; 0]] 16 false) m))
         (session0 [] [CaseSend; CaseSend; CaseShutdown]))
    = handleOutgoing [None] w'
    /\ conn_out (con (mp w')) = [2; 1; 65; 4; 0].
Proof.
  destruct (handleOutgoing_in_order [[2; 1; 65]; [4; 0]]
              (with_mp (fun m => set_bufOut (mkChan [tt; tt] 4 false)
                                   (set_writeCh (mkChan [[2; 1; 65]; [4; 0]] 16 false) m))
                 (session0 [] [CaseSend; CaseSend; CaseShutdown]))
              [] [CaseShutdown] [None] eq_refl eq_refl ltac:(cbn; lia) eq_refl)
    as (w' & Hrun & Hout & _).
  exists w'. split; [exact Hrun|exact Hout].
Defined.


Lemma handleOutgoing_after_shutdown_witness :
  exists w',
    handleOutgoing_body None
      (with_mp (fun m => set_shutdown true
                           (set_bufOut (mkChan [tt] 4 false)
                              (set_writeCh (mkChan [[2; 1; 65]] 16 false) m)))
         (session0 [] [CaseSend]))
    = Ret (Return, w')
    /\ conn_out (con (mp w')) = [].
Proof.
  eval_as (handleOutgoing_body (M:=nullMemoryManager) None
             (with_mp (fun m => set_shutdown true
                                  (set_bufOut (mkChan [tt] 4 false)
                                     (set_writeCh (mkChan [[2; 1; 65]] 16 false) m)))
                (session0 [] [CaseSend]))) Hrun.
  destruct (handleOutgoing_after_shutdown
              (with_mp (fun m => set_shutdown true
                                   (set_bufOut (mkChan [tt] 4 false)
                                      (set_writeCh (mkChan [[2; 1; 65]] 16 false) m)))
                 (session0 [] [CaseSend]))
              None Return _ eq_refl Hrun) as [_ Hcon].
  eexists. split; [exact Hrun|]. rewrite Hcon. reflexivity.
Defined.

(** ** The end of the session *)

Section SessionEnd.

Context {M : Type} `{MemoryManager M}.

Implicit Types (w : World M) (st : Stream).

Lemma cancelled_from_refl st : cancelled_from st st.
Proof. unfold cancelled_from. repeat split; auto. Qed.

Lemma cancelled_from_trans st1 st2 st3 :
  cancelled_from st1 st2 -> cancelled_from st2 st3 -> cancelled_from st1 st3.
Proof.
  unfold cancelled_from.
  intros (a1 & a2 & a3 & a4 & a5 & a6 & a7) (b1 & b2 & b3 & b4 & b5 & b6 & b7).
  repeat split; try congruence; auto.
Qed.

Lemma Forall2_cancelled_refl (l : list Stream) : Forall2 cancelled_from l l.
Proof. induction l; constructor; [apply cancelled_from_refl|assumption]. Qed.

Lemma cancel_rel_refl w : cancel_rel w w.
Proof. unfold cancel_rel. repeat split. apply Forall2_cancelled_refl. Qed.

Lemma cancel_rel_trans w1 w2 w3 : cancel_rel w1 w2 -> cancel_rel w2 w3 -> cancel_rel w1 w3.
Proof.
  unfold cancel_rel. intros (a1 & a2 & a3) (b1 & b2 & b3).
  split; [congruence|]. split; [congruence|].
  eapply Forall2_trans; [|exact a3|exact b3]. apply cancelled_from_trans.
Qed.

Lemma cancel_rel_lookup w w' r st :
  cancel_rel w w' -> streams w !! r = Some st ->
  exists st', streams w' !! r = Some st' /\ cancelled_from st st'.
Proof.
  intros (_ & _ & Hall) Hs. eapply Forall2_lookup_l; eassumption.
Qed.

(* One stream's signals raised, an event logged. *)
Lemma cancel_rel_step w r st st' (f : list event -> list event) :
  streams w !! r = Some st -> cancelled_from st st' ->
  cancel_rel w (with_streams (fun l => <[r := st']> l) (with_trace f w)).
Proof.
  intros Hs Hc. unfold cancel_rel. cbn. split; [reflexivity|]. split; [reflexivity|].
  rewrite <- (list_insert_id (streams w) r st Hs) at 1.
  apply Forall2_insert; [apply Forall2_cancelled_refl|exact Hc].
Qed.

Lemma cancelRead_st_from e st : cancelled_from st (cancelRead_st e st).
Proof.
  unfold cancelled_from, cancelRead_st.
  destruct (readCancel st) eqn:Hr; cbn; repeat split; auto.
Qed.

Lemma cancelWrite_st_from e st : cancelled_from st (cancelWrite_st e st).
Proof.
  unfold cancelled_from, cancelWrite_st.
  destruct (writeCancel st) eqn:Hr; cbn; repeat split; auto.
Qed.

Lemma cancelRead_st_raised e st : readCancel (cancelRead_st e st) = true.
Proof. unfold cancelRead_st. destruct (readCancel st) eqn:Hr; [exact Hr|reflexivity]. Qed.

Lemma cancelWrite_st_raised e st : writeCancel (cancelWrite_st e st) = true.
Proof. unfold cancelWrite_st. destruct (writeCancel st) eqn:Hr; [exact Hr|reflexivity]. Qed.

(* cancelRead and cancelWrite of a stream that is not there panic. *)
Lemma Stream_cancelRead_inv w r e w' :
  Stream_cancelRead r e w = Ret (tt, w') ->
  exists st, streams w !! r = Some st
    /\ w' = with_streams (fun l => <[r := cancelRead_st e st]> l)
              (with_trace (fun t => t ++ [EvCancelRead (st_id st)]) w).
Proof.
  intros Hrun. destruct (streams w !! r) as [st|] eqn:Hs.
  - rewrite (Stream_cancelRead_ret w r st e Hs) in Hrun. inversion Hrun. eauto.
  - unfold Stream_cancelRead, bind, stream_get in Hrun. rewrite Hs in Hrun. discriminate.
Qed.

Lemma Stream_cancelWrite_inv w r e w' :
  Stream_cancelWrite r e w = Ret (tt, w') ->
  exists st, streams w !! r = Some st
    /\ w' = with_streams (fun l => <[r := cancelWrite_st e st]> l)
              (with_trace (fun t => t ++ [EvCancelWrite (st_id st)]) w).
Proof.
  intros Hrun. destruct (streams w !! r) as [st|] eqn:Hs.
  - rewrite (Stream_cancelWrite_ret w r st e Hs) in Hrun. inversion Hrun. eauto.
  - unfold Stream_cancelWrite, bind, stream_get in Hrun. rewrite Hs in Hrun. discriminate.
Qed.

(* The range loop of cleanup: every stream it visits ends with both
   signals raised, and nothing but signals changes. *)
Lemma cancel_all_inv (l : list (streamID * nat)) : forall w w',
  cancel_all l w = Ret (tt, w') ->
  cancel_rel w w'
  /\ forall ch r, In (ch, r) l ->
       exists st', streams w' !! r = Some st'
                   /\ readCancel st' = true /\ writeCancel st' = true.
Proof.
  induction l as [|[ch0 r0] l IH]; intros w w' Hrun.
  - cbn in Hrun. inversion Hrun; subst. split; [apply cancel_rel_refl|].
    intros ch r [].
  - cbn [cancel_all] in Hrun. unfold bind at 1 in Hrun.
    destruct (Stream_cancelRead r0 ErrStreamReset w) as [[[] w1]| | |] eqn:H1;
      try discriminate.
    destruct (Stream_cancelRead_inv _ _ _ _ H1) as (st & Hs & ->).
    unfold bind at 1 in Hrun.
    match type of Hrun with
    | match Stream_cancelWrite ?r ?e ?w0 with _ => _ end = _ =>
        destruct (Stream_cancelWrite r e w0) as [[[] w2]| | |] eqn:H2; try discriminate
    end.
    destruct (Stream_cancelWrite_inv _ _ _ _ H2) as (st1 & Hs1 & ->).
    assert (Hr0 : (r0 < length (streams w))%nat) by (eapply lookup_lt_Some; exact Hs).
    cbn in Hs1. rewrite list_lookup_insert_eq in Hs1 by exact Hr0.
    inversion Hs1; subst st1; clear Hs1.
    destruct (IH _ _ Hrun) as (Hrel & Hin).
    set (w1 := with_streams _ (with_trace _ w)) in *.
    set (w2 := with_streams _ (with_trace _ w1)) in *.
    assert (Hrel1 : cancel_rel w w1)
      by (apply cancel_rel_step with (st := st); [exact Hs|apply cancelRead_st_from]).
    assert (Hs1 : streams w1 !! r0 = Some (cancelRead_st ErrStreamReset st))
      by (subst w1; cbn; apply list_lookup_insert_eq; exact Hr0).
    assert (Hrel2 : cancel_rel w1 w2)
      by (apply cancel_rel_step with (st := cancelRead_st ErrStreamReset st);
          [exact Hs1|apply cancelWrite_st_from]).
    split; [eapply cancel_rel_trans; [exact Hrel1|];
            eapply cancel_rel_trans; [exact Hrel2|exact Hrel]|].
    intros ch r [Heq|Hl]; [|apply (Hin ch r Hl)].
    inversion Heq; subst ch r.
    assert (Hs2 : streams w2 !! r0
                  = Some (cancelWrite_st ErrStreamReset (cancelRead_st ErrStreamReset st))).
    { subst w2. cbn. apply list_lookup_insert_eq.
      subst w1. cbn. rewrite length_insert. exact Hr0. }
    destruct (cancel_rel_lookup _ _ _ _ Hrel Hs2) as (st' & Hs' & Hfrom).
    exists st'. split; [exact Hs'|].
    destruct Hfrom as (_ & _ & _ & _ & _ & Hrc & Hwc). split.
    + apply Hrc. destruct (cancelWrite_st_from ErrStreamReset
                             (cancelRead_st ErrStreamReset st))
        as (_ & _ & _ & _ & _ & Hk & _).
      apply Hk. apply cancelRead_st_raised.
    + apply Hwc. apply cancelWrite_st_raised.
Qed.

(* closeNoWait, by cases on the shutdown signal. *)
Lemma closeNoWait_cases w :
  closeNoWait w =
    Ret (tt, if shutdown (mp w) then w
             else with_mp (set_shutdown true)
                    (with_trace (fun t => t ++ [EvConClose])
                       (with_mp (fun m => set_con (mkConn (conn_out (con m)) true) m)
                          (with_trace (fun t => t ++ [EvReleaseMemory (reservedMemory (mp w))])
                             (with_mp (fun m => set_memoryManager
                                                  (mm_ReleaseMemory (memoryManager m)
                                                     (reservedMemory (mp w))) m) w))))).
Proof.
  unfold closeNoWait, bind at 1. unfold get at 1.
  destruct (shutdown (mp w)); reflexivity.
Qed.

(* cleanup, from its result. *)
Lemma cleanup_inv w w' :
  cleanup w = Ret (tt, w') ->
  closed (mp w) = false
  /\ closed (mp w') = true
  /\ shutdown (mp w') = true
  /\ channels (mp w') = None
  /\ shutdownErr (mp w') = Some (shutdown_cause w)
  /\ conn_out (con (mp w')) = conn_out (con (mp w))
  /\ (shutdown (mp w) = false -> conn_closed (con (mp w')) = true)
  /\ writeCh (mp w') = writeCh (mp w)
  /\ nstreams (mp w') = nstreams (mp w)
  /\ bufIn (mp w') = bufIn (mp w)
  /\ Forall2 cancelled_from (streams w) (streams w')
  /\ forall m ch r, channels (mp w) = Some m -> m !! ch = Some r ->
       exists st', streams w' !! r = Some st'
                   /\ readCancel st' = true /\ writeCancel st' = true.
Proof.
  intros Hrun. unfold cleanup in Hrun.
  rewrite (bind_Ret _ _ _ _ _ (closeNoWait_cases w)) in Hrun.
  set (w1 := if shutdown (mp w) then w else _) in Hrun.
  assert (H1 : closed (mp w1) = closed (mp w) /\ channels (mp w1) = channels (mp w)
               /\ shutdownErr (mp w1) = shutdownErr (mp w) /\ streams w1 = streams w
               /\ shutdown (mp w1) = true
               /\ conn_out (con (mp w1)) = conn_out (con (mp w))
               /\ (shutdown (mp w) = false -> conn_closed (con (mp w1)) = true)
               /\ writeCh (mp w1) = writeCh (mp w)
               /\ nstreams (mp w1) = nstreams (mp w)
               /\ bufIn (mp w1) = bufIn (mp w)).
  { subst w1. destruct (shutdown (mp w)) eqn:Hsd; cbn; repeat split; auto; discriminate. }
  destruct H1 as (Hcl1 & Hch1 & He1 & Hst1 & Hsd1 & Hout1 & Hcc1 & Hwq1 & Hns1 & Hbi1).
  clearbody w1.
  unfold get at 1 in Hrun. unfold bind at 1 in Hrun.
  unfold modify_mp at 1 in Hrun. unfold modify, bind at 1 in Hrun.
  unfold bind at 1 in Hrun.
  match type of Hrun with
  | match cancel_all ?l ?w0 with _ => _ end = _ =>
      destruct (cancel_all l w0) as [[[] w3]| | |] eqn:Hc; try discriminate
  end.
  destruct (cancel_all_inv _ _ _ Hc) as ((Hmp3 & _ & Hall3) & Hin3).
  cbn [mp with_mp streams] in Hmp3, Hall3.
  unfold get at 1 in Hrun. unfold bind at 1 in Hrun.
  assert (Hfin : forall w4, mp w4 = set_shutdownErr (Some (shutdown_cause w)) (mp w3) ->
                   streams w4 = streams w3 ->
                   (let! w := get in
                    if closed (mp w) then panic else modify_mp (set_closed true)) w4
                     = Ret (tt, w') ->
                   closed (mp w) = false
                   /\ mp w' = set_closed true (set_shutdownErr (Some (shutdown_cause w)) (mp w3))
                   /\ streams w' = streams w3).
  { intros w4 Hmp4 Hst4 Hr. unfold get, bind in Hr. rewrite Hmp4 in Hr.
    cbn [closed set_shutdownErr] in Hr. rewrite Hmp3 in Hr.
    cbn [closed set_channels] in Hr. rewrite Hcl1 in Hr.
    destruct (closed (mp w)); [discriminate|].
    unfold modify_mp, modify in Hr. inversion Hr; subst w'.
    cbn. rewrite Hmp4, Hmp3. cbn. split; [reflexivity|]. split; [reflexivity|exact Hst4]. }
  assert (Hres : closed (mp w) = false
                 /\ mp w' = set_closed true
                              (set_shutdownErr (Some (shutdown_cause w)) (mp w3))
                 /\ streams w' = streams w3).
  { assert (He3 : shutdownErr (mp w3) = shutdownErr (mp w))
      by (rewrite Hmp3; cbn; exact He1).
    destruct (shutdownErr (mp w3)) as [e|] eqn:He.
    - unfold ret at 1 in Hrun. unfold bind at 1 in Hrun.
      apply (Hfin w3); [|reflexivity|exact Hrun].
      unfold shutdown_cause. rewrite <- He3.
      destruct (mp w3); cbn in *. rewrite He. reflexivity.
    - unfold modify_mp at 1 in Hrun. unfold modify, bind at 1 in Hrun.
      apply (Hfin (with_mp (set_shutdownErr (Some ErrShutdown)) w3));
        [|reflexivity|exact Hrun].
      unfold shutdown_cause. rewrite <- He3. reflexivity. }
  destruct Hres as (Hcl & Hmp' & Hst').
  split; [exact Hcl|]. rewrite Hmp', Hmp3, Hst'. cbn.
  rewrite Hsd1, Hout1, Hwq1, Hns1, Hbi1.
  repeat split; auto.
  - rewrite <- Hst1. exact Hall3.
  - intros m ch r Hm Hl. apply (Hin3 ch r).
    rewrite Hch1, Hm. apply list_elem_of_In, elem_of_map_to_list. exact Hl.
Qed.

(* handleIncoming is its loop followed by cleanup. *)
Lemma handleIncoming_inv fuel w w' :
  handleIncoming fuel w = Ret (tt, w') ->
  exists w0, handleIncoming_loop fuel w = Ret (tt, w0) /\ cleanup w0 = Ret (tt, w').
Proof.
  unfold handleIncoming, bind. intros Hrun.
  destruct (handleIncoming_loop fuel w) as [[[] w0]| | |]; try discriminate.
  exists w0. split; [reflexivity|exact Hrun].
Qed.



(* The calls of the API on a session that has ended. *)
Lemma api_after_end w ctx name sch' :
  closed (mp w) = true -> shutdown (mp w) = true -> channels (mp w) = None ->
  NewNamedStream ctx name w = Ret ((None, Some ErrShutdown), w)
  /\ Close w = Ret (None, w)
  /\ IsClosed w = Ret (true, w)
  /\ Accept (with_sched (CaseShutdown :: sch') w)
     = Ret ((None, shutdownErr (mp w)), with_sched sch' w).
Proof.
  intros Hcl Hsd Hch. split; [|split; [|split]].
  - unfold NewNamedStream, bind, get. rewrite Hch. reflexivity.
  - unfold Close. rewrite (bind_Ret _ _ _ _ _ (closeNoWait_cases w)). rewrite Hsd.
    unfold get, bind. rewrite Hcl. reflexivity.
  - unfold IsClosed, get, bind. rewrite Hcl. reflexivity.
  - unfold Accept, next_case, bind at 1. cbn [sched with_sched].
    unfold get at 1. unfold bind at 1. cbn [mp with_sched]. rewrite Hcl.
    reflexivity.
Qed.

(** X12: once handleIncoming has returned the session refuses new work and
    never parks a caller: NewNamedStream returns ErrShutdown without
    taking an id, making a stream or queueing a frame; Close returns nil
    at once; IsClosed is true; and an Accept that takes the closed case
    returns no stream and the shutdown cause, which is not nil. *)
Theorem session_after_end fuel w w' ctx name sch' :
  handleIncoming fuel w = Ret (tt, w') ->
  NewNamedStream ctx name w' = Ret ((None, Some ErrShutdown), w')
  /\ Close w' = Ret (None, w')
  /\ IsClosed w' = Ret (true, w')
  /\ exists e, Accept (with_sched (CaseShutdown :: sch') w')
               = Ret ((None, Some e), with_sched sch' w').
Proof.
  intros Hrun.
  destruct (handleIncoming_inv fuel w w' Hrun) as (w0 & _ & Hclean).
  destruct (cleanup_inv w0 w' Hclean) as (_ & Hcl & Hsd & Hch & Herr & _).
  destruct (api_after_end w' ctx name sch' Hcl Hsd Hch) as (H1 & H2 & H3 & H4).
  split; [exact H1|]. split; [exact H2|]. split; [exact H3|].
  exists (shutdown_cause w0). rewrite H4, Herr. reflexivity.
Qed.

(** X13: closeNoWait always returns with the shutdown signal raised, and
    it acts once: on a session not shut down it releases the reserved
    memory in one call and then closes the connection; on a session shut
    down already, and so on every later call, it changes nothing and
    releases nothing. It never writes to the connection. *)
Theorem closeNoWait_once w :
  exists w1,
    closeNoWait w = Ret (tt, w1)
    /\ closeNoWait w1 = Ret (tt, w1)
    /\ shutdown (mp w1) = true
    /\ conn_out (con (mp w1)) = conn_out (con (mp w))
    /\ if shutdown (mp w) then w1 = w
       else trace w1 = trace w ++ [EvReleaseMemory (reservedMemory (mp w)); EvConClose]
            /\ conn_closed (con (mp w1)) = true
            /\ memoryManager (mp w1)
               = mm_ReleaseMemory (memoryManager (mp w)) (reservedMemory (mp w)).
Proof.
  eexists. split; [apply closeNoWait_cases|].
  destruct (shutdown (mp w)) eqn:Hsd.
  - split; [rewrite closeNoWait_cases, Hsd; reflexivity|].
    split; [exact Hsd|]. split; reflexivity.
  - split; [rewrite closeNoWait_cases; reflexivity|].
    split; [reflexivity|]. split; [reflexivity|].
    cbn. rewrite <- app_assoc. repeat split.
Qed.

End SessionEnd.



Lemma session_after_end_witness :
  exists w',
    handleIncoming 1 (session_live [] []) = Ret (tt, w')
    /\ NewNamedStream (mkContext None) [110] w' = Ret ((None, Some ErrShutdown), w')
    /\ Close w' = Ret (None, w').
Proof.
  eval_as (handleIncoming 1 (session_live [] [])) Hrun.
  destruct (session_after_end 1 (session_live [] []) _ (mkContext None) [110] [] Hrun)
    as (Hnew & Hclose & _).
  eexists. split; [exact Hrun|]. split; [exact Hnew|exact Hclose].
Defined.

(** ** Frames from the peer, from the bytes on the wire *)

Section Arrivals.

Context {M : Type} `{MemoryManager M}.

Implicit Types (w : World M) (st : Stream).

Lemma next_case_ret w c cs : sched w = c :: cs -> next_case w = Ret (c, with_sched cs w).
Proof. intros Hs. unfold next_case. rewrite Hs. reflexivity. Qed.

Lemma newStream_ret w id name :
  newStream id name w =
    Ret (length (streams w),
         with_streams (fun l => l ++ [mkStream id name (make_chan (Z.to_nat (bufMax (mp w))))
                                        makePipeDeadline makePipeDeadline
                                        false false None None]) w).
Proof. reflexivity. Qed.

Lemma channels_store_ret w ch r m :
  channels (mp w) = Some m ->
  channels_store ch r w = Ret (tt, with_mp (set_channels (Some (<[ch := r]> m))) w).
Proof. intros Hm. unfold channels_store, bind, get. rewrite Hm. reflexivity. Qed.

(* The header of a frame for stream sid with tag 0..7, as the wire
   carries it. *)
Lemma header_of_wire sid tag :
  0 <= sid < 2 ^ 60 -> 0 <= tag <= 7 ->
  0 <= header_of sid tag < 2 ^ 63
  /\ Z.shiftr (header_of sid tag) 3 = sid /\ Z.land (header_of sid tag) 7 = tag.
Proof.
  intros Hsid Htag. split.
  - apply (header_of_range sid tag 60); [exact Hsid|lia|exact Htag].
  - apply header_of_split; [|exact Htag].
    assert (2 ^ 60 <= 2 ^ 61) by (apply Z.pow_le_mono_r; lia). lia.
Qed.

(* An open channel whose only change is one slot taken and given back. *)
Lemma chan_unit_back (c : chan unit) :
  ch_closed c = false ->
  mkChan (ch_queue c) (ch_cap c) false = c.
Proof. destruct c as [q cap cl]. cbn. intros ->. reflexivity. Qed.

(* NewStream for a key that is not in the map. *)
Lemma dispatch_newStream w ch b m q sch' :
  channels (mp w) = Some m ->
  ch_queue (bufIn (mp w)) = tt :: q ->
  sched w = CaseSend :: sch' ->
  ch_closed (nstreams (mp w)) = false ->
  (length (ch_queue (nstreams (mp w))) < ch_cap (nstreams (mp w)))%nat ->
  handleIncoming_dispatch ch newStreamTag b None w =
    Ret (Continue,
         with_mp (set_nstreams (mkChan (ch_queue (nstreams (mp w)) ++ [length (streams w)])
                                       (ch_cap (nstreams (mp w))) false))
           (with_sched sch'
              (with_mp (set_channels (Some (<[ch := length (streams w)]> m)))
                 (with_streams
                    (fun l => l ++ [mkStream ch b (make_chan (Z.to_nat (bufMax (mp w))))
                                      makePipeDeadline makePipeDeadline
                                      false false None None])
                    (with_trace (fun t => t ++ [EvPutBufferInbound])
                       (with_mp (set_bufIn (mkChan q (ch_cap (bufIn (mp w)))
                                                   (ch_closed (bufIn (mp w))))) w)))))).
Proof.
  intros Hm Hq Hs Hc Hroom. unfold handleIncoming_dispatch.
  cbn [Z.eqb newStreamTag].
  rewrite (bind_Ret _ _ _ _ _ (putBufferInbound_ret w b q Hq)).
  set (w1 := with_trace _ _).
  rewrite (bind_Ret _ _ _ _ _ (newStream_ret w1 ch b)).
  set (w2 := with_streams _ w1).
  assert (Hm2 : channels (mp w2) = Some m) by exact Hm.
  rewrite (bind_Ret _ _ _ _ _ (channels_store_ret w2 ch _ m Hm2)).
  set (w3 := with_mp _ w2).
  assert (Hs3 : sched w3 = CaseSend :: sch') by exact Hs.
  rewrite (bind_Ret _ _ _ _ _ (next_case_ret w3 _ _ Hs3)).
  unfold get at 1. unfold bind at 1.
  cbn [mp with_sched]. unfold chan_send.
  change (nstreams (mp w3)) with (nstreams (mp w)). rewrite Hc.
  destruct (decide _) as [_|Hn]; [|lia].
  reflexivity.
Qed.

(* Message for a key that is not in the map. *)
Lemma dispatch_message_unknown w ch b q :
  ch_queue (bufIn (mp w)) = tt :: q ->
  handleIncoming_dispatch ch messageTag b None w =
    Ret (Continue,
         with_trace (fun t => t ++ [EvPutBufferInbound])
           (with_mp (set_bufIn (mkChan q (ch_cap (bufIn (mp w)))
                                       (ch_closed (bufIn (mp w))))) w)).
Proof.
  intros Hq. unfold handleIncoming_dispatch.
  cbn [Z.eqb messageTag closeTag newStreamTag resetTag Pos.eqb].
  rewrite (bind_Ret _ _ _ _ _ (putBufferInbound_ret w b q Hq)). reflexivity.
Qed.

(* The key and the switch value of a NewStream or Message header. *)
Lemma low_tags tag :
  0 <= tag <= 2 ->
  negb (Z.land tag 1 =? 0) = (tag =? 1)
  /\ tag + Z.land tag 1 = (if tag =? 0 then newStreamTag else messageTag).
Proof.
  intros Htag. assert (Hc : tag = 0 \/ tag = 1 \/ tag = 2) by lia.
  destruct Hc as [->|[->| ->]]; split; reflexivity.
Qed.

(* The turn of the loop for a frame with a payload, up to the switch. *)
Lemma body_of_frame w sid tag data rest e sch' :
  buf (mp w) = {| Varint.rd_bytes := wire_frame (header_of sid tag) data ++ rest;
                  Varint.rd_err := e |} ->
  0 <= sid < 2 ^ 60 -> 0 <= tag <= 7 ->
  data <> [] ->
  Z.of_nat (length data) <= u64 (MaxMessageSize w) ->
  Z.of_nat (length data) < 2 ^ 63 ->
  sched w = CaseSend :: sch' ->
  ch_closed (bufIn (mp w)) = false ->
  (length (ch_queue (bufIn (mp w))) < ch_cap (bufIn (mp w)))%nat ->
  exists w2,
    handleIncoming_body w =
      handleIncoming_dispatch (mkStreamID sid (negb (Z.land tag 1 =? 0)))
        (tag + Z.land tag 1) data
        (match channels (mp w) with
         | Some m => m !! mkStreamID sid (negb (Z.land tag 1 =? 0))
         | None => None
         end) w2
    /\ mp w2 = set_buf {| Varint.rd_bytes := rest; Varint.rd_err := e |}
                 (set_bufIn (mkChan (tt :: ch_queue (bufIn (mp w)))
                                    (ch_cap (bufIn (mp w))) false) (mp w))
    /\ streams w2 = streams w
    /\ sched w2 = sch'.
Proof.
  intros Hbuf Hsid Htag Hdata Hlen Hl63 Hs Hc Hroom.
  destruct (header_of_wire sid tag Hsid Htag) as (Hh & Hsh & Hland).
  assert (Hpos : 0 < Z.of_nat (length data)) by (destruct data; [congruence|cbn; lia]).
  destruct (frame_decode_payload w _ data rest e sch' Hbuf Hh (conj Hpos Hlen) Hl63 Hs Hc Hroom)
    as (w1 & w2 & H1 & H2 & Hmp & Hst & Hsch & _).
  rewrite Hsh, Hland in H1.
  destruct (handleIncoming_body_dispatch w sid tag w1 data w2 H1 H2) as (Hbody & _ & _).
  cbv zeta in Hbody.
  exists w2. split; [|split; [|split; [exact Hst|exact Hsch]]].
  - rewrite Hbody, Hmp. reflexivity.
  - rewrite Hmp, snoc_unit. reflexivity.
Qed.

(** X14: a NewStream frame from the peer, read from the bytes on the wire:
    for a stream id below 2^60 with a name of 1 to MaxMessageSize
    bytes, a key (id, false) that is not in the map, a free inbound slot
    and room in the accept queue, the turn of the receive loop makes a
    stream with that key and that name, stores it in the map, puts it at
    the tail of the accept queue, gives the slot of the name back and
    leaves the reader at the byte after the frame; and when nothing was
    waiting in the accept queue, the next Accept returns this stream. *)
Theorem peer_opens_stream w sid name rest e m sch' :
  buf (mp w) = {| Varint.rd_bytes := wire_frame (header_of sid newStreamTag) name ++ rest;
                  Varint.rd_err := e |} ->
  0 <= sid < 2 ^ 60 ->
  name <> [] ->
  Z.of_nat (length name) <= u64 (MaxMessageSize w) ->
  Z.of_nat (length name) < 2 ^ 63 ->
  channels (mp w) = Some m ->
  m !! mkStreamID sid false = None ->
  sched w = CaseSend :: CaseSend :: CaseSend :: sch' ->
  ch_closed (bufIn (mp w)) = false ->
  (length (ch_queue (bufIn (mp w))) < ch_cap (bufIn (mp w)))%nat ->
  ch_closed (nstreams (mp w)) = false ->
  (length (ch_queue (nstreams (mp w))) < ch_cap (nstreams (mp w)))%nat ->
  exists w1,
    handleIncoming_body w = Ret (Continue, w1)
    /\ streams w1 =
         streams w ++ [mkStream (mkStreamID sid false) name
                         (make_chan (Z.to_nat (bufMax (mp w))))
                         makePipeDeadline makePipeDeadline false false None None]
    /\ channels (mp w1) = Some (<[mkStreamID sid false := length (streams w)]> m)
    /\ ch_queue (nstreams (mp w1)) = ch_queue (nstreams (mp w)) ++ [length (streams w)]
    /\ bufIn (mp w1) = bufIn (mp w)
    /\ buf (mp w1) = {| Varint.rd_bytes := rest; Varint.rd_err := e |}
    /\ (ch_queue (nstreams (mp w)) = [] ->
        exists w2, Accept w1 = Ret ((Some (length (streams w)), None), w2)
                   /\ ch_queue (nstreams (mp w2)) = []
                   /\ streams w2 = streams w1).
Proof.
  intros Hbuf Hsid Hname Hlen Hl63 Hm Hnone Hs Hc Hroom Hnc Hnroom.
  destruct (body_of_frame w sid newStreamTag name rest e _ Hbuf Hsid
              ltac:(unfold newStreamTag; lia) Hname Hlen Hl63 Hs Hc Hroom)
    as (w2 & Hbody & Hmp & Hst & Hsch).
  change (negb (Z.land newStreamTag 1 =? 0)) with false in Hbody.
  change (newStreamTag + Z.land newStreamTag 1) with newStreamTag in Hbody.
  rewrite Hm, Hnone in Hbody.
  rewrite (dispatch_newStream w2 _ name m (ch_queue (bufIn (mp w))) (CaseSend :: sch'))
    in Hbody.
  2: { rewrite Hmp. exact Hm. }
  2: { rewrite Hmp. reflexivity. }
  2: { exact Hsch. }
  2: { rewrite Hmp. exact Hnc. }
  2: { rewrite Hmp. exact Hnroom. }
  eexists. split; [exact Hbody|].
  cbn [streams mp with_mp with_sched with_streams with_trace].
  rewrite Hmp, Hst.
  cbn [channels nstreams bufIn buf bufMax set_nstreams set_channels set_bufIn set_buf
       ch_queue ch_cap ch_closed].
  split; [reflexivity|]. split; [reflexivity|]. split; [reflexivity|].
  split; [apply chan_unit_back; exact Hc|]. split; [reflexivity|].
  intros Hq0. rewrite Hq0. cbn [app].
  eexists. split; [|split].
  - unfold Accept, next_case, bind at 1. cbn [sched with_mp with_sched with_streams with_trace].
    unfold get at 1. unfold bind at 1.
    cbn [mp with_mp with_sched nstreams set_nstreams].
    unfold chan_recv. cbn [ch_queue ch_cap ch_closed].
    unfold lift at 1. unfold bind at 1. reflexivity.
  - reflexivity.
  - cbn [streams with_mp with_sched with_streams with_trace]. rewrite Hst. reflexivity.
Qed.

(** X15: a Message frame with a payload for a stream that is not in the
    map, read from the bytes on the wire: the turn of the receive loop
    reads the whole frame, drops the payload and gives its inbound slot
    back, and goes on with the streams, the map and the count of held
    slots as they were and the reader at the byte after the frame. *)
Theorem message_for_unknown_stream w sid tag data rest e m sch' :
  buf (mp w) = {| Varint.rd_bytes := wire_frame (header_of sid tag) data ++ rest;
                  Varint.rd_err := e |} ->
  0 <= sid < 2 ^ 60 ->
  1 <= tag <= 2 ->
  data <> [] ->
  Z.of_nat (length data) <= u64 (MaxMessageSize w) ->
  Z.of_nat (length data) < 2 ^ 63 ->
  channels (mp w) = Some m ->
  m !! mkStreamID sid (tag =? 1) = None ->
  sched w = CaseSend :: sch' ->
  ch_closed (bufIn (mp w)) = false ->
  (length (ch_queue (bufIn (mp w))) < ch_cap (bufIn (mp w)))%nat ->
  exists w1,
    handleIncoming_body w = Ret (Continue, w1)
    /\ streams w1 = streams w
    /\ mp w1 = set_buf {| Varint.rd_bytes := rest; Varint.rd_err := e |} (mp w)
    /\ sched w1 = sch'.
Proof.
  intros Hbuf Hsid Htag Hdata Hlen Hl63 Hm Hnone Hs Hc Hroom.
  destruct (low_tags tag ltac:(lia)) as (Hkey & Hround).
  replace (tag =? 0) with false in Hround by (symmetry; apply Z.eqb_neq; lia).
  destruct (body_of_frame w sid tag data rest e _ Hbuf Hsid ltac:(lia) Hdata Hlen Hl63
              Hs Hc Hroom)
    as (w2 & Hbody & Hmp & Hst & Hsch).
  rewrite Hkey, Hround, Hm, Hnone in Hbody.
  rewrite (dispatch_message_unknown w2 _ data (ch_queue (bufIn (mp w)))) in Hbody
    by (rewrite Hmp; reflexivity).
  eexists. split; [exact Hbody|].
  cbn [streams mp sched with_mp with_trace].
  split; [exact Hst|]. split; [|exact Hsch].
  rewrite Hmp. cbn [bufIn set_buf set_bufIn ch_cap ch_closed].
  revert Hc. destruct (mp w) as [c0 c1 c2 c3 c4 c5 c6 c7 c8 c9 c10 [iq icap icl] c12 c13 c14].
  cbn. intros ->. reflexivity.
Qed.

(** X16: a Message frame with a payload for a stream that is in the map
    and whose queue has room, read from the bytes on the wire: the turn
    of the receive loop puts exactly the payload at the tail of that
    stream's queue, behind what is queued already, keeps the inbound slot
    it took for it (one more is held afterwards), leaves the map alone
    and the reader at the byte after the frame. *)
Theorem message_delivered w sid tag data rest e m s st sch' :
  buf (mp w) = {| Varint.rd_bytes := wire_frame (header_of sid tag) data ++ rest;
                  Varint.rd_err := e |} ->
  0 <= sid < 2 ^ 60 ->
  1 <= tag <= 2 ->
  data <> [] ->
  Z.of_nat (length data) <= u64 (MaxMessageSize w) ->
  Z.of_nat (length data) < 2 ^ 63 ->
  channels (mp w) = Some m ->
  m !! mkStreamID sid (tag =? 1) = Some s ->
  streams w !! s = Some st ->
  sched w = CaseSend :: CaseSend :: sch' ->
  ch_closed (bufIn (mp w)) = false ->
  (length (ch_queue (bufIn (mp w))) < ch_cap (bufIn (mp w)))%nat ->
  ch_closed (dataIn st) = false ->
  (length (ch_queue (dataIn st)) < ch_cap (dataIn st))%nat ->
  exists w1,
    handleIncoming_body w = Ret (Continue, w1)
    /\ streams w1 =
         <[s := set_dataIn (mkChan (ch_queue (dataIn st) ++ [data])
                                   (ch_cap (dataIn st)) false) st]> (streams w)
    /\ ch_queue (bufIn (mp w1)) = tt :: ch_queue (bufIn (mp w))
    /\ channels (mp w1) = channels (mp w)
    /\ buf (mp w1) = {| Varint.rd_bytes := rest; Varint.rd_err := e |}
    /\ sched w1 = sch'.
Proof.
  intros Hbuf Hsid Htag Hdata Hlen Hl63 Hm Hlook Hst0 Hs Hc Hroom Hdc Hdroom.
  destruct (low_tags tag ltac:(lia)) as (Hkey & Hround).
  replace (tag =? 0) with false in Hround by (symmetry; apply Z.eqb_neq; lia).
  destruct (body_of_frame w sid tag data rest e _ Hbuf Hsid ltac:(lia) Hdata Hlen Hl63
              Hs Hc Hroom)
    as (w2 & Hbody & Hmp & Hst & Hsch).
  rewrite Hkey, Hround, Hm, Hlook in Hbody.
  rewrite (dispatch_message_delivered w2 _ data s st sch') in Hbody
    by (try (rewrite Hst; exact Hst0); assumption).
  eexists. split; [exact Hbody|].
  cbn [streams mp sched with_mp with_trace with_streams with_sched].
  rewrite Hmp, Hst. repeat split.
Qed.

Lemma putBufferInbound_parks w b :
  ch_queue (bufIn (mp w)) = [] -> ch_closed (bufIn (mp w)) = false ->
  putBufferInbound b w = Blocked.
Proof.
  intros Hq Hc. unfold putBufferInbound, get, bind at 1. unfold chan_recv.
  rewrite Hq, Hc. reflexivity.
Qed.

(** X17: a frame with declared length 0 takes no inbound slot, but for a
    NewStream frame with a new key, and for a Message frame for a stream
    that is not in the map, the receive loop gives a slot back all the
    same: when no slot is held it parks at that receive, and when one is
    held, by a payload queued for some stream, the Message turn goes on
    with one slot fewer held. *)
Theorem empty_frame_gives_back_a_slot w sid tag rest e m :
  buf (mp w) = {| Varint.rd_bytes := wire_frame (header_of sid tag) [] ++ rest;
                  Varint.rd_err := e |} ->
  0 <= sid < 2 ^ 60 ->
  0 <= tag <= 2 ->
  channels (mp w) = Some m ->
  m !! mkStreamID sid (tag =? 1) = None ->
  (ch_queue (bufIn (mp w)) = [] -> ch_closed (bufIn (mp w)) = false ->
   handleIncoming_body w = Blocked)
  /\ (forall q, ch_queue (bufIn (mp w)) = tt :: q -> 1 <= tag ->
      exists w1, handleIncoming_body w = Ret (Continue, w1)
                 /\ ch_queue (bufIn (mp w1)) = q
                 /\ streams w1 = streams w
                 /\ channels (mp w1) = channels (mp w)).
Proof.
  intros Hbuf Hsid Htag Hm Hnone.
  destruct (low_tags tag Htag) as (Hkey & Hround).
  destruct (header_of_wire sid tag Hsid ltac:(lia)) as (Hh & Hsh & Hland).
  destruct (frame_decode_empty w _ rest e Hbuf Hh)
    as (w1 & w2 & H1 & H2 & Hmp & Hst & Hsch & _).
  rewrite Hsh, Hland in H1.
  destruct (handleIncoming_body_dispatch w sid tag w1 [] w2 H1 H2) as (Hbody & _ & _).
  cbv zeta in Hbody. rewrite Hkey, Hround, Hmp in Hbody.
  cbn [channels set_buf] in Hbody. rewrite Hm, Hnone in Hbody.
  split.
  - intros Hq Hc. rewrite Hbody. unfold handleIncoming_dispatch.
    assert (Hpark : putBufferInbound [] w2 = Blocked)
      by (apply putBufferInbound_parks; rewrite Hmp; assumption).
    destruct (tag =? 0).
    + cbn [Z.eqb newStreamTag]. unfold bind at 1. rewrite Hpark. reflexivity.
    + cbn [Z.eqb messageTag closeTag newStreamTag resetTag Pos.eqb].
      unfold bind at 1. rewrite Hpark. reflexivity.
  - intros q Hq H1tag.
    replace (tag =? 0) with false in Hbody by (symmetry; apply Z.eqb_neq; lia).
    rewrite (dispatch_message_unknown w2 _ [] q) in Hbody by (rewrite Hmp; exact Hq).
    eexists. split; [exact Hbody|].
    cbn [streams mp with_mp with_trace]. rewrite Hmp. repeat split. exact Hst.
Qed.

End Arrivals.

(** ** The end of the transport *)

Section TransportEnd.

Context {M : Type} `{MemoryManager M}.

Implicit Types (w : World M).

Lemma ReadUvarint_at_end r :
  Varint.rd_bytes r = [] -> Varint.ReadUvarint r = Ret (0, Some (Varint.rd_err r), r).
Proof.
  intros Hr. unfold Varint.ReadUvarint. cbn [Varint.ReadUvarint_loop].
  unfold Varint.ReadByte. rewrite Hr.
  destruct (decide (Varint.rd_err r = io_EOF)); [|reflexivity].
  destruct (decide (0 = 0)); [reflexivity|congruence].
Qed.

Lemma session_ok_same w w1 :
  closed (mp w1) = closed (mp w) -> channels (mp w1) = channels (mp w) ->
  streams w1 = streams w -> session_ok w -> session_ok w1.
Proof.
  unfold session_ok. intros -> -> ->. auto.
Qed.

(* The payload break off before its declared length: the slot is taken,
   and ReadFull reports the short read. *)
Lemma readNext_truncated w l r' sch' :
  Varint.ReadUvarint (buf (mp w)) = Ret (l, None, r') ->
  0 < l <= u64 (MaxMessageSize w) -> l < 2 ^ 63 ->
  sched w = CaseSend :: sch' ->
  ch_closed (bufIn (mp w)) = false ->
  (length (ch_queue (bufIn (mp w))) < ch_cap (bufIn (mp w)))%nat ->
  Z.of_nat (length (Varint.rd_bytes r')) < l ->
  exists w2,
    readNext w =
      Ret (([], Some (if decide (length (Varint.rd_bytes r') = 0%nat) then Varint.rd_err r'
                      else if decide (Varint.rd_err r' = io_EOF) then io_ErrUnexpectedEOF
                           else Varint.rd_err r')), w2)
    /\ bufIn (mp w2) = mkChan (ch_queue (bufIn (mp w)) ++ [tt]) (ch_cap (bufIn (mp w))) false
    /\ closed (mp w2) = closed (mp w)
    /\ channels (mp w2) = channels (mp w)
    /\ streams w2 = streams w.
Proof.
  intros Hr Hl Hl63 Hs Hc Hroom Hshort. unfold readNext.
  rewrite (bind_Ret _ _ _ _ _ (buf_ReadUvarint_ret _ _ _ _ Hr)).
  cbn beta iota. unfold get at 1. unfold bind at 1.
  change (MaxMessageSize (consumed r' w)) with (MaxMessageSize w).
  replace (u64 (MaxMessageSize w) <? l) with false by (symmetry; apply Z.ltb_ge; lia).
  replace (l =? 0) with false by (symmetry; apply Z.eqb_neq; lia).
  rewrite (bind_Ret _ _ _ _ _
             (getBufferInbound_ret (consumed r' w) sch' (int64 l) Hs Hc Hroom
                ltac:(rewrite int64_small; lia))).
  cbn beta iota. unfold get at 1. unfold bind at 1.
  rewrite int64_small by lia.
  cbn [mp with_trace with_mp with_sched consumed buf set_bufIn set_buf].
  unfold io_ReadFull. rewrite repeat_length.
  rewrite (take_ge (Varint.rd_bytes r')) by lia.
  destruct (decide (length (Varint.rd_bytes r') = Z.to_nat l)) as [Heq|_]; [lia|].
  unfold modify_mp, emit, modify, bind, ret.
  eexists. split; [reflexivity|]. repeat split.
Qed.

(** X18: when the transport ends between two frames, handleIncoming
    returns with the transport's error, io.EOF on an orderly close, as
    the shutdown cause, and the session closed: signals raised, map
    nil. *)
Theorem transport_end fuel w :
  session_ok w ->
  Varint.rd_bytes (buf (mp w)) = [] ->
  exists w',
    handleIncoming (S fuel) w = Ret (tt, w')
    /\ shutdownErr (mp w') = Some (Varint.rd_err (buf (mp w)))
    /\ closed (mp w') = true
    /\ shutdown (mp w') = true
    /\ channels (mp w') = None.
Proof.
  intros Hok Hempty.
  pose proof (buf_ReadUvarint_ret w _ _ _ (ReadUvarint_at_end _ Hempty)) as Hrd.
  assert (Hb : handleIncoming_body w =
               Ret (Return, with_mp (set_shutdownErr (Some (Varint.rd_err (buf (mp w)))))
                              (consumed (buf (mp w)) w))).
  { unfold handleIncoming_body, readNextHeader.
    rewrite (bind_Ret _ _ _ _ _ (bind_Ret _ _ _ _ _ Hrd)). reflexivity. }
  apply (handleIncoming_fatal fuel w _ _ Hb); [reflexivity|].
  apply (session_ok_same w); [reflexivity..|exact Hok].
Qed.

(** X19: when the transport ends inside a payload, after the header and a
    length within the limit but before that many bytes have come, the
    session ends with io.ErrUnexpectedEOF as its cause if part of the
    payload had come and with io.EOF if none had; the inbound slot taken
    for the payload is not given back. *)
Theorem truncated_payload_ends_session fuel w h l part sch' :
  session_ok w ->
  buf (mp w) = {| Varint.rd_bytes := Varint.ToUvarint h ++ Varint.ToUvarint l ++ part;
                  Varint.rd_err := io_EOF |} ->
  0 <= h < 2 ^ 63 ->
  0 < l <= u64 (MaxMessageSize w) -> l < 2 ^ 63 ->
  Z.of_nat (length part) < l ->
  sched w = CaseSend :: sch' ->
  ch_closed (bufIn (mp w)) = false ->
  (length (ch_queue (bufIn (mp w))) < ch_cap (bufIn (mp w)))%nat ->
  exists w',
    handleIncoming (S fuel) w = Ret (tt, w')
    /\ shutdownErr (mp w')
       = Some (if decide (part = []) then io_EOF else io_ErrUnexpectedEOF)
    /\ closed (mp w') = true
    /\ ch_queue (bufIn (mp w')) = ch_queue (bufIn (mp w)) ++ [tt].
Proof.
  intros Hok Hbuf Hh Hl Hl63 Hshort Hs Hc Hroom.
  assert (Hhead : readNextHeader w =
            Ret ((Z.shiftr h 3, Z.land h 7, None),
                 consumed {| Varint.rd_bytes := Varint.ToUvarint l ++ part;
                             Varint.rd_err := io_EOF |} w)).
  { apply readNextHeader_ret. rewrite Hbuf. apply ReadUvarint_ToUvarint. exact Hh. }
  set (w1 := consumed _ w) in Hhead.
  assert (Hr : Varint.ReadUvarint (buf (mp w1)) =
               Ret (l, None, {| Varint.rd_bytes := part; Varint.rd_err := io_EOF |})).
  { subst w1. cbn [consumed mp with_trace with_mp buf set_buf].
    apply ReadUvarint_ToUvarint. lia. }
  destruct (readNext_truncated w1 l _ sch' Hr Hl Hl63 Hs Hc Hroom Hshort)
    as (w2 & Hn & Hbi & Hcl2 & Hch2 & Hst2).
  cbn [Varint.rd_bytes Varint.rd_err] in Hn.
  pose proof (handleIncoming_body_readNext_error w _ _ w1 _ w2 Hhead Hn) as Hb.
  rewrite (handleIncoming_Return fuel _ _ Hb).
  set (w3 := with_mp _ w2).
  assert (Hok3 : session_ok w3).
  { apply (session_ok_same w); [exact Hcl2|exact Hch2|exact Hst2|exact Hok]. }
  destruct (cleanup_ret w3 Hok3) as (w' & Hrun & _).
  destruct (cleanup_inv w3 w' Hrun) as (_ & Hcl & _ & _ & Herr & _ & _ & _ & _ & Hbi' & _).
  exists w'. split; [exact Hrun|]. split; [|split; [exact Hcl|]].
  - rewrite Herr. unfold shutdown_cause. subst w3. cbn [mp with_mp shutdownErr set_shutdownErr].
    destruct (decide (io_EOF = io_EOF)) as [_|Hn']; [|congruence].
    destruct part; reflexivity.
  - rewrite Hbi'. subst w3. cbn [mp with_mp bufIn set_shutdownErr]. rewrite Hbi. reflexivity.
Qed.

End TransportEnd.

(** ** NewMultiplex without buffers *)

Section Construction.

Context {M : Type} `{MemoryManager M}.

(* The reservation loop never lowers the count, and when it ran and
   left the count as it was, it stopped on an error. *)
Lemma reserve_loop_count (n : nat) : forall bufs err (w : World M) bufs' err' w',
  reserve_loop n bufs err w = (bufs', err', w') ->
  bufs <= bufs' /\ (n <> 0%nat -> bufs' = bufs -> err' <> None).
Proof.
  induction n as [|n IH]; intros bufs err w bufs' err' w' Hrun.
  - cbn in Hrun. inversion Hrun; subst. split; [lia|congruence].
  - cbn [reserve_loop] in Hrun.
    destruct (mm_ReserveMemory _ _ _) as [[e|] mm'].
    + inversion Hrun; subst. split; [lia|]. intros _ _. discriminate.
    + apply IH in Hrun as [Hle _]. split; [lia|]. intros _ Heq. lia.
Qed.

(** X20: NewMultiplex returns neither a session nor an error exactly when
    MaxBuffers is not positive: then it reserves nothing and starts no
    loop; with MaxBuffers positive a nil session always comes with the
    error of the first reservation. A session is never returned together
    with an error. *)
Theorem NewMultiplex_nil_nil mms maxb sch c inc ini (mm : option M) :
  (maxb <= 0 -> NewMultiplex mms maxb sch c inc ini mm = (None, None, []))
  /\ (0 < maxb -> forall t, NewMultiplex mms maxb sch c inc ini mm <> (None, None, t))
  /\ (forall w e t, NewMultiplex mms maxb sch c inc ini mm <> (Some w, Some e, t)).
Proof.
  split; [|split].
  - intros Hle. unfold NewMultiplex.
    replace (Z.to_nat maxb) with 0%nat by lia. reflexivity.
  - intros Hpos t. unfold NewMultiplex.
    destruct (reserve_loop _ _ _ _) as [[bufs err] w'] eqn:Hrun.
    apply reserve_loop_count in Hrun as [Hle Hstop].
    destruct (bufs =? 0) eqn:Hb; [|discriminate].
    apply Z.eqb_eq in Hb. intros Heq. inversion Heq; subst.
    apply Hstop; [lia|reflexivity|reflexivity].
  - intros w e t. unfold NewMultiplex.
    destruct (reserve_loop _ _ _ _) as [[bufs err] w'].
    destruct (bufs =? 0); discriminate.
Qed.

End Construction.

Lemma peer_opens_stream_witness :
  exists w1 w2,
    handleIncoming_body (session0 [0; 1; 115] [CaseSend; CaseSend; CaseSend])
      = Ret (Continue, w1)
    /\ Accept w1 = Ret ((Some 0%nat, None), w2)
    /\ st_name <$> (streams w2 !! 0%nat) = Some [115].
Proof.
  assert (Hbuf : buf (mp (session0 [0; 1; 115] [CaseSend; CaseSend; CaseSend]))
                 = {| Varint.rd_bytes := wire_frame (header_of 0 newStreamTag) [115] ++ [];
                      Varint.rd_err := io_EOF |}) by (vm_compute; reflexivity).
  destruct (peer_opens_stream (session0 [0; 1; 115] [CaseSend; CaseSend; CaseSend])
              0 [115] [] io_EOF ∅ [] Hbuf
              ltac:(vm_compute; split; [discriminate|reflexivity])
              ltac:(discriminate)
              ltac:(vm_compute; discriminate)
              ltac:(vm_compute; reflexivity)
              eq_refl eq_refl eq_refl eq_refl
              ltac:(vm_compute; lia) eq_refl ltac:(vm_compute; lia))
    as (w1 & Hbody & Hst & _ & _ & _ & _ & Hacc).
  destruct (Hacc eq_refl) as (w2 & Hrun & _ & Hst2).
  exists w1, w2. split; [exact Hbody|]. split; [exact Hrun|].
  rewrite Hst2, Hst. reflexivity.
Defined.

Lemma message_for_unknown_stream_witness :
  exists w1,
    handleIncoming_body (session0 [2; 1; 65; 9] [CaseSend]) = Ret (Continue, w1)
    /\ streams w1 = []
    /\ bufIn (mp w1) = make_chan 4.
Proof.
  assert (Hbuf : buf (mp (session0 [2; 1; 65; 9] [CaseSend]))
                 = {| Varint.rd_bytes := wire_frame (header_of 0 2) [65] ++ [9];
                      Varint.rd_err := io_EOF |}) by (vm_compute; reflexivity).
  destruct (message_for_unknown_stream (session0 [2; 1; 65; 9] [CaseSend])
              0 2 [65] [9] io_EOF ∅ [] Hbuf
              ltac:(vm_compute; split; [discriminate|reflexivity])
              ltac:(lia)
              ltac:(discriminate)
              ltac:(vm_compute; discriminate)
              ltac:(vm_compute; reflexivity)
              eq_refl eq_refl eq_refl eq_refl ltac:(vm_compute; lia))
    as (w1 & Hbody & Hst & Hmp & _).
  exists w1. split; [exact Hbody|]. split; [exact Hst|]. rewrite Hmp. reflexivity.
Defined.

Lemma message_delivered_witness :
  exists w1 st1,
    handleIncoming_body (session_live [2; 2; 104; 105] [CaseSend; CaseSend])
      = Ret (Continue, w1)
    /\ streams w1 !! 0%nat = Some st1
    /\ ch_queue (dataIn st1) = [[104; 105]]
    /\ ch_queue (bufIn (mp w1)) = [tt].
Proof.
  assert (Hbuf : buf (mp (session_live [2; 2; 104; 105] [CaseSend; CaseSend]))
                 = {| Varint.rd_bytes := wire_frame (header_of 0 2) [104; 105] ++ [];
                      Varint.rd_err := io_EOF |}) by (vm_compute; reflexivity).
  eval_as (streams (session_live [2; 2; 104; 105] [CaseSend; CaseSend]) !! 0%nat) Hs.
  match type of Hs with
  | _ = Some ?st =>
      destruct (message_delivered (session_live [2; 2; 104; 105] [CaseSend; CaseSend])
                  0 2 [104; 105] [] io_EOF {[ mkStreamID 0 false := 0%nat ]} 0%nat st []
                  Hbuf
                  ltac:(vm_compute; split; [discriminate|reflexivity])
                  ltac:(lia)
                  ltac:(discriminate)
                  ltac:(vm_compute; discriminate)
                  ltac:(vm_compute; reflexivity)
                  ltac:(vm_compute; reflexivity)
                  ltac:(vm_compute; reflexivity)
                  Hs
                  ltac:(vm_compute; reflexivity)
                  ltac:(vm_compute; reflexivity)
                  ltac:(vm_compute; lia)
                  ltac:(vm_compute; reflexivity)
                  ltac:(vm_compute; lia))
        as (w1 & Hbody & Hst & Hbi & _)
  end.
  eexists w1, _. split; [exact Hbody|]. split; [|split].
  - rewrite Hst. vm_compute. reflexivity.
  - reflexivity.
  - rewrite Hbi. vm_compute. reflexivity.
Defined.

Lemma empty_frame_gives_back_a_slot_witness :
  handleIncoming_body (session0 [0; 0; 2; 1; 65] [CaseSend; CaseSend]) = Blocked.
Proof.
  assert (Hbuf : buf (mp (session0 [0; 0; 2; 1; 65] [CaseSend; CaseSend]))
                 = {| Varint.rd_bytes := wire_frame (header_of 0 0) [] ++ [2; 1; 65];
                      Varint.rd_err := io_EOF |}) by (vm_compute; reflexivity).
  destruct (empty_frame_gives_back_a_slot (session0 [0; 0; 2; 1; 65] [CaseSend; CaseSend])
              0 0 [2; 1; 65] io_EOF ∅ Hbuf
              ltac:(vm_compute; split; [discriminate|reflexivity])
              ltac:(lia) eq_refl eq_refl) as [Hpark _].
  apply Hpark; reflexivity.
Defined.

Lemma transport_end_witness :
  exists w',
    handleIncoming 1 (session_live [] []) = Ret (tt, w')
    /\ shutdownErr (mp w') = Some io_EOF.
Proof.
  destruct (transport_end 0 (session_live [] [])
              ltac:(apply session_okb_ok; vm_compute; reflexivity)
              ltac:(vm_compute; reflexivity))
    as (w' & Hrun & Herr & _).
  exists w'. split; [exact Hrun|]. rewrite Herr. vm_compute. reflexivity.
Defined.

Lemma truncated_payload_ends_session_witness :
  exists w',
    handleIncoming 1 (session_live [2; 3; 104] [CaseSend]) = Ret (tt, w')
    /\ shutdownErr (mp w') = Some io_ErrUnexpectedEOF
    /\ ch_queue (bufIn (mp w')) = [tt].
Proof.
  assert (Hbuf : buf (mp (session_live [2; 3; 104] [CaseSend]))
                 = {| Varint.rd_bytes := Varint.ToUvarint 2 ++ Varint.ToUvarint 3 ++ [104];
                      Varint.rd_err := io_EOF |}) by (vm_compute; reflexivity).
  destruct (truncated_payload_ends_session 0 (session_live [2; 3; 104] [CaseSend])
              2 3 [104] []
              ltac:(apply session_okb_ok; vm_compute; reflexivity)
              Hbuf
              ltac:(vm_compute; split; [discriminate|reflexivity])
              ltac:(vm_compute; split; [reflexivity|discriminate])
              ltac:(vm_compute; reflexivity)
              ltac:(vm_compute; reflexivity)
              ltac:(vm_compute; reflexivity)
              ltac:(vm_compute; reflexivity)
              ltac:(vm_compute; lia))
    as (w' & Hrun & Herr & _ & Hbi).
  exists w'. split; [exact Hrun|]. split; [exact Herr|].
  rewrite Hbi. vm_compute. reflexivity.
Defined.

Lemma NewMultiplex_nil_nil_witness :
  NewMultiplex (M:=nullMemoryManager) (2 ^ 20) 0 [] (mkConn [] false)
    {| Varint.rd_bytes := []; Varint.rd_err := io_EOF |} true None
  = (None, None, []).
Proof.
  apply (NewMultiplex_nil_nil (M:=nullMemoryManager) (2 ^ 20) 0 [] (mkConn [] false)
           {| Varint.rd_bytes := []; Varint.rd_err := io_EOF |} true None).
  lia.
Defined.

(** ** The receive loop does not panic *)

Section Safe.

Context {M : Type} `{MemoryManager M}.

Implicit Types (w : World M) (P : World M -> Prop).


Lemma safe_weaken {A} P P' (m : go M A) (Q Q' : A -> World M -> Prop) :
  safe P m Q -> (forall w, P' w -> P w) -> (forall a w, Q a w -> Q' a w) ->
  safe P' m Q'.
Proof.
  intros Hm HP HQ w HP'. specialize (Hm w (HP w HP')).
  destruct (m w) as [[a w1]| | |]; try exact Hm. apply HQ. exact Hm.
Qed.



Lemma safe_modify P (f : World M -> World M) (Q : unit -> World M -> Prop) :
  (forall w, P w -> Q tt (f w)) -> safe P (modify f) Q.
Proof. intros HQ w HP. apply HQ. exact HP. Qed.

Lemma safe_blocked {A} P (Q : A -> World M -> Prop) : safe P blocked Q.
Proof. intros w _. exact Logic.I. Qed.



End Safe.

Section WellFormed.

Context {M : Type} `{MemoryManager M}.

Implicit Types (w : World M) (st : Stream).

Lemma same_core_refl w : same_core w w.
Proof. unfold same_core. repeat split. Qed.

Lemma well_formed_core w w' : same_core w w' -> well_formed w -> well_formed w'.
Proof.
  intros (a & b & c & d & e) (Hm & Hbi & Hns & m & Hch & Hent).
  unfold well_formed. rewrite a, b, c, d, e. eauto 10.
Qed.





(* A new stream is appended and stored under its id. *)
Lemma well_formed_register w w' m ch st :
  well_formed w ->
  channels (mp w) = Some m ->
  st_id st = ch ->
  ch_closed (dataIn st) = false ->
  MaxMessageSize w' = MaxMessageSize w ->
  channels (mp w') = Some (<[ch := length (streams w)]> m) ->
  bufIn (mp w') = bufIn (mp w) ->
  nstreams (mp w') = nstreams (mp w) ->
  streams w' = streams w ++ [st] ->
  well_formed w'.
Proof.
  intros (Hm & Hbi & Hns & m0 & Hch & Hent) Hch' Hid Hc Hmms Hchw Hbiw Hnsw Hst.
  rewrite Hch in Hch'. inversion Hch'; subst m0.
  unfold well_formed. rewrite Hmms, Hchw, Hbiw, Hnsw, Hst.
  split; [exact Hm|]. split; [exact Hbi|]. split; [exact Hns|].
  eexists. split; [reflexivity|]. intros ch' r Hl'.
  destruct (decide (ch' = ch)) as [->|Hne].
  - rewrite lookup_insert_eq in Hl'. inversion Hl'; subst r.
    exists st. split; [apply list_lookup_middle; reflexivity|]. split; assumption.
  - rewrite lookup_insert_ne in Hl' by congruence.
    destruct (Hent ch' r Hl') as (st0 & Hs0 & Hid0 & Hc0).
    exists st0. split; [apply lookup_app_l_Some; exact Hs0|]. split; assumption.
Qed.



End WellFormed.

Section CoreSteps.

Context {M : Type} `{MemoryManager M}.

Implicit Types (w : World M).

Variable Inv : World M -> Prop.
Hypothesis Inv_core : forall w w', same_core w w' -> Inv w -> Inv w'.
Hypothesis Inv_wf : forall w, Inv w -> well_formed w.










End CoreSteps.

Section ReceiveSafe.

Context {M : Type} `{MemoryManager M}.

Implicit Types (w : World M) (st : Stream).














(** X23: NewNamedStream keeps a session well formed, whether the send of
    the NewStream frame succeeds or fails: the stream it has made is in
    the map under its own id with its data channel open. *)
Theorem NewNamedStream_keeps_well_formed w ctx name r w' :
  well_formed w ->
  NewNamedStream ctx name w = Ret (r, w') ->
  well_formed w'.
Proof.
  intros Hwf Hrun. pose proof Hwf as (_ & _ & _ & m & Hm & _).
  rewrite (NewNamedStream_unfold w m ctx name Hm) in Hrun.
  unfold bind in Hrun.
  destruct (sendMsg _ _ _ _ (registered name w)) as [[err w2]| | |] eqn:Hsend;
    try discriminate.
  destruct (sendMsg_inv _ _ _ _ _ _ _
              (header_of_u64 _ newStreamTag ltac:(unfold newStreamTag; lia)) Hsend)
    as (Hs & Hmms & _ & Hres).
  assert (Hreg : well_formed (registered name w)).
  { unfold registered.
    apply (well_formed_register w _ m (mkStreamID (nextID (mp w)) true)
             (mkStream (mkStreamID (nextID (mp w)) true)
                (if decide (name = []) then fmt_Sprint (nextID (mp w)) else name)
                (make_chan (Z.to_nat (bufMax (mp w))))
                makePipeDeadline makePipeDeadline false false None None) Hwf Hm);
      try reflexivity.
    cbn. rewrite Hm. reflexivity. }
  assert (Hw2 : well_formed w2).
  { apply (well_formed_core (registered name w)); [|exact Hreg].
    unfold same_core. rewrite Hs, Hmms.
    destruct err as [e|].
    - destruct Hres as [-> _]. repeat split.
    - destruct Hres as (_ & _ & ->). repeat split. }
  destruct err as [e|].
  - destruct (decide (e = errTimeout)); unfold ret in Hrun; inversion Hrun; subst;
      exact Hw2.
  - unfold ret in Hrun. inversion Hrun; subst. exact Hw2.
Qed.

End ReceiveSafe.

Lemma session_live_well_formed incoming sch : well_formed (session_live incoming sch).
Proof.
  unfold well_formed.
  split; [vm_compute; split; [discriminate|reflexivity]|].
  split; [vm_compute; reflexivity|]. split; [vm_compute; reflexivity|].
  exists {[ mkStreamID 0 false := 0%nat ]}. split; [vm_compute; reflexivity|].
  intros ch r Hl. apply lookup_singleton_Some in Hl as [<- <-].
  eexists. split; [vm_compute; reflexivity|]. split; reflexivity.
Qed.



Lemma NewNamedStream_keeps_well_formed_witness :
  exists r w',
    NewNamedStream (mkContext None) [110] (session_live [] [CaseSend; CaseSend])
      = Ret (r, w')
    /\ well_formed w'.
Proof.
  eval_as (NewNamedStream (M:=nullMemoryManager) (mkContext None) [110]
             (session_live [] [CaseSend; CaseSend])) Hrun.
  eexists _, _. split; [exact Hrun|].
  apply (NewNamedStream_keeps_well_formed (session_live [] [CaseSend; CaseSend])
           (mkContext None) [110] _ _ (session_live_well_formed _ _) Hrun).
Defined.
